(** * QuickPoll: the record model, the poll store, the SSE broadcaster
      and the HTTP handlers

    A shallow embedding of [main.go].  Pointers ([*Poll], the backing
    arrays of [[]Option], [chan string]) are addresses into growing
    arenas, so that aliasing between the store, its callers and the
    snapshots produced by [copyPoll] is visible in the model. *)

From Stdlib Require Import ZArith List Lia Bool QArith Ascii String.
From Stdlib Require Import Floats.SpecFloat.
From stdpp Require Import gmap strings list fin_maps sorting.

Local Open Scope Z_scope.

(** ** Go base types *)

(** [time.Time]: an instant, counted in nanoseconds from the zero value
    of the type (January 1, year 1, 00:00 UTC). *)
Definition Time : Type := Z.

Definition IsZero (t : Time) : bool := t =? 0.

(** [t.After(u)] *)
Definition After (t u : Time) : bool := u <? t.

(** Go's [int] on a 64-bit platform; arithmetic wraps around. *)
Definition maxInt : Z := 2 ^ 63 - 1.
Definition minInt : Z := - 2 ^ 63.

Definition wrapInt (z : Z) : Z := (z + 2 ^ 63) mod 2 ^ 64 - 2 ^ 63.

Definition isInt (z : Z) : Prop := minInt <= z <= maxInt.

(** [float64]: IEEE 754 binary64, round to nearest even. *)
Definition float64 : Type := spec_float.

Definition f64prec : Z := 53.
Definition f64emax : Z := 1024.

(** The conversion [float64(n)] of an [int]. *)
Definition float64_of_int (n : Z) : float64 :=
  binary_normalize f64prec f64emax n 0 false.

Definition f64div (x y : float64) : float64 := SFdiv f64prec f64emax x y.
Definition f64mul (x y : float64) : float64 := SFmul f64prec f64emax x y.
Definition f64add (x y : float64) : float64 := SFadd f64prec f64emax x y.

(** ** Models *)

(** [type Option struct] *)
Record Option : Type := mkOption {
  OptID : string;
  Text : string;
  Votes : Z
}.

(** A slice header: the address of its first element in the arena of
    [Option] cells, and its length. *)
Record Slice : Type := mkSlice {
  ptr : nat;
  len : nat
}.

(** [type Poll struct] *)
Record Poll : Type := mkPoll {
  ID : string;
  Question : string;
  Options : Slice;
  CreatedAt : Time;
  ExpiresAt : Time
}.

(** The heap: every [Poll] object ever allocated, addressed by its index
    (a [*Poll] is such an index), and every [Option] cell of every backing
    array. Allocation appends; nothing is ever freed. *)
Record Heap : Type := mkHeap {
  pollObjs : list Poll;
  optCells : list Option
}.

(** [p.Options] read element by element: [None] when the slice does not
    lie inside the allocated cells, which no Go program can bring about. *)
Definition loadSlice (h : Heap) (s : Slice) : option (list Option) :=
  if decide (ptr s + len s <= length (optCells h))%nat
  then Some (take (len s) (drop (ptr s) (optCells h)))
  else None.

(** [TotalVotes], on the options [p.Options] holds. *)
Definition TotalVotes (opts : list Option) : Z :=
  fold_left (fun total opt => wrapInt (total + Votes opt)) opts 0.

(** The first option whose [ID] is [optionID], as both loops over
    [p.Options] find it. *)
Fixpoint findOption (optionID : string) (opts : list Option) : option (nat * Option) :=
  match opts with
  | [] => None
  | opt :: rest =>
      if String.eqb (OptID opt) optionID then Some (0%nat, opt)
      else match findOption optionID rest with
           | Some (i, o) => Some (S i, o)
           | None => None
           end
  end.

(** [VotePercentage] *)
Definition VotePercentage (opts : list Option) (optionID : string) : float64 :=
  let total := TotalVotes opts in
  if total =? 0 then S754_zero false
  else match findOption optionID opts with
       | Some (_, opt) =>
           f64mul (f64div (float64_of_int (Votes opt)) (float64_of_int total))
                  (float64_of_int 100)
       | None => S754_zero false
       end.

(** [IsExpired]; [now] is what [time.Now()] returns. *)
Definition IsExpired (now : Time) (p : Poll) : bool :=
  if IsZero (ExpiresAt p) then false else After now (ExpiresAt p).

(** ** Storage *)

(** [hex.EncodeToString] *)
Definition hextable : list ascii := list_ascii_of_string "0123456789abcdef".

Definition hexDigit (n : N) : ascii := nth (N.to_nat n) hextable "0"%char.

Fixpoint EncodeToString (src : list Byte.byte) : string :=
  match src with
  | [] => EmptyString
  | b :: rest =>
      String (hexDigit (N.div (Byte.to_N b) 16))
        (String (hexDigit (N.modulo (Byte.to_N b) 16)) (EncodeToString rest))
  end.

(** The four bytes [rand.Read] fills in. *)
Definition Entropy : Type := (Byte.byte * Byte.byte * Byte.byte * Byte.byte)%type.

(** [generateID] *)
Definition generateID (rnd : Entropy) : string :=
  let '(b0, b1, b2, b3) := rnd in EncodeToString [b0; b1; b2; b3].

(** [type Store struct]: [polls] maps an identifier to a [*Poll]. The
    mutex [mu] appears in the model of concurrent callers below. *)
Record Store : Type := mkStore {
  polls : gmap string nat
}.

Definition NewStore : Store := mkStore ∅.

(** [copyPoll]: [make] allocates [len(p.Options)] fresh cells, [copy]
    fills them, and the new [Poll] object is allocated last. *)
Definition copyPoll (h : Heap) (p : nat) : option (Heap * nat) :=
  o ← pollObjs h !! p;
  opts ← loadSlice h (Options o);
  let options := mkSlice (length (optCells h)) (len (Options o)) in
  let q := mkPoll (ID o) (Question o) options (CreatedAt o) (ExpiresAt o) in
  Some (mkHeap (pollObjs h ++ [q]) (optCells h ++ opts), length (pollObjs h)).

(** [poll.ID] once [Create] has filled in an empty one. *)
Definition createdID (rnd : Entropy) (o : Poll) : string :=
  if String.eqb (ID o) "" then generateID rnd else ID o.

(** [Create]: the caller's object itself is stamped and stored. The
    returned error is always [nil]. *)
Definition Create (rnd : Entropy) (now : Time) (h : Heap) (s : Store) (poll : nat)
  : option (Heap * Store) :=
  o ← pollObjs h !! poll;
  let id := createdID rnd o in
  let o' := mkPoll id (Question o) (Options o) now (ExpiresAt o) in
  Some (mkHeap (<[poll := o']> (pollObjs h)) (optCells h),
        mkStore (<[id := poll]> (polls s))).

(** [Get]: the snapshot and the [exists] flag as one [option]. *)
Definition Get (h : Heap) (s : Store) (id : string) : option (Heap * option nat) :=
  match polls s !! id with
  | None => Some (h, None)
  | Some poll => '(h', c) ← copyPoll h poll; Some (h', Some c)
  end.

(** The three errors [Vote] builds with [fmt.Errorf]. *)
Definition PollNotFound : string := "poll not found".
Definition PollExpired : string := "poll has expired".
Definition OptionNotFound : string := "option not found".

(** [poll.Options[i].Votes++] *)
Definition incrVotes (opt : Option) : Option :=
  mkOption (OptID opt) (Text opt) (wrapInt (Votes opt + 1)).

(** [Vote]: a snapshot on the left, an error on the right. *)
Definition Vote (now : Time) (h : Heap) (s : Store) (pollID optionID : string)
  : option (Heap * (nat + string)) :=
  match polls s !! pollID with
  | None => Some (h, inr PollNotFound)
  | Some poll =>
      o ← pollObjs h !! poll;
      if IsExpired now o then Some (h, inr PollExpired)
      else
        opts ← loadSlice h (Options o);
        match findOption optionID opts with
        | Some (i, opt) =>
            let h1 := mkHeap (pollObjs h)
                        (<[(ptr (Options o) + i)%nat := incrVotes opt]> (optCells h)) in
            '(h2, c) ← copyPoll h1 poll; Some (h2, inl c)
        | None => Some (h, inr OptionNotFound)
        end
  end.

(** The loop of [List]: one [copyPoll] per map entry, appended in the
    order the [range] visits them. *)
Fixpoint copyAll (h : Heap) (ps : list nat) : option (Heap * list nat) :=
  match ps with
  | [] => Some (h, [])
  | p :: rest =>
      '(h1, c) ← copyPoll h p;
      '(h2, cs) ← copyAll h1 rest;
      Some (h2, c :: cs)
  end.

(** [polls[i].CreatedAt] *)
Definition createdAt (h : Heap) (p : nat) : Time :=
  match pollObjs h !! p with
  | Some o => CreatedAt o
  | None => 0
  end.

(** The [less] closure [List] hands to [sort.Slice]. *)
Definition lessCreated (h : Heap) (a b : nat) : bool :=
  After (createdAt h a) (createdAt h b).

(** [List]: [ord] is the order in which [range s.polls] visits the map,
    which Go leaves unspecified; [sortSlice] is [sort.Slice]. *)
Definition List (sortSlice : (nat -> nat -> bool) -> list nat -> list nat)
    (ord : list (string * nat)) (h : Heap) (s : Store) : option (Heap * list nat) :=
  '(h', cs) ← copyAll h (ord.*2);
  Some (h', sortSlice (lessCreated h') cs).

(** [Delete] *)
Definition Delete (s : Store) (id : string) : Store * bool :=
  match polls s !! id with
  | Some _ => (mkStore (delete id (polls s)), true)
  | None => (s, false)
  end.

(** [sort.Slice] on a slice of at most twelve elements is the insertion
    sort of package sort: every element is moved left past the elements
    it is [less] than. [insertLeft] works on the reversed sorted prefix. *)
Fixpoint insertLeft {A} (less : A -> A -> bool) (x : A) (rev_prefix : list A) : list A :=
  match rev_prefix with
  | [] => [x]
  | y :: rest => if less x y then y :: insertLeft less x rest else x :: y :: rest
  end.

Definition insertionSort {A} (less : A -> A -> bool) (data : list A) : list A :=
  reverse (fold_left (fun acc x => insertLeft less x acc) data []).

(** ** SSE broadcaster *)

(** A [chan string]: the pending messages, the capacity given to [make]
    and whether [close] ran. A channel is the index of its object in the
    arena of all channels made so far; an index outside it is [nil]. *)
Record Chan : Type := mkChan {
  buf : list string;
  cap : nat;
  closed : bool
}.

(** [type Broadcaster struct] *)
Record Broadcaster : Type := mkBroadcaster {
  subscribers : gmap string (gmap nat bool)
}.

Definition NewBroadcaster : Broadcaster := mkBroadcaster ∅.

(** [Subscribe] *)
Definition Subscribe (cs : list Chan) (b : Broadcaster) (pollID : string)
  : list Chan * Broadcaster * nat :=
  let ch := length cs in
  let subs := default ∅ (subscribers b !! pollID) in
  (cs ++ [mkChan [] 10 false],
   mkBroadcaster (<[pollID := <[ch := true]> subs]> (subscribers b)),
   ch).

(** [close(ch)]; the second component is the run-time panic, if any. *)
Definition closeChan (cs : list Chan) (ch : nat) : list Chan * option string :=
  match cs !! ch with
  | Some c =>
      if closed c then (cs, Some "close of closed channel"%string)
      else (<[ch := mkChan (buf c) (cap c) true]> cs, None)
  | None => (cs, Some "close of nil channel"%string)
  end.

(** [Unsubscribe]; a panic of [close] leaves the [delete] done. *)
Definition Unsubscribe (cs : list Chan) (b : Broadcaster) (pollID : string) (ch : nat)
  : list Chan * Broadcaster * option string :=
  match subscribers b !! pollID with
  | Some subs =>
      let b' := mkBroadcaster (<[pollID := delete ch subs]> (subscribers b)) in
      let '(cs', panic) := closeChan cs ch in
      (cs', b', panic)
  | None => (cs, b, None)
  end.

(** [select { case ch <- data: default: }] *)
Definition trySend (cs : list Chan) (ch : nat) (data : string) : list Chan * option string :=
  match cs !! ch with
  | Some c =>
      if closed c then (cs, Some "send on closed channel"%string)
      else if decide (length (buf c) < cap c)%nat
           then (<[ch := mkChan (buf c ++ [data]) (cap c) false]> cs, None)
           else (cs, None)
  | None => (cs, None)
  end.

(** The loop of [Broadcast] over the listeners in the order [range]
    visits them; a panic ends it. *)
Fixpoint sendAll (cs : list Chan) (ord : list nat) (data : string)
  : list Chan * option string :=
  match ord with
  | [] => (cs, None)
  | ch :: rest =>
      match trySend cs ch data with
      | (cs', None) => sendAll cs' rest data
      | (cs', Some panic) => (cs', Some panic)
      end
  end.

(** [Broadcast]: [ord] is the order in which [range subs] visits the
    listener set. *)
Definition Broadcast (ord : list nat) (cs : list Chan) (b : Broadcaster)
    (pollID data : string) : list Chan * option string :=
  match subscribers b !! pollID with
  | Some subs => sendAll cs ord data
  | None => (cs, None)
  end.

(** [msg := <-ch] as the listener's loop runs it: [None] when the
    receive would block. *)
Definition Recv (cs : list Chan) (ch : nat) : option (list Chan * string) :=
  c ← cs !! ch;
  match buf c with
  | msg :: rest => Some (<[ch := mkChan rest (cap c) (closed c)]> cs, msg)
  | [] => if closed c then Some (cs, ""%string) else None
  end.

(** ** Concurrent callers of [Vote]

    Each call is a goroutine running the body of [Vote] step by step:
    [s.mu.Lock()], the lookups, the read and then the write of
    [poll.Options[i].Votes++], [copyPoll], and the deferred
    [s.mu.Unlock()]. *)
Inductive VotePC : Type :=
  | AtLock
  | AtLookup
  | AtLoad (poll cell : nat)
  | AtStore (poll cell : nat) (read : Z)
  | AtCopy (poll : nat)
  | AtUnlock (result : nat + string)
  | Returned (result : nat + string).

Record VoteCall : Type := mkVoteCall {
  callNow : Time;
  callPollID : string;
  callOptionID : string;
  pc : VotePC
}.

Record Shared : Type := mkShared {
  heap : Heap;
  store : Store;
  mu : bool;
  calls : list VoteCall
}.

Definition setPC (c : VoteCall) (p : VotePC) : VoteCall :=
  mkVoteCall (callNow c) (callPollID c) (callOptionID c) p.

(** One step of goroutine [t]; [None] when it cannot move: it waits for
    the mutex or has returned. *)
Definition stepCall (t : nat) (σ : Shared) : option Shared :=
  c ← calls σ !! t;
  let next h m p := Some (mkShared h (store σ) m (<[t := setPC c p]> (calls σ))) in
  match pc c with
  | AtLock => if mu σ then None else next (heap σ) true AtLookup
  | AtLookup =>
      match polls (store σ) !! callPollID c with
      | None => next (heap σ) (mu σ) (AtUnlock (inr PollNotFound))
      | Some poll =>
          o ← pollObjs (heap σ) !! poll;
          if IsExpired (callNow c) o
          then next (heap σ) (mu σ) (AtUnlock (inr PollExpired))
          else
            opts ← loadSlice (heap σ) (Options o);
            match findOption (callOptionID c) opts with
            | Some (i, _) => next (heap σ) (mu σ) (AtLoad poll (ptr (Options o) + i))
            | None => next (heap σ) (mu σ) (AtUnlock (inr OptionNotFound))
            end
      end
  | AtLoad poll cell =>
      opt ← optCells (heap σ) !! cell;
      next (heap σ) (mu σ) (AtStore poll cell (Votes opt))
  | AtStore poll cell read =>
      cur ← optCells (heap σ) !! cell;
      let cur' := mkOption (OptID cur) (Text cur) (wrapInt (read + 1)) in
      next (mkHeap (pollObjs (heap σ)) (<[cell := cur']> (optCells (heap σ))))
           (mu σ) (AtCopy poll)
  | AtCopy poll =>
      '(h', snap) ← copyPoll (heap σ) poll;
      next h' (mu σ) (AtUnlock (inl snap))
  | AtUnlock r => next (heap σ) false (Returned r)
  | Returned _ => None
  end.

(** The interleavings: any goroutine that can move may move next. *)
Inductive interleave : Shared -> Shared -> Prop :=
  | interleave_refl σ : interleave σ σ
  | interleave_step σ t σ1 σ2 :
      stepCall t σ = Some σ1 -> interleave σ1 σ2 -> interleave σ σ2.

Definition hasReturned (c : VoteCall) : bool :=
  match pc c with Returned _ => true | _ => false end.

Definition allReturned (σ : Shared) : Prop :=
  forall c, c ∈ calls σ -> hasReturned c = true.

(** [n] goroutines about to call [Vote(pollID, optionID)]; [nows] holds
    what [time.Now()] will return to each. *)
Definition spawn (h : Heap) (s : Store) (pollID optionID : string) (nows : list Time)
  : Shared :=
  mkShared h s false ((fun now => mkVoteCall now pollID optionID AtLock) <$> nows).

(** ** Exact percentages

    [VotePercentage] with its three [float64] operations replaced by the
    rational arithmetic they round. *)
Definition exactPercentage (opts : list Option) (optionID : string) : Q :=
  let total := TotalVotes opts in
  if total =? 0 then 0%Q
  else match findOption optionID opts with
       | Some (_, opt) => ((Votes opt # 1) / (total # 1) * 100)%Q
       | None => 0%Q
       end.

Definition Qsum (l : list Q) : Q := fold_right Qplus 0%Q l.

Definition f64sum (l : list float64) : float64 :=
  fold_left f64add l (S754_zero false).

Definition sumVotes (opts : list Option) : Z :=
  fold_right (fun opt acc => Votes opt + acc) 0 opts.

(** ** Reading the heap *)

(** What a caller holding the pointer [p] reads through it. *)
Record PollView : Type := mkView {
  vID : string;
  vQuestion : string;
  vOptions : list Option;
  vCreatedAt : Time;
  vExpiresAt : Time
}.

Definition readPoll (h : Heap) (p : nat) : option PollView :=
  o ← pollObjs h !! p;
  opts ← loadSlice h (Options o);
  Some (mkView (ID o) (Question o) opts (CreatedAt o) (ExpiresAt o)).

Definition inSlice (s : Slice) (a : nat) : Prop := (ptr s <= a < ptr s + len s)%nat.

Definition validSlice (h : Heap) (s : Slice) : Prop :=
  (ptr s + len s <= length (optCells h))%nat.

(** Memory safety: every slice lies inside the allocated cells, every
    counter is an [int], every stored pointer is live. Identifiers in the
    store are never empty, since [Create] replaces an empty one. *)
Definition slicesValid (h : Heap) : Prop :=
  forall p o, pollObjs h !! p = Some o -> validSlice h (Options o).

Definition countersInt (h : Heap) : Prop :=
  forall a c, optCells h !! a = Some c -> isInt (Votes c).

Definition wfHeap (h : Heap) : Prop := slicesValid h /\ countersInt h.

Definition wfStore (h : Heap) (s : Store) : Prop :=
  forall id p, polls s !! id = Some p ->
    (p < length (pollObjs h))%nat /\ id <> EmptyString.

Definition wf (h : Heap) (s : Store) : Prop := wfHeap h /\ wfStore h s.

(** [h'] holds everything [h] holds, unchanged, and possibly more. *)
Definition extends (h h' : Heap) : Prop :=
  (exists ps, pollObjs h' = pollObjs h ++ ps) /\
  (exists cs, optCells h' = optCells h ++ cs).

(** What a caller can do to a poll it holds a pointer to. *)
Inductive Mutation : Type :=
  | SetID (v : string)
  | SetQuestion (v : string)
  | SetCreatedAt (v : Time)
  | SetExpiresAt (v : Time)
  | SetOption (i : nat) (v : Option)
  | Reslice (lo hi : nat).

(** [p.Options[i] = v] and [p.Options = p.Options[lo:hi]] among them;
    [None] is the panic of an index or a bound out of range. Slices carry
    no capacity here, so [hi] is checked against the length, and [append]
    is not modelled. *)
Definition mutate (h : Heap) (p : nat) (m : Mutation) : option Heap :=
  o ← pollObjs h !! p;
  let setObj o' := Some (mkHeap (<[p := o']> (pollObjs h)) (optCells h)) in
  match m with
  | SetID v => setObj (mkPoll v (Question o) (Options o) (CreatedAt o) (ExpiresAt o))
  | SetQuestion v => setObj (mkPoll (ID o) v (Options o) (CreatedAt o) (ExpiresAt o))
  | SetCreatedAt v => setObj (mkPoll (ID o) (Question o) (Options o) v (ExpiresAt o))
  | SetExpiresAt v => setObj (mkPoll (ID o) (Question o) (Options o) (CreatedAt o) v)
  | SetOption i v =>
      if decide (i < len (Options o))%nat
      then Some (mkHeap (pollObjs h) (<[(ptr (Options o) + i)%nat := v]> (optCells h)))
      else None
  | Reslice lo hi =>
      if decide (lo <= hi <= len (Options o))%nat
      then setObj (mkPoll (ID o) (Question o)
                     (mkSlice (ptr (Options o) + lo) (hi - lo))
                     (CreatedAt o) (ExpiresAt o))
      else None
  end.

Fixpoint mutateAll (h : Heap) (p : nat) (ms : list Mutation) : option Heap :=
  match ms with
  | [] => Some h
  | m :: rest => h' ← mutate h p m; mutateAll h' p rest
  end.

(** ** Operation sequences, invariants and example states *)

(** A store with one poll, never expiring, created at instant 100. *)
Definition exPoll : Poll := mkPoll "p1" "Tabs or spaces?" (mkSlice 0 2) 100 0.
Definition exOpts : list Option := [mkOption "a" "Tabs" 3; mkOption "b" "Spaces" 5].
Definition exHeap : Heap := mkHeap [exPoll] exOpts.
Definition exStore : Store := mkStore {["p1"%string := 0%nat]}.

(** What callers do to a store: allocate a poll literal [&Poll{...}]
    (not an operation of the store, but the only source of the pointers
    [Create] takes), and the five operations. *)
Inductive Op : Type :=
  | OpNew (id question : string) (opts : list Option) (expiresAt : Time)
  | OpCreate (rnd : Entropy) (now : Time) (poll : nat)
  | OpGet (id : string)
  | OpVote (now : Time) (pollID optionID : string)
  | OpList (ord : list (string * nat))
  | OpDelete (id : string).

(** [&Poll{ID: id, Question: question, Options: []Option{...},
    ExpiresAt: expiresAt}] *)
Definition newPoll (h : Heap) (id question : string) (opts : list Option)
    (expiresAt : Time) : Heap * nat :=
  (mkHeap
     (pollObjs h ++
        [mkPoll id question (mkSlice (length (optCells h)) (length opts)) 0 expiresAt])
     (optCells h ++ opts),
   length (pollObjs h)).

Definition step (sortSlice : (nat -> nat -> bool) -> list nat -> list nat)
    (op : Op) (st : Heap * Store) : option (Heap * Store) :=
  let '(h, s) := st in
  match op with
  | OpNew id question opts expiresAt => Some ((newPoll h id question opts expiresAt).1, s)
  | OpCreate rnd now poll => Create rnd now h s poll
  | OpGet id => '(h', _) ← Get h s id; Some (h', s)
  | OpVote now pollID optionID => '(h', _) ← Vote now h s pollID optionID; Some (h', s)
  | OpList ord => '(h', _) ← List sortSlice ord h s; Some (h', s)
  | OpDelete id => Some (h, (Delete s id).1)
  end.

Fixpoint run (sortSlice : (nat -> nat -> bool) -> list nat -> list nat)
    (ops : list Op) (st : Heap * Store) : option (Heap * Store) :=
  match ops with
  | [] => Some st
  | op :: rest => st' ← step sortSlice op st; run sortSlice rest st'
  end.

(** The pointers a sequence hands to [Create]. *)
Definition createdBy (ops : list Op) : list nat :=
  omap (fun op => match op with OpCreate _ _ poll => Some poll | _ => None end) ops.

(** An operation a Go caller can issue in state [(h, s)]. *)
Definition opOk (op : Op) (st : Heap * Store) : Prop :=
  match op with
  | OpNew _ _ opts _ => Forall (fun opt => isInt (Votes opt)) opts
  | OpCreate _ _ poll => (poll < length (pollObjs st.1))%nat
  | OpList ord => ord ≡ₚ map_to_list (polls st.2)
  | _ => True
  end.

Definition disjointSlices (s1 s2 : Slice) : Prop :=
  forall a, ~ (inSlice s1 a /\ inSlice s2 a).

(** No other object's options overlap those of [c]. *)
Definition separated (h : Heap) (c : nat) : Prop :=
  forall oc q oq,
    pollObjs h !! c = Some oc -> pollObjs h !! q = Some oq -> q <> c ->
    disjointSlices (Options oc) (Options oq).

(** From [h] to [h']: nothing was freed, no object had its [Options]
    header replaced, and objects allocated since lie over cells allocated
    since. *)
Definition grows (h h' : Heap) : Prop :=
  (length (pollObjs h) <= length (pollObjs h'))%nat /\
  (length (optCells h) <= length (optCells h'))%nat /\
  (forall q o, pollObjs h !! q = Some o ->
     exists o', pollObjs h' !! q = Some o' /\ Options o' = Options o) /\
  (forall q o', (length (pollObjs h) <= q)%nat -> pollObjs h' !! q = Some o' ->
     (length (optCells h) <= ptr (Options o'))%nat).

(** What package sort asks of [less]: a strict weak ordering. *)
Definition strictWeak {A} (less : A -> A -> bool) : Prop :=
  (forall a, less a a = false) /\
  (forall a b c, less a b = true -> less b c = true -> less a c = true) /\
  (forall a b c, less a b = false -> less b c = false -> less a c = false).

(** What it promises: no element is [less] than one placed before it. *)
Definition sortedBy {A} (less : A -> A -> bool) (l : list A) : Prop :=
  forall i j a b, (i < j)%nat -> l !! i = Some a -> l !! j = Some b -> less b a = false.

(** Three polls created at instants 10, 20 and 30. *)
Definition threeHeap : Heap :=
  mkHeap [mkPoll "x1" "First" (mkSlice 0 0) 10 0;
          mkPoll "x2" "Second" (mkSlice 0 0) 20 0;
          mkPoll "x3" "Third" (mkSlice 0 0) 30 0] [].
Definition threeStore : Store :=
  mkStore (<["x3"%string := 2%nat]> (<["x2"%string := 1%nat]> {["x1"%string := 0%nat]})).

(** The calls that have written their increment back. *)
Definition pastStore (c : VoteCall) : nat :=
  match pc c with
  | AtCopy _ | AtUnlock _ | Returned _ => 1%nat
  | _ => 0%nat
  end.

Definition stored (σ : Shared) : nat := sum_list (pastStore <$> calls σ).

(** The steps a call still has to take. *)
Definition stepsLeft (c : VoteCall) : nat :=
  match pc c with
  | AtLock => 6%nat
  | AtLookup => 5%nat
  | AtLoad _ _ => 4%nat
  | AtStore _ _ _ => 3%nat
  | AtCopy _ => 2%nat
  | AtUnlock _ => 1%nat
  | Returned _ => 0%nat
  end.

Definition remaining (σ : Shared) : nat := sum_list (stepsLeft <$> calls σ).

(** Not holding the mutex: yet to lock it, or returned with a snapshot. *)
Definition outside (p : VotePC) : Prop :=
  p = AtLock \/ exists snap, p = Returned (inl snap).

(** A schedule names the goroutine to move at each step. *)
Fixpoint runSchedule (sched : list nat) (σ : Shared) : option Shared :=
  match sched with
  | [] => Some σ
  | t :: rest => σ' ← stepCall t σ; runSchedule rest σ'
  end.

(** What [Subscribe] establishes and [Broadcast] and a disciplined
    [Unsubscribe] maintain: every registered channel is live, open, of
    capacity 10, and registered under one key only. *)
Definition wfNotifier (cs : list Chan) (b : Broadcaster) : Prop :=
  (forall key subs ch, subscribers b !! key = Some subs -> is_Some (subs !! ch) ->
     exists c, cs !! ch = Some c /\ closed c = false /\ cap c = 10%nat) /\
  (forall k1 k2 subs1 subs2 ch,
     subscribers b !! k1 = Some subs1 -> subscribers b !! k2 = Some subs2 ->
     is_Some (subs1 !! ch) -> is_Some (subs2 !! ch) -> k1 = k2).

(** A channel after one more message was put in its buffer. *)
Definition enqueued (c : Chan) (data : string) : Chan :=
  mkChan (buf c ++ [data]) (cap c) false.

(** A notifier with two listeners on [p1]: channel 0 with a full
    buffer, channel 1 with one pending message. *)
Definition fullChan : Chan := mkChan (replicate 10 "m"%string) 10 false.
Definition exChans : list Chan := [fullChan; mkChan ["x"%string] 10 false].
Definition exSubs : gmap nat bool := <[1%nat := true]> {[0%nat := true]}.
Definition exBroadcaster : Broadcaster := mkBroadcaster {["p1"%string := exSubs]}.

(** ** Further invariants and callers *)

(** Every poll in the store sits under its own [ID]. *)
Definition keyed (h : Heap) (s : Store) : Prop :=
  forall id p, polls s !! id = Some p ->
    exists o, pollObjs h !! p = Some o /\ ID o = id.

(** Successive calls of [Broadcast] for one poll, each with the order
    in which its [range] visits the listeners; a panic ends them. *)
Fixpoint broadcasts (cs : list Chan) (b : Broadcaster) (pollID : string)
    (msgs : list (list nat * string)) : list Chan * option string :=
  match msgs with
  | [] => (cs, None)
  | (ord, data) :: rest =>
      match Broadcast ord cs b pollID data with
      | (cs', None) => broadcasts cs' b pollID rest
      | (cs', Some panic) => (cs', Some panic)
      end
  end.

(** [n] rounds of a listener's loop, each taking [msg := <-ch]. *)
Fixpoint receive (n : nat) (cs : list Chan) (ch : nat) : option (list Chan * list string) :=
  match n with
  | O => Some (cs, [])
  | S n' =>
      '(cs1, msg) ← Recv cs ch;
      '(cs2, rest) ← receive n' cs1 ch;
      Some (cs2, msg :: rest)
  end.

(** What the goroutines of the server do to the broadcaster:
    [EventsHandler] subscribes, receives and, when its request ends,
    unsubscribes; [VoteHandler] broadcasts. *)
Inductive NotifierOp : Type :=
  | DoSubscribe (pollID : string)
  | DoUnsubscribe (pollID : string) (ch : nat)
  | DoBroadcast (ord : list nat) (pollID data : string)
  | DoReceive (ch : nat).

(** One of them, with the panic it ends in, if any. A receive that
    would block is not taken. *)
Definition notify (op : NotifierOp) (st : list Chan * Broadcaster)
  : list Chan * Broadcaster * option string :=
  let '(cs, b) := st in
  match op with
  | DoSubscribe pollID => ((Subscribe cs b pollID).1, None)
  | DoUnsubscribe pollID ch => Unsubscribe cs b pollID ch
  | DoBroadcast ord pollID data =>
      let '(cs', panic) := Broadcast ord cs b pollID data in (cs', b, panic)
  | DoReceive ch =>
      match Recv cs ch with
      | Some (cs', _) => (cs', b, None)
      | None => (cs, b, None)
      end
  end.

Fixpoint notifyAll (ops : list NotifierOp) (st : list Chan * Broadcaster)
  : list Chan * Broadcaster * option string :=
  match ops with
  | [] => (st, None)
  | op :: rest =>
      match notify op st with
      | (st', None) => notifyAll rest st'
      | (st', Some panic) => (st', Some panic)
      end
  end.

(** The discipline of [EventsHandler]: a channel is unsubscribed from
    the poll it is registered for, hence once. For a broadcast, [ord]
    is an order of the poll's listeners. *)
Definition allowed (op : NotifierOp) (st : list Chan * Broadcaster) : Prop :=
  match op with
  | DoUnsubscribe pollID ch =>
      exists subs, subscribers st.2 !! pollID = Some subs /\ is_Some (subs !! ch)
  | DoBroadcast ord pollID _ =>
      forall subs, subscribers st.2 !! pollID = Some subs -> ord ≡ₚ (map_to_list subs).*1
  | _ => True
  end.

Fixpoint disciplined (ops : list NotifierOp) (st : list Chan * Broadcaster) : Prop :=
  match ops with
  | [] => True
  | op :: rest => allowed op st /\ disciplined rest (notify op st).1
  end.

(** No channel holds more than its capacity. *)
Definition bounded (cs : list Chan) : Prop :=
  Forall (fun c => (length (buf c) <= cap c)%nat) cs.

(** ** HTTP handlers *)

(** [type App struct], with the memory its store and its broadcaster
    live in. *)
Record App : Type := mkApp {
  appHeap : Heap;
  appStore : Store;
  appChans : list Chan;
  appBroadcaster : Broadcaster
}.

(** [NewApp], in a memory that holds [h] and the channels [cs]. *)
Definition NewApp (h : Heap) (cs : list Chan) : App :=
  mkApp h NewStore cs NewBroadcaster.

(** What the handlers read of an [*http.Request]: [r.Method],
    [r.URL.Path], whether [r.ParseForm()] returns an error,
    [r.FormValue(key)] and [r.Header.Get(key)]. *)
Record Request : Type := mkRequest {
  Method : string;
  URLPath : string;
  ParseFormFails : bool;
  FormValue : string -> string;
  HeaderGet : string -> string
}.

(** What a handler does to its [http.ResponseWriter]: [http.Error],
    [http.Redirect], [json.NewEncoder(w).Encode] of a poll under the
    content type [application/json], or the execution of a template. *)
Inductive Reply : Type :=
  | HttpError (msg : string) (code : Z)
  | HttpRedirect (url : string) (code : Z)
  | EncodeJSON (v : PollView)
  | ExecuteTemplate (name : string).

(** A handler replies, or panics. *)
Inductive Outcome : Type :=
  | Replied (reply : Reply)
  | Panicked (msg : string).

(** [strings.TrimPrefix] *)
Definition TrimPrefix (s prefix : string) : string :=
  if String.prefix prefix s
  then String.substring (String.length prefix) (String.length s - String.length prefix) s
  else s.

(** [VoteHandler]. [marshal] is [json.Marshal] on what the poll holds,
    [now] what [time.Now()] returns inside [Vote], [ord] the order in
    which [Broadcast] visits the listeners. *)
Definition VoteHandler (marshal : PollView -> string) (now : Time) (ord : list nat)
    (app : App) (r : Request) : option (App * Outcome) :=
  if negb (String.eqb (Method r) "POST")
  then Some (app, Replied (HttpError "Method not allowed" 405))
  else
    let pollID := TrimPrefix (URLPath r) "/vote/" in
    let optionID := FormValue r "option" in
    if String.eqb optionID ""
    then Some (app, Replied (HttpError "Option is required" 400))
    else
      '(h', res) ← Vote now (appHeap app) (appStore app) pollID optionID;
      match res with
      | inr err =>
          Some (mkApp h' (appStore app) (appChans app) (appBroadcaster app),
                Replied (HttpError err 400))
      | inl poll =>
          v ← readPoll h' poll;
          let '(cs', panic) :=
            Broadcast ord (appChans app) (appBroadcaster app) pollID (marshal v) in
          let app' := mkApp h' (appStore app) cs' (appBroadcaster app) in
          match panic with
          | Some msg => Some (app', Panicked msg)
          | None =>
              if String.eqb (HeaderGet r "Accept") "application/json"
              then Some (app', Replied (EncodeJSON v))
              else Some (app', Replied (HttpRedirect (String.append "/poll/" pollID) 303))
          end
      end.

(** [strings.Split(s, sep)] for a separator of one byte. *)
Fixpoint Split (s : string) (sep : ascii) : list string :=
  match s with
  | EmptyString => [EmptyString]
  | String c rest =>
      if Ascii.eqb c sep then EmptyString :: Split rest sep
      else match Split rest sep with
           | x :: xs => String c x :: xs
           | [] => [String c EmptyString]
           end
  end.

(** The loop of [CreateHandler] over the lines of the form field:
    [rnds k] are the bytes the [k]-th call of [generateID] in this
    request reads, [TrimSpace] is [strings.TrimSpace]. *)
Fixpoint collectOptions (TrimSpace : string -> string) (rnds : nat -> Entropy)
    (k : nat) (texts : list string) : list Option :=
  match texts with
  | [] => []
  | text :: rest =>
      let text' := TrimSpace text in
      if String.eqb text' "" then collectOptions TrimSpace rnds k rest
      else mkOption (generateID (rnds k)) text' 0
             :: collectOptions TrimSpace rnds (S k) rest
  end.

(** [poll.ExpiresAt] as [CreateHandler] leaves it: [ParseDuration] is
    [time.ParseDuration], in the unit of [Time]; [now] is what
    [time.Now()] returns. *)
Definition expiryOf (ParseDuration : string -> option Z) (now : Time)
    (expiry : string) : Time :=
  if String.eqb expiry "" then 0
  else match ParseDuration (String.append expiry "h") with
       | Some hours => now + hours
       | None => 0
       end.

(** [CreateHandler]; [now1] is the time read for the expiry, [now2]
    the time [Create] reads. *)
Definition CreateHandler (TrimSpace : string -> string)
    (ParseDuration : string -> option Z) (rnds : nat -> Entropy) (now1 now2 : Time)
    (app : App) (r : Request) : option (App * Outcome) :=
  if String.eqb (Method r) "GET"
  then Some (app, Replied (ExecuteTemplate "create"))
  else if negb (String.eqb (Method r) "POST")
  then Some (app, Replied (HttpError "Method not allowed" 405))
  else if ParseFormFails r
  then Some (app, Replied (HttpError "Invalid form data" 400))
  else
    let question := TrimSpace (FormValue r "question") in
    let optionsRaw := FormValue r "options" in
    if String.eqb question "" || String.eqb optionsRaw ""
    then Some (app, Replied (HttpError "Question and options are required" 400))
    else
      let optionTexts := Split optionsRaw "010"%char in
      let options := collectOptions TrimSpace rnds 0 optionTexts in
      if (length options <? 2)%nat
      then Some (app, Replied (HttpError "At least 2 options are required" 400))
      else
        let expiresAt := expiryOf ParseDuration now1 (FormValue r "expiry") in
        let '(h1, poll) := newPoll (appHeap app) "" question options expiresAt in
        '(h2, s2) ← Create (rnds (length options)) now2 h1 (appStore app) poll;
        o ← pollObjs h2 !! poll;
        Some (mkApp h2 s2 (appChans app) (appBroadcaster app),
              Replied (HttpRedirect (String.append "/poll/" (ID o)) 303)).

(** ** Example requests *)

(** [strings.TrimSpace] on a string of ASCII characters, where the
    white space is tab, line feed, vertical tab, form feed, carriage
    return and space. *)
Definition isSpace (c : ascii) : bool :=
  match nat_of_ascii c with
  | 9%nat | 10%nat | 11%nat | 12%nat | 13%nat | 32%nat => true
  | _ => false
  end.

Fixpoint trimLeft (s : string) : string :=
  match s with
  | EmptyString => EmptyString
  | String c rest => if isSpace c then trimLeft rest else s
  end.

Fixpoint trimRight (s : string) : string :=
  match s with
  | EmptyString => EmptyString
  | String c rest =>
      match trimRight rest with
      | EmptyString => if isSpace c then EmptyString else String c EmptyString
      | t => String c t
      end
  end.

Definition TrimSpaceASCII (s : string) : string := trimRight (trimLeft s).

(** Example requests: a form with a padded question, three lines of
    options of which one is blank, and an expiry; the random bytes of
    the successive calls of [generateID]; a parser of durations that
    knows one negative and one positive duration, in hours. *)
Definition exForm (expiry : string) : Request :=
  mkRequest "POST" "/create" false
    (fun key =>
       if String.eqb key "question" then "  Tabs or spaces? "%string
       else if String.eqb key "options"
            then String.append "Tabs" (String "010" (String "010" " Spaces "))
       else if String.eqb key "expiry" then expiry
       else EmptyString)
    (fun _ => EmptyString).

Definition exRnds (k : nat) : Entropy :=
  match k with
  | 0%nat => (Byte.x00, Byte.x00, Byte.x00, Byte.x0a)
  | 1%nat => (Byte.x00, Byte.x00, Byte.x00, Byte.x0b)
  | _ => (Byte.x00, Byte.x00, Byte.x00, Byte.x0c)
  end.

Definition exParseDuration (s : string) : option Z :=
  if String.eqb s "-1h" then Some (-1)
  else if String.eqb s "24h" then Some 24
  else None.

(** ** The mutex, for any callers of [Vote] *)

(** Between [s.mu.Lock()] and the deferred [s.mu.Unlock()]. *)
Definition inside (c : VoteCall) : nat :=
  match pc c with
  | AtLock | Returned _ => 0%nat
  | _ => 1%nat
  end.

Definition holders (σ : Shared) : nat := sum_list (inside <$> calls σ).

(** The pointer and the cell a call has in hand are allocated. *)
Definition inBounds (h : Heap) (c : VoteCall) : Prop :=
  match pc c with
  | AtLoad p cell | AtStore p cell _ =>
      (p < length (pollObjs h))%nat /\ (cell < length (optCells h))%nat
  | AtCopy p => (p < length (pollObjs h))%nat
  | _ => True
  end.

(** The mutex is held exactly when one call is inside. *)
Definition lockInv (σ : Shared) : Prop :=
  slicesValid (heap σ) /\ wfStore (heap σ) (store σ) /\
  Forall (inBounds (heap σ)) (calls σ) /\
  holders σ = (if mu σ then 1 else 0)%nat.

(** ** EventsHandler *)

(** Where a run of [EventsHandler] stands: about to start; subscribed
    and about to send the poll; in its loop; returned. *)
Inductive EventsPC : Type :=
  | EvStart
  | EvSubscribed (pollID : string) (ch : nat)
  | EvStreaming (pollID : string) (ch : nat)
  | EvReturned.

(** What it has written so far: the frames of the event stream, or an
    error. *)
Record Conn : Type := mkConn {
  connPC : EventsPC;
  connFrames : list string;
  connReply : option Reply
}.

(** What lets it move: being scheduled, a message ready on its
    channel, or the end of the request, [<-r.Context().Done()]. *)
Inductive ConnEvent : Type :=
  | Proceed
  | Message
  | Done.

(** [fmt.Fprintf(w, "data: %s\n\n", data)] *)
Definition frame (data : string) : string :=
  String.append "data: " (String.append data (String "010" (String "010" EmptyString))).

(** [EventsHandler], one stretch at a time: up to the check of the
    flusher, then the first frame, then one round of the loop per
    event. [canFlush] says whether [w] is an [http.Flusher]; a poll
    deleted since the first [Get] is sent as [json.Marshal] of a nil
    pointer. The result is [None] when the handler cannot move on the
    event; its last component is the panic of the deferred
    [Unsubscribe], if any. The response headers are left out. *)
Definition EventsHandler (marshal : PollView -> string) (canFlush : bool)
    (ev : ConnEvent) (app : App) (r : Request) (conn : Conn)
  : option (App * Conn * option string) :=
  match connPC conn, ev with
  | EvStart, Proceed =>
      let pollID := TrimPrefix (URLPath r) "/events/" in
      '(h1, found) ← Get (appHeap app) (appStore app) pollID;
      match found with
      | None =>
          Some (mkApp h1 (appStore app) (appChans app) (appBroadcaster app),
                mkConn EvReturned (connFrames conn)
                  (Some (HttpError "Poll not found" 404)),
                None)
      | Some _ =>
          let '(cs1, b1, ch) := Subscribe (appChans app) (appBroadcaster app) pollID in
          if canFlush
          then Some (mkApp h1 (appStore app) cs1 b1,
                     mkConn (EvSubscribed pollID ch) (connFrames conn) (connReply conn),
                     None)
          else
            let '(cs2, b2, panic) := Unsubscribe cs1 b1 pollID ch in
            Some (mkApp h1 (appStore app) cs2 b2,
                  mkConn EvReturned (connFrames conn)
                    (Some (HttpError "Streaming not supported" 500)),
                  panic)
      end
  | EvSubscribed pollID ch, Proceed =>
      '(h1, found) ← Get (appHeap app) (appStore app) pollID;
      data ← match found with
             | Some c => marshal <$> readPoll h1 c
             | None => Some "null"%string
             end;
      Some (mkApp h1 (appStore app) (appChans app) (appBroadcaster app),
            mkConn (EvStreaming pollID ch) (connFrames conn ++ [frame data])
              (connReply conn),
            None)
  | EvStreaming pollID ch, Message =>
      '(cs', msg) ← Recv (appChans app) ch;
      Some (mkApp (appHeap app) (appStore app) cs' (appBroadcaster app),
            mkConn (EvStreaming pollID ch) (connFrames conn ++ [frame msg])
              (connReply conn),
            None)
  | EvStreaming pollID ch, Done =>
      let '(cs', b', panic) :=
        Unsubscribe (appChans app) (appBroadcaster app) pollID ch in
      Some (mkApp (appHeap app) (appStore app) cs' b',
            mkConn EvReturned (connFrames conn) (connReply conn),
            panic)
  | _, _ => None
  end.

(** ** Reading identifiers back *)

(** Not part of the source: the inverse of [hex.EncodeToString], by
    which the proofs read identifiers back. *)
Definition hexValue (c : ascii) : option N :=
  (fix find (table : list ascii) (n : N) : option N :=
     match table with
     | [] => None
     | d :: rest => if Ascii.eqb d c then Some n else find rest (N.succ n)
     end) hextable 0%N.

Fixpoint DecodeString (s : string) : option (list Byte.byte) :=
  match s with
  | EmptyString => Some []
  | String hi (String lo rest) =>
      h ← hexValue hi;
      l ← hexValue lo;
      b ← Byte.of_N (h * 16 + l);
      bs ← DecodeString rest;
      Some (b :: bs)
  | String _ EmptyString => None
  end.

(** ** Counting votes *)

(** The cell whose counter [Vote(pollID, optionID)] increments at
    instant [now], when it accepts the vote. *)
Definition voteCell (now : Time) (h : Heap) (s : Store) (pollID optionID : string)
  : option nat :=
  poll ← polls s !! pollID;
  o ← pollObjs h !! poll;
  if IsExpired now o then None
  else
    opts ← loadSlice h (Options o);
    '(i, _) ← findOption optionID opts;
    Some (ptr (Options o) + i)%nat.

(** Whether [op], issued in state [st], is a vote that lands on cell [a]. *)
Definition hit (op : Op) (st : Heap * Store) (a : nat) : bool :=
  match op with
  | OpVote now pollID optionID =>
      bool_decide (voteCell now st.1 st.2 pollID optionID = Some a)
  | _ => false
  end.

(** The number of votes of a sequence that land on cell [a]. *)
Fixpoint hits (sortSlice : (nat -> nat -> bool) -> list nat -> list nat)
    (a : nat) (ops : list Op) (st : Heap * Store) : nat :=
  match ops with
  | [] => 0%nat
  | op :: rest =>
      ((if hit op st a then 1 else 0) +
       match step sortSlice op st with
       | Some st' => hits sortSlice a rest st'
       | None => 0
       end)%nat
  end.

(** The number of calls of [Vote] in a sequence. *)
Fixpoint votesOf (ops : list Op) : nat :=
  match ops with
  | [] => 0%nat
  | OpVote _ _ _ :: rest => S (votesOf rest)
  | _ :: rest => votesOf rest
  end.

(** The cell of option [i] of the poll at [q]. *)
Definition optionCell (h : Heap) (q i : nat) : nat :=
  match pollObjs h !! q with
  | Some o => (ptr (Options o) + i)%nat
  | None => 0%nat
  end.

(** The instant of the last [Create] a sequence issues on [q], if any. *)
Fixpoint lastCreate (q : nat) (ops : list Op) : option Time :=
  match ops with
  | [] => None
  | op :: rest =>
      match lastCreate q rest with
      | Some t => Some t
      | None =>
          match op with
          | OpCreate _ now p => if decide (p = q) then Some now else None
          | _ => None
          end
      end
  end.

(** * Properties *)

(** ** Integers and slices *)

Lemma wrapInt_id z : isInt z -> wrapInt z = z.
Proof.
  unfold isInt, minInt, maxInt, wrapInt. intros Hz.
  rewrite Z.mod_small; lia.
Qed.

Lemma wrapInt_isInt z : isInt (wrapInt z).
Proof.
  unfold isInt, minInt, maxInt, wrapInt.
  pose proof (Z.mod_pos_bound (z + 2 ^ 63) (2 ^ 64)). lia.
Qed.

Lemma wrapInt_maxInt : wrapInt (maxInt + 1) = minInt.
Proof. reflexivity. Qed.

Lemma fold_total_exact opts acc :
  Forall (fun opt => 0 <= Votes opt) opts ->
  0 <= acc -> acc + sumVotes opts <= maxInt ->
  fold_left (fun total opt => wrapInt (total + Votes opt)) opts acc = acc + sumVotes opts.
Proof.
  revert acc. induction opts as [|opt opts IH]; intros acc Hpos Hacc Hmax; simpl in *.
  - lia.
  - inversion_clear Hpos as [|? ? Hv Hrest].
    assert (0 <= sumVotes opts).
    { clear -Hrest. induction Hrest; simpl; lia. }
    rewrite wrapInt_id by (unfold isInt, minInt, maxInt in *; lia).
    rewrite IH; try done; lia.
Qed.

Lemma TotalVotes_exact opts :
  Forall (fun opt => 0 <= Votes opt) opts -> sumVotes opts <= maxInt ->
  TotalVotes opts = sumVotes opts.
Proof.
  intros Hpos Hmax. unfold TotalVotes.
  rewrite fold_total_exact; try done; lia.
Qed.

(** [findOption] returns the first option carrying the identifier. *)
Lemma findOption_Some optionID opts i opt :
  findOption optionID opts = Some (i, opt) <->
  opts !! i = Some opt /\ OptID opt = optionID /\
  forall j o, (j < i)%nat -> opts !! j = Some o -> OptID o <> optionID.
Proof.
  revert i. induction opts as [|x opts IH]; intros i; simpl.
  - split; [done | by intros [? _]].
  - assert (forall k, (opts !! k = Some opt /\ OptID opt = optionID /\
        forall j o, (j < S k)%nat -> (x :: opts) !! j = Some o -> OptID o <> optionID) ->
        findOption optionID opts = Some (k, opt)) as Htail.
    { intros k (Hk & Hid & Hfirst). apply IH. split_and!; [done | done |].
      intros j o Hj Hlook. apply (Hfirst (S j)); [lia | done]. }
    destruct (String.eqb_spec (OptID x) optionID) as [Heq | Hne].
    + split.
      * intros [= <- <-]. split_and!; [done | done | intros; lia].
      * intros (Hi & Hid & Hfirst). destruct i as [|i]; [by simplify_eq/= |].
        exfalso. apply (Hfirst 0%nat x); [lia | done | done].
    + split.
      * destruct (findOption optionID opts) as [[k o]|] eqn:Hfind; [| done].
        intros [= <- <-]. destruct (proj1 (IH k) eq_refl) as (Hk & Hid & Hfirst).
        split_and!; [done | done |].
        intros [|j] o' Hj Hlook; simplify_eq/=; [done |].
        apply (Hfirst j); [lia | done].
      * intros (Hi & Hid & Hfirst). destruct i as [|i]; simplify_eq/=.
        by rewrite (Htail i).
Qed.

Lemma findOption_None optionID opts :
  findOption optionID opts = None <-> forall opt, opt ∈ opts -> OptID opt <> optionID.
Proof.
  induction opts as [|x opts IH]; simpl.
  - split; [intros _ opt Hin; by apply elem_of_nil in Hin | done].
  - destruct (String.eqb_spec (OptID x) optionID) as [Heq | Hne].
    + split; [done |]. intros Hall. exfalso. apply (Hall x); [left | done].
    + split.
      * intros Hnone opt [-> | Hin]%elem_of_cons; [done |].
        apply IH; [| done]. by destruct (findOption optionID opts) as [[??]|].
      * intros Hall. rewrite (proj2 IH); [done |].
        intros opt Hin. apply Hall. by right.
Qed.

Lemma findOption_is_Some optionID opts :
  (exists opt, opt ∈ opts /\ OptID opt = optionID) ->
  exists i opt, findOption optionID opts = Some (i, opt).
Proof.
  intros (opt & Hin & Hid).
  destruct (findOption optionID opts) as [[i o]|] eqn:Hfind; [eauto |].
  exfalso. by eapply findOption_None.
Qed.

(** ** Percentages *)

Lemma findOption_NoDup opts i opt :
  NoDup (OptID <$> opts) -> opts !! i = Some opt ->
  findOption (OptID opt) opts = Some (i, opt).
Proof.
  intros Hnd Hi. apply findOption_Some. split_and!; [done | done |].
  intros j o Hj Hlook Heq.
  assert (j = i); [| lia].
  eapply NoDup_lookup; [exact Hnd | |].
  - rewrite list_lookup_fmap, Hlook. simpl. by rewrite Heq.
  - by rewrite list_lookup_fmap, Hi.
Qed.

Lemma Qsum_scaled (f : Option -> Q) (T : Z) (l : list Option) :
  T <> 0 ->
  (forall o, o ∈ l -> f o = ((Votes o # 1) / (T # 1) * 100)%Q) ->
  (Qsum (f <$> l) == (sumVotes l # 1) / (T # 1) * 100)%Q.
Proof.
  intros HT. induction l as [|o l IH]; intros Hf; simpl.
  - unfold Qsum; simpl. field. intros H0. apply HT.
    unfold Qeq in H0; simpl in H0. lia.
  - unfold Qsum in *; simpl. rewrite IH.
    + rewrite (Hf o) by left.
      change (Votes o + sumVotes l # 1)%Q with (inject_Z (Votes o + sumVotes l)).
      rewrite inject_Z_plus. unfold inject_Z. field.
      intros H0. apply HT. unfold Qeq in H0; simpl in H0. lia.
    + intros o' Hin. apply Hf. by right.
Qed.

Lemma exactPercentage_found opts i opt :
  TotalVotes opts <> 0 -> NoDup (OptID <$> opts) -> opts !! i = Some opt ->
  exactPercentage opts (OptID opt) = ((Votes opt # 1) / (TotalVotes opts # 1) * 100)%Q.
Proof.
  intros HT Hnd Hi. unfold exactPercentage.
  destruct (Z.eqb_spec (TotalVotes opts) 0) as [? | _]; [done |].
  by rewrite (findOption_NoDup opts i opt).
Qed.

Lemma exactPercentage_sum opts :
  NoDup (OptID <$> opts) ->
  Forall (fun opt => 0 <= Votes opt) opts ->
  0 < sumVotes opts <= maxInt ->
  (Qsum ((fun opt => exactPercentage opts (OptID opt)) <$> opts) == 100)%Q.
Proof.
  intros Hnd Hpos [Hlo Hhi].
  assert (TotalVotes opts = sumVotes opts) as HT by by apply TotalVotes_exact.
  rewrite (Qsum_scaled _ (TotalVotes opts)).
  - rewrite HT. field. intros H0. unfold Qeq in H0; simpl in H0. lia.
  - lia.
  - intros o [i Hi]%list_elem_of_lookup.
    apply (exactPercentage_found opts i); [lia | done | done].
Qed.




(** ** Heaps *)

Lemma loadSlice_valid h s :
  validSlice h s ->
  loadSlice h s = Some (take (len s) (drop (ptr s) (optCells h))).
Proof. intros Hv. unfold loadSlice. by rewrite decide_True. Qed.

Lemma loadSlice_Some h s l :
  loadSlice h s = Some l ->
  validSlice h s /\ length l = len s /\
  forall i, (i < len s)%nat -> l !! i = optCells h !! (ptr s + i)%nat.
Proof.
  unfold loadSlice. case_decide as Hv; [| done]. intros [= <-].
  split_and!; [done | |].
  - rewrite length_take, length_drop. lia.
  - intros i Hi. by rewrite lookup_take_lt, lookup_drop.
Qed.

Lemma loadSlice_ext h h' s :
  validSlice h s ->
  (length (optCells h) <= length (optCells h'))%nat ->
  (forall a, inSlice s a -> optCells h' !! a = optCells h !! a) ->
  loadSlice h' s = loadSlice h s.
Proof.
  intros Hv Hlen Hagree.
  rewrite (loadSlice_valid h) by done.
  rewrite (loadSlice_valid h') by (unfold validSlice in *; lia).
  f_equal. apply list_eq. intros i.
  destruct (decide (i < len s)%nat) as [Hi | Hi].
  - rewrite !lookup_take_lt, !lookup_drop by done.
    apply Hagree. unfold inSlice. lia.
  - by rewrite !lookup_take_ge by lia.
Qed.

Lemma readPoll_ext h h' p :
  slicesValid h ->
  pollObjs h' !! p = pollObjs h !! p ->
  (length (optCells h) <= length (optCells h'))%nat ->
  (forall o a, pollObjs h !! p = Some o -> inSlice (Options o) a ->
     optCells h' !! a = optCells h !! a) ->
  readPoll h' p = readPoll h p.
Proof.
  intros Hwf Hobj Hlen Hagree. unfold readPoll. rewrite Hobj.
  destruct (pollObjs h !! p) as [o|] eqn:Ho; [simpl | done].
  rewrite (loadSlice_ext h h'); eauto.
Qed.

Lemma extends_refl h : extends h h.
Proof. split; exists []; by rewrite app_nil_r. Qed.

Lemma extends_trans h1 h2 h3 : extends h1 h2 -> extends h2 h3 -> extends h1 h3.
Proof.
  intros [[ps1 Hp1] [cs1 Hc1]] [[ps2 Hp2] [cs2 Hc2]]. split.
  - exists (ps1 ++ ps2). by rewrite Hp2, Hp1, app_assoc.
  - exists (cs1 ++ cs2). by rewrite Hc2, Hc1, app_assoc.
Qed.

Lemma extends_obj h h' p o :
  extends h h' -> pollObjs h !! p = Some o -> pollObjs h' !! p = Some o.
Proof. intros [[ps ->] _] Ho. by apply lookup_app_l_Some. Qed.

Lemma extends_obj_lt h h' p :
  extends h h' -> (p < length (pollObjs h))%nat -> pollObjs h' !! p = pollObjs h !! p.
Proof. intros [[ps ->] _] Hp. by apply lookup_app_l. Qed.

Lemma extends_cell h h' a :
  extends h h' -> (a < length (optCells h))%nat -> optCells h' !! a = optCells h !! a.
Proof. intros [_ [cs ->]] Ha. by apply lookup_app_l. Qed.

Lemma extends_length h h' :
  extends h h' ->
  (length (pollObjs h) <= length (pollObjs h'))%nat /\
  (length (optCells h) <= length (optCells h'))%nat.
Proof. intros [[ps ->] [cs ->]]. rewrite !length_app. lia. Qed.

Lemma extends_readPoll h h' p :
  slicesValid h -> extends h h' -> (p < length (pollObjs h))%nat ->
  readPoll h' p = readPoll h p.
Proof.
  intros Hwf Hext Hp. apply readPoll_ext; [done | | |].
  - by apply extends_obj_lt.
  - by apply extends_length.
  - intros o a Ho [_ Ha]. apply extends_cell; [done |].
    specialize (Hwf p o Ho). unfold validSlice in Hwf. lia.
Qed.

(** [copyPoll] of a live pointer always returns; the snapshot is a new
    object over new cells. *)
Lemma copyPoll_Some h p o :
  slicesValid h -> pollObjs h !! p = Some o ->
  exists opts,
    loadSlice h (Options o) = Some opts /\
    copyPoll h p =
      Some (mkHeap
              (pollObjs h ++
                 [mkPoll (ID o) (Question o)
                    (mkSlice (length (optCells h)) (len (Options o)))
                    (CreatedAt o) (ExpiresAt o)])
              (optCells h ++ opts),
            length (pollObjs h)).
Proof.
  intros Hwf Ho. specialize (Hwf p o Ho).
  eexists. split; [by apply loadSlice_valid |].
  unfold copyPoll. rewrite Ho. simpl. by rewrite loadSlice_valid.
Qed.

Lemma copyPoll_inv h p h' c :
  copyPoll h p = Some (h', c) ->
  exists o opts,
    pollObjs h !! p = Some o /\ loadSlice h (Options o) = Some opts /\
    c = length (pollObjs h) /\
    h' = mkHeap
           (pollObjs h ++
              [mkPoll (ID o) (Question o)
                 (mkSlice (length (optCells h)) (len (Options o)))
                 (CreatedAt o) (ExpiresAt o)])
           (optCells h ++ opts).
Proof.
  unfold copyPoll. intros Hc.
  destruct (pollObjs h !! p) as [o|] eqn:Ho; simpl in Hc; [| done].
  destruct (loadSlice h (Options o)) as [opts|] eqn:Hl; simpl in Hc; [| done].
  injection Hc as <- <-. by exists o, opts.
Qed.

Lemma copyPoll_extends h p h' c : copyPoll h p = Some (h', c) -> extends h h'.
Proof.
  intros (o & opts & _ & _ & _ & ->)%copyPoll_inv. split; simpl; eauto.
Qed.

Lemma copyPoll_slicesValid h p h' c :
  slicesValid h -> copyPoll h p = Some (h', c) -> slicesValid h'.
Proof.
  intros Hwf (o & opts & Ho & Hl & -> & ->)%copyPoll_inv q oq. simpl.
  apply loadSlice_Some in Hl as (Hv & Hlen & _).
  unfold validSlice. simpl. rewrite length_app.
  intros [Hq | [Hq1 Hq2]]%lookup_app_Some.
  - specialize (Hwf q oq Hq). unfold validSlice in Hwf. lia.
  - destruct (q - length (pollObjs h))%nat; simplify_eq/=. lia.
Qed.

(** The snapshot reads as the original does. *)
Lemma copyPoll_readPoll h p h' c :
  slicesValid h -> copyPoll h p = Some (h', c) -> readPoll h' c = readPoll h p.
Proof.
  intros Hwf (o & opts & Ho & Hl & -> & ->)%copyPoll_inv.
  unfold readPoll. simpl. rewrite Ho. simpl. rewrite Hl. simpl.
  rewrite lookup_app_r by lia. rewrite Nat.sub_diag. simpl.
  pose proof (loadSlice_Some _ _ _ Hl) as (Hv & Hlen & _).
  unfold loadSlice. simpl. rewrite decide_True by (rewrite length_app; lia).
  simpl. rewrite drop_app_length. rewrite take_ge by lia. done.
Qed.

Lemma copyPoll_countersInt h p h' c :
  countersInt h -> copyPoll h p = Some (h', c) -> countersInt h'.
Proof.
  intros Hint (o & opts & Ho & Hl & -> & ->)%copyPoll_inv a x. simpl.
  intros [Ha | [_ Ha]]%lookup_app_Some; [by eapply Hint |].
  apply loadSlice_Some in Hl as (_ & Hlen & Hcells).
  apply (Hint (ptr (Options o) + (a - length (optCells h)))%nat).
  rewrite <- Hcells; [done |].
  apply lookup_lt_Some in Ha. lia.
Qed.

Lemma copyPoll_wfHeap h p h' c : wfHeap h -> copyPoll h p = Some (h', c) -> wfHeap h'.
Proof.
  intros [Hs Hi] Hc. split;
    [by eapply copyPoll_slicesValid | by eapply copyPoll_countersInt].
Qed.

Lemma wfStore_extends h h' s : extends h h' -> wfStore h s -> wfStore h' s.
Proof.
  intros Hext Hwf id p Hp. destruct (Hwf id p Hp) as [Hlt Hne].
  apply extends_length in Hext. split; [lia | done].
Qed.

(** Writing one cell of a slice. *)
Lemma loadSlice_insert h s opts i x :
  loadSlice h s = Some opts -> (i < len s)%nat ->
  loadSlice (mkHeap (pollObjs h) (<[(ptr s + i)%nat := x]> (optCells h))) s =
    Some (<[i := x]> opts).
Proof.
  unfold loadSlice. simpl. case_decide as Hv; [| done]. intros [= <-] Hi.
  rewrite decide_True by (by rewrite length_insert).
  f_equal. rewrite drop_insert_ge by lia.
  replace (ptr s + i - ptr s)%nat with i by lia.
  by rewrite take_insert_lt.
Qed.

Lemma slicesValid_insert_cell h a x :
  slicesValid h -> slicesValid (mkHeap (pollObjs h) (<[a := x]> (optCells h))).
Proof.
  intros Hs p o Ho. specialize (Hs p o Ho).
  unfold validSlice in *. simpl in *. by rewrite length_insert.
Qed.

Lemma countersInt_insert_cell h a x :
  countersInt h -> isInt (Votes x) ->
  countersInt (mkHeap (pollObjs h) (<[a := x]> (optCells h))).
Proof.
  intros Hi Hx b c. simpl. intros [(_ & <- & _) | [_ Hb]]%list_lookup_insert_Some;
    [done | by eapply Hi].
Qed.

Lemma IsExpired_true now p :
  IsExpired now p = true <-> ExpiresAt p <> 0 /\ ExpiresAt p < now.
Proof.
  unfold IsExpired, IsZero, After.
  destruct (Z.eqb_spec (ExpiresAt p) 0), (Z.ltb_spec (ExpiresAt p) now);
    split; intros; try done; lia.
Qed.

Lemma incrVotes_below opt :
  isInt (Votes opt) -> Votes opt < maxInt -> Votes (incrVotes opt) = Votes opt + 1.
Proof.
  intros Hint Hlt. simpl. apply wrapInt_id.
  unfold isInt, minInt, maxInt in *. lia.
Qed.

(** ** Vote *)

(** The successful path of [Vote], step by step. *)
Lemma Vote_found now h s pollID optionID poll o opts i opt :
  slicesValid h ->
  polls s !! pollID = Some poll -> pollObjs h !! poll = Some o ->
  IsExpired now o = false ->
  loadSlice h (Options o) = Some opts ->
  findOption optionID opts = Some (i, opt) ->
  let h1 := mkHeap (pollObjs h)
              (<[(ptr (Options o) + i)%nat := incrVotes opt]> (optCells h)) in
  loadSlice h1 (Options o) = Some (<[i := incrVotes opt]> opts) /\
  Vote now h s pollID optionID =
    Some (mkHeap
            (pollObjs h ++
               [mkPoll (ID o) (Question o)
                  (mkSlice (length (optCells h)) (len (Options o)))
                  (CreatedAt o) (ExpiresAt o)])
            (optCells h1 ++ <[i := incrVotes opt]> opts),
          inl (length (pollObjs h))).
Proof.
  intros Hs Hpoll Ho Hexp Hl Hfind h1.
  assert (i < len (Options o))%nat as Hi.
  { apply findOption_Some in Hfind as (Hi & _). apply lookup_lt_Some in Hi.
    apply loadSlice_Some in Hl as (_ & <- & _). done. }
  assert (loadSlice h1 (Options o) = Some (<[i := incrVotes opt]> opts)) as Hl1
    by by apply loadSlice_insert.
  split; [done |].
  unfold Vote. rewrite Hpoll, Ho. simpl. rewrite Hexp, Hl. simpl. rewrite Hfind.
  fold h1. unfold copyPoll. simpl. rewrite Ho. simpl.
  rewrite Hl1. simpl. by rewrite length_insert.
Qed.

(** C2, as amended: for a stored, unexpired poll with an option carrying
    [optionID], [Vote] succeeds; the first such option has its counter
    incremented by exactly 1 when it is below the largest [int] (and
    wrapped to the smallest at the largest); every other option and
    every field of the poll object are unchanged; and the result is a
    newly allocated poll over newly allocated cells that reads as the
    updated poll. *)
Theorem Vote_increments now h s pollID optionID poll o opts
  (Hwf : wf h s)
  (Hpoll : polls s !! pollID = Some poll)
  (Ho : pollObjs h !! poll = Some o)
  (Hexp : IsExpired now o = false)
  (Hopts : loadSlice h (Options o) = Some opts)
  (Hopt : exists opt, opt ∈ opts /\ OptID opt = optionID) :
  exists i opt h' c oc,
    findOption optionID opts = Some (i, opt) /\
    Vote now h s pollID optionID = Some (h', inl c) /\
    (Votes opt < maxInt -> Votes (incrVotes opt) = Votes opt + 1) /\
    (Votes opt = maxInt -> Votes (incrVotes opt) = minInt) /\
    OptID (incrVotes opt) = OptID opt /\ Text (incrVotes opt) = Text opt /\
    pollObjs h' !! poll = Some o /\
    loadSlice h' (Options o) = Some (<[i := incrVotes opt]> opts) /\
    (forall j, j <> i -> <[i := incrVotes opt]> opts !! j = opts !! j) /\
    c = length (pollObjs h) /\
    pollObjs h' !! c = Some oc /\
    ptr (Options oc) = length (optCells h) /\
    readPoll h' c = readPoll h' poll /\
    readPoll h' poll =
      Some (mkView (ID o) (Question o) (<[i := incrVotes opt]> opts)
              (CreatedAt o) (ExpiresAt o)) /\
    wf h' s.
Proof.
  destruct Hwf as [[Hs Hint] Hst].
  destruct (findOption_is_Some optionID opts Hopt) as (i & opt & Hfind).
  destruct (Vote_found now h s pollID optionID poll o opts i opt) as [Hl1 HV];
    try done.
  set (h1 := mkHeap (pollObjs h)
               (<[(ptr (Options o) + i)%nat := incrVotes opt]> (optCells h))) in *.
  pose proof (proj1 (findOption_Some _ _ _ _) Hfind) as (Hi & Hid & _).
  pose proof (loadSlice_Some _ _ _ Hopts) as (Hv & Hlen & Hcells).
  assert (isInt (Votes opt)) as Hopt_int.
  { apply (Hint (ptr (Options o) + i)%nat). rewrite <- Hcells; [done |].
    apply lookup_lt_Some in Hi. lia. }
  assert (slicesValid h1) as Hs1 by by apply slicesValid_insert_cell.
  assert (countersInt h1) as Hint1.
  { apply countersInt_insert_cell; [done |]. apply wrapInt_isInt. }
  assert (copyPoll h1 poll =
            Some (mkHeap
                    (pollObjs h ++
                       [mkPoll (ID o) (Question o)
                          (mkSlice (length (optCells h)) (len (Options o)))
                          (CreatedAt o) (ExpiresAt o)])
                    (optCells h1 ++ <[i := incrVotes opt]> opts),
                  length (pollObjs h))) as Hcopy.
  { unfold copyPoll. simpl. rewrite Ho. simpl. rewrite Hl1. simpl.
    by rewrite length_insert. }
  eexists i, opt, _, _, _. split_and!; try done.
  - by apply incrVotes_below.
  - intros Hmax. simpl. rewrite Hmax. reflexivity.
  - simpl. by apply lookup_app_l_Some.
  - rewrite (loadSlice_ext h1); [done | exact (Hs1 poll o Ho) | | ].
    + simpl. rewrite length_app. lia.
    + intros a [_ Ha]. simpl. apply lookup_app_l.
      specialize (Hs1 poll o Ho). unfold validSlice in Hs1. simpl in *. lia.
  - intros j Hj. by apply list_lookup_insert_ne.
  - simpl. rewrite lookup_app_r by lia. by rewrite Nat.sub_diag.
  - reflexivity.
  - rewrite (copyPoll_readPoll h1 poll); [| done | done].
    symmetry. apply extends_readPoll; [done | by eapply copyPoll_extends |].
    by eapply lookup_lt_Some.
  - rewrite (extends_readPoll h1); [| done | by eapply copyPoll_extends |
                                      by eapply lookup_lt_Some].
    unfold readPoll. simpl. rewrite Ho. simpl. by rewrite Hl1.
  - split; [by eapply copyPoll_wfHeap |].
    eapply wfStore_extends; [by eapply copyPoll_extends |].
    intros id p Hp. destruct (Hst id p Hp). by split.
Qed.

Ltac int_counters :=
  repeat (constructor; [vm_compute; split; discriminate |]); constructor.

Lemma wf_one_poll (p : Poll) (opts : list Option) (id : string) :
  (ptr (Options p) + len (Options p) <= length opts)%nat ->
  Forall (fun opt => isInt (Votes opt)) opts ->
  id <> EmptyString ->
  wf (mkHeap [p] opts) (mkStore {[id := 0%nat]}).
Proof.
  intros Hv Hint Hid. split; [split |].
  - intros [|q] o Hq; simplify_eq/=. done.
  - intros a c Ha. simpl in Ha. rewrite Forall_lookup in Hint. by eapply Hint.
  - intros id' q. simpl. intros [<- <-]%lookup_singleton_Some. simpl. split; [lia | done].
Qed.

Lemma exWf : wf exHeap exStore.
Proof.
  apply wf_one_poll; [simpl; lia | | done].
  int_counters.
Qed.

(** [Vote_increments] on the example: option [b] goes from 5 to 6. *)
Lemma Vote_increments_witness :
  exists h',
    Vote 50 exHeap exStore "p1" "b" = Some (h', inl 1%nat) /\
    readPoll h' 1%nat =
      Some (mkView "p1" "Tabs or spaces?"
              [mkOption "a" "Tabs" 3; mkOption "b" "Spaces" 6] 100 0).
Proof.
  destruct (Vote_increments 50 exHeap exStore "p1" "b" 0%nat exPoll exOpts)
    as (i & opt & h' & c & oc & Hfind & HV & _ & _ & _ & _ & _ & _ & _ & Hc & _ & _
        & Hread & Hview & _).
  - exact exWf.
  - reflexivity.
  - reflexivity.
  - reflexivity.
  - reflexivity.
  - exists (mkOption "b" "Spaces" 5). split; [| reflexivity].
    apply list_elem_of_In. simpl. tauto.
  - injection Hfind as <- <-. simpl in Hc. subst c.
    exists h'. split; [exact HV |].
    rewrite Hread, Hview. reflexivity.
Defined.

(** C2 fails as stated at the largest [int]: the vote turns the counter
    into the smallest [int] instead of adding 1. *)
Lemma Vote_increments_counterexample :
  let opts := [mkOption "a" "Tabs" maxInt] in
  let h := mkHeap [mkPoll "p1" "Tabs?" (mkSlice 0 1) 100 0] opts in
  let s := mkStore {["p1"%string := 0%nat]} in
  wf h s /\
  IsExpired 50 (mkPoll "p1" "Tabs?" (mkSlice 0 1) 100 0) = false /\
  exists h',
    Vote 50 h s "p1" "a" = Some (h', inl 1%nat) /\
    loadSlice h' (mkSlice 0 1) = Some [mkOption "a" "Tabs" minInt] /\
    minInt <> maxInt + 1.
Proof.
  split_and!.
  - apply wf_one_poll; [simpl; lia | | done].
    int_counters.
  - reflexivity.
  - eexists. split_and!; [vm_compute; reflexivity | reflexivity | discriminate].
Qed.

(** C3: [Vote] answers "poll not found" for an unknown poll, "poll has
    expired" for a poll whose expiry is set and past, whatever the option
    named, and "option not found" for a live poll without the option; and
    whenever it answers an error, the heap (every counter of every poll)
    is exactly as before. The store's map is never touched by [Vote]. *)
Theorem Vote_errors now h s pollID optionID (Hwf : wf h s) :
  (polls s !! pollID = None ->
     Vote now h s pollID optionID = Some (h, inr PollNotFound)) /\
  (forall poll o,
     polls s !! pollID = Some poll -> pollObjs h !! poll = Some o ->
     IsZero (ExpiresAt o) = false -> After now (ExpiresAt o) = true ->
     Vote now h s pollID optionID = Some (h, inr PollExpired)) /\
  (forall poll o opts,
     polls s !! pollID = Some poll -> pollObjs h !! poll = Some o ->
     IsExpired now o = false ->
     loadSlice h (Options o) = Some opts ->
     (forall opt, opt ∈ opts -> OptID opt <> optionID) ->
     Vote now h s pollID optionID = Some (h, inr OptionNotFound)) /\
  (forall h' e, Vote now h s pollID optionID = Some (h', inr e) ->
     h' = h /\ (e = PollNotFound \/ e = PollExpired \/ e = OptionNotFound)) /\
  (exists h' r, Vote now h s pollID optionID = Some (h', r)).
Proof.
  destruct Hwf as [[Hs Hint] Hst]. split_and!.
  - intros Hnone. unfold Vote. by rewrite Hnone.
  - intros poll o Hpoll Ho Hz Ha. unfold Vote. rewrite Hpoll, Ho. simpl.
    unfold IsExpired. by rewrite Hz, Ha.
  - intros poll o opts Hpoll Ho Hexp Hl Hnone. unfold Vote.
    rewrite Hpoll, Ho. simpl. rewrite Hexp, Hl. simpl.
    by rewrite (proj2 (findOption_None optionID opts)).
  - intros h' e. unfold Vote.
    destruct (polls s !! pollID) as [poll|]; [| intros [= <- <-]; auto].
    destruct (pollObjs h !! poll) as [o|]; simpl; [| done].
    destruct (IsExpired now o); [intros [= <- <-]; auto |].
    destruct (loadSlice h (Options o)) as [opts|]; simpl; [| done].
    destruct (findOption optionID opts) as [[i opt]|]; [| intros [= <- <-]; auto].
    destruct (copyPoll _ poll) as [[h2 c]|]; simpl; done.
  - destruct (polls s !! pollID) as [poll|] eqn:Hpoll;
      [| eexists _, _; unfold Vote; by rewrite Hpoll].
    destruct (Hst pollID poll Hpoll) as [[o Ho]%lookup_lt_is_Some_2 _].
    destruct (IsExpired now o) eqn:Hexp.
    { eexists _, _. unfold Vote. rewrite Hpoll, Ho. simpl. by rewrite Hexp. }
    pose proof (loadSlice_valid h (Options o) (Hs poll o Ho)) as Hl.
    destruct (findOption optionID (take (len (Options o))
                (drop (ptr (Options o)) (optCells h)))) as [[i opt]|] eqn:Hfind.
    + edestruct Vote_found as [_ HV]; [exact Hs | exact Hpoll | exact Ho | exact Hexp
                                      | exact Hl | exact Hfind |].
      eauto.
    + eexists _, _. unfold Vote. rewrite Hpoll, Ho. simpl. rewrite Hexp, Hl. simpl.
      by rewrite Hfind.
Qed.

(** [Vote_errors] on the example store, and on the same poll once its
    expiry instant 40 has passed. *)
Lemma Vote_errors_witness :
  Vote 50 exHeap exStore "nope" "a" = Some (exHeap, inr PollNotFound) /\
  Vote 50 exHeap exStore "p1" "zz" = Some (exHeap, inr OptionNotFound) /\
  (let h := mkHeap [mkPoll "p1" "Tabs or spaces?" (mkSlice 0 2) 10 40] exOpts in
   Vote 50 h exStore "p1" "zz" = Some (h, inr PollExpired)).
Proof.
  split_and!.
  - apply (Vote_errors 50 exHeap exStore "nope" "a" exWf). reflexivity.
  - apply (proj1 (proj2 (proj2 (Vote_errors 50 exHeap exStore "p1" "zz" exWf)))
             0%nat exPoll exOpts); try reflexivity.
    intros opt Hin Hid. apply list_elem_of_In in Hin. simpl in Hin.
    destruct Hin as [<- | [<- | []]]; discriminate.
  - intros h.
    assert (wf h exStore) as Hwf.
    { apply wf_one_poll; [simpl; lia | | done].
      int_counters. }
    apply (proj1 (proj2 (Vote_errors 50 h exStore "p1" "zz" Hwf))
             0%nat (mkPoll "p1" "Tabs or spaces?" (mkSlice 0 2) 10 40));
      reflexivity.
Defined.

(** ** Create, Get, Delete *)

Lemma wf_Forall h s :
  Forall (fun o => ptr (Options o) + len (Options o) <= length (optCells h))%nat
         (pollObjs h) ->
  Forall (fun c => minInt <= Votes c /\ Votes c <= maxInt) (optCells h) ->
  map_Forall (fun id p => (p < length (pollObjs h))%nat /\ id <> EmptyString)
             (polls s) ->
  wf h s.
Proof.
  rewrite !Forall_lookup. intros Hs Hi Hst. split; [split |].
  - intros p o Ho. by apply (Hs p).
  - intros a c Ha. by apply (Hi a).
  - intros id p Hp. by apply (Hst id).
Qed.

Ltac solve_wf :=
  apply wf_Forall; apply (bool_decide_unpack _); vm_compute; exact I.

Lemma generateID_nonempty rnd : generateID rnd <> EmptyString.
Proof. by destruct rnd as [[[b0 b1] b2] b3]. Qed.

Lemma createdID_nonempty rnd o : createdID rnd o <> EmptyString.
Proof.
  unfold createdID. destruct (String.eqb_spec (ID o) ""); [| done].
  apply generateID_nonempty.
Qed.

Lemma Create_Some rnd now h s poll o :
  pollObjs h !! poll = Some o ->
  Create rnd now h s poll =
    Some (mkHeap (<[poll := mkPoll (createdID rnd o) (Question o) (Options o) now
                              (ExpiresAt o)]> (pollObjs h)) (optCells h),
          mkStore (<[createdID rnd o := poll]> (polls s))).
Proof. intros Ho. unfold Create. by rewrite Ho. Qed.

Lemma Create_wf rnd now h s poll h' s' :
  wf h s -> Create rnd now h s poll = Some (h', s') -> wf h' s'.
Proof.
  intros [[Hs Hi] Hst] HC.
  destruct (pollObjs h !! poll) as [o|] eqn:Ho;
    [| unfold Create in HC; by rewrite Ho in HC].
  rewrite (Create_Some _ _ _ _ _ o Ho) in HC. injection HC as <- <-.
  split; [split |].
  - intros p q. simpl. unfold validSlice. simpl.
    intros [(_ & <- & _) | [_ Hq]]%list_lookup_insert_Some; [| by apply (Hs p)].
    by apply (Hs poll o).
  - done.
  - intros id p. simpl. rewrite length_insert.
    intros [[<- <-] | [_ Hp]]%lookup_insert_Some; [| by apply Hst].
    split; [by eapply lookup_lt_Some | apply createdID_nonempty].
Qed.

Lemma Get_stored h s id poll :
  wf h s -> polls s !! id = Some poll ->
  exists h' c, Get h s id = Some (h', Some c) /\
    c = length (pollObjs h) /\ copyPoll h poll = Some (h', c) /\
    readPoll h' c = readPoll h poll.
Proof.
  intros [[Hs Hi] Hst] Hp.
  destruct (Hst id poll Hp) as [[o Ho]%lookup_lt_is_Some_2 _].
  destruct (copyPoll_Some h poll o Hs Ho) as (opts & Hl & Hc).
  eexists _, _. unfold Get. rewrite Hp, Hc. simpl.
  split_and!; [done | done | done |].
  by apply (copyPoll_readPoll h poll).
Qed.

(** ** Sequences of operations *)

Lemma grows_refl h : grows h h.
Proof.
  split_and!; [done | done | eauto |].
  intros q o' Hq Ho. apply lookup_lt_Some in Ho. lia.
Qed.

Lemma grows_trans h1 h2 h3 : grows h1 h2 -> grows h2 h3 -> grows h1 h3.
Proof.
  intros (Hp1 & Hc1 & Hold1 & Hnew1) (Hp2 & Hc2 & Hold2 & Hnew2).
  split_and!; [lia | lia | |].
  - intros q o Ho. destruct (Hold1 q o Ho) as (o' & Ho' & <-).
    destruct (Hold2 q o' Ho') as (o'' & Ho'' & <-). eauto.
  - intros q o3 Hq Ho3.
    destruct (decide (q < length (pollObjs h2))%nat) as [Hlt | Hge].
    + destruct (lookup_lt_is_Some_2 _ _ Hlt) as [o2 Ho2].
      destruct (Hold2 q o2 Ho2) as (o3' & Ho3' & Heq).
      assert (o3' = o3) as -> by congruence. rewrite Heq.
      by apply (Hnew1 q).
    + specialize (Hnew2 q o3 ltac:(lia) Ho3). lia.
Qed.

Lemma extends_fresh_grows h h' :
  extends h h' ->
  (forall q o', (length (pollObjs h) <= q)%nat -> pollObjs h' !! q = Some o' ->
     (length (optCells h) <= ptr (Options o'))%nat) ->
  grows h h'.
Proof.
  intros Hext Hnew. destruct (extends_length _ _ Hext).
  split_and!; [done | done | | done].
  intros q o Ho. exists o. split; [by eapply extends_obj | done].
Qed.

Lemma copyPoll_grows h p h' c : copyPoll h p = Some (h', c) -> grows h h'.
Proof.
  intros Hc. apply extends_fresh_grows; [by eapply copyPoll_extends |].
  apply copyPoll_inv in Hc as (o & opts & _ & _ & _ & ->). simpl.
  intros q o' Hq [Hlt | [_ Ho']]%lookup_app_Some;
    [apply lookup_lt_Some in Hlt; lia |].
  destruct (q - length (pollObjs h))%nat; simplify_eq/=. done.
Qed.

Lemma insert_cell_grows h a x :
  grows h (mkHeap (pollObjs h) (<[a := x]> (optCells h))).
Proof.
  split_and!; simpl; [done | by rewrite length_insert | eauto |].
  intros q o' Hq Ho. apply lookup_lt_Some in Ho. lia.
Qed.

Lemma insert_obj_grows h p o o' :
  pollObjs h !! p = Some o -> Options o' = Options o ->
  grows h (mkHeap (<[p := o']> (pollObjs h)) (optCells h)).
Proof.
  intros Ho Hopt. split_and!; simpl; [by rewrite length_insert | done | |].
  - intros q oq Hq. destruct (decide (q = p)) as [-> | Hne].
    + exists o'. rewrite list_lookup_insert_eq by (by eapply lookup_lt_Some).
      split; [done | congruence].
    + exists oq. by rewrite list_lookup_insert_ne.
  - intros q oq Hq Hoq. apply lookup_lt_Some in Hoq.
    rewrite length_insert in Hoq. lia.
Qed.

Lemma copyAll_grows h ps h' cs : copyAll h ps = Some (h', cs) -> grows h h'.
Proof.
  revert h h' cs. induction ps as [|p ps IH]; intros h h' cs; simpl.
  - intros [= <- <-]. apply grows_refl.
  - destruct (copyPoll h p) as [[h1 c]|] eqn:Hc; simpl; [| done].
    destruct (copyAll h1 ps) as [[h2 cs']|] eqn:Hall; simpl; [| done].
    intros [= <- <-]. eapply grows_trans; [by eapply copyPoll_grows | by eapply IH].
Qed.

Lemma Vote_grows now h s pollID optionID h' r :
  Vote now h s pollID optionID = Some (h', r) -> grows h h'.
Proof.
  unfold Vote.
  destruct (polls s !! pollID) as [poll|]; [| intros [= <- <-]; apply grows_refl].
  destruct (pollObjs h !! poll) as [o|]; simpl; [| done].
  destruct (IsExpired now o); [intros [= <- <-]; apply grows_refl |].
  destruct (loadSlice h (Options o)) as [opts|]; simpl; [| done].
  destruct (findOption optionID opts) as [[i opt]|];
    [| intros [= <- <-]; apply grows_refl].
  destruct (copyPoll _ poll) as [[h2 c]|] eqn:Hc; simpl; [| done].
  intros [= <- <-]. eapply grows_trans; [apply insert_cell_grows |].
  by eapply copyPoll_grows.
Qed.

Lemma step_grows sortSlice op h s h' s' :
  step sortSlice op (h, s) = Some (h', s') -> grows h h'.
Proof.
  destruct op as [id q opts e | rnd now poll | id | now pid oid | ord | id]; simpl.
  - intros [= <- <-]. apply extends_fresh_grows; [split; simpl; eauto |].
    simpl. intros p o' Hp [Hlt | [_ Ho']]%lookup_app_Some;
      [apply lookup_lt_Some in Hlt; lia |].
    destruct (p - length (pollObjs h))%nat; simplify_eq/=. done.
  - unfold Create. destruct (pollObjs h !! poll) as [o|] eqn:Ho; simpl; [| done].
    intros [= <- <-]. by eapply insert_obj_grows.
  - unfold Get. destruct (polls s !! id) as [poll|]; simpl;
      [| intros [= <- <-]; apply grows_refl].
    destruct (copyPoll h poll) as [[h1 c]|] eqn:Hc; simpl; [| done].
    intros [= <- <-]. by eapply copyPoll_grows.
  - destruct (Vote now h s pid oid) as [[h1 r]|] eqn:HV; simpl; [| done].
    intros [= <- <-]. by eapply Vote_grows.
  - unfold List. destruct (copyAll h ord.*2) as [[h1 cs]|] eqn:Hall; simpl; [| done].
    intros [= <- <-]. by eapply copyAll_grows.
  - intros [= <- <-]. apply grows_refl.
Qed.

Lemma run_cons_inv sortSlice op ops st st' :
  run sortSlice (op :: ops) st = Some st' ->
  exists st1, step sortSlice op st = Some st1 /\ run sortSlice ops st1 = Some st'.
Proof.
  change (run sortSlice (op :: ops) st)
    with (step sortSlice op st ≫= run sortSlice ops).
  destruct (step sortSlice op st) as [st1|]; simpl; [eauto | done].
Qed.

Lemma run_grows sortSlice ops h s h' s' :
  run sortSlice ops (h, s) = Some (h', s') -> grows h h'.
Proof.
  revert h s. induction ops as [|op ops IH]; intros h s.
  - intros [= <- <-]. apply grows_refl.
  - intros ([h1 s1] & Hstep & Hrun)%run_cons_inv.
    eapply grows_trans; [by eapply step_grows | by eapply IH].
Qed.

Lemma copyAll_slicesValid h ps h' cs :
  slicesValid h -> copyAll h ps = Some (h', cs) -> slicesValid h'.
Proof.
  revert h h' cs. induction ps as [|p ps IH]; intros h h' cs Hs; simpl.
  - by intros [= <- <-].
  - destruct (copyPoll h p) as [[h1 c]|] eqn:Hc; simpl; [| done].
    destruct (copyAll h1 ps) as [[h2 cs']|] eqn:Hall; simpl; [| done].
    intros [= <- <-]. eapply IH; [| done]. by eapply copyPoll_slicesValid.
Qed.

Lemma Vote_slicesValid now h s pollID optionID h' r :
  slicesValid h -> Vote now h s pollID optionID = Some (h', r) -> slicesValid h'.
Proof.
  intros Hs. unfold Vote.
  destruct (polls s !! pollID) as [poll|]; [| by intros [= <- <-]].
  destruct (pollObjs h !! poll) as [o|]; simpl; [| done].
  destruct (IsExpired now o); [by intros [= <- <-] |].
  destruct (loadSlice h (Options o)) as [opts|]; simpl; [| done].
  destruct (findOption optionID opts) as [[i opt]|]; [| by intros [= <- <-]].
  destruct (copyPoll _ poll) as [[h2 c]|] eqn:Hc; simpl; [| done].
  intros [= <- <-]. eapply copyPoll_slicesValid; [| done].
  by apply slicesValid_insert_cell.
Qed.

Lemma step_slicesValid sortSlice op h s h' s' :
  slicesValid h -> step sortSlice op (h, s) = Some (h', s') -> slicesValid h'.
Proof.
  intros Hs.
  destruct op as [id q opts e | rnd now poll | id | now pid oid | ord | id]; simpl.
  - intros [= <- <-] p o. unfold validSlice. simpl. rewrite length_app.
    intros [Hp | [_ Hp]]%lookup_app_Some.
    + specialize (Hs p o Hp). unfold validSlice in Hs. lia.
    + destruct (p - length (pollObjs h))%nat; simplify_eq/=. lia.
  - unfold Create. destruct (pollObjs h !! poll) as [o|] eqn:Ho; simpl; [| done].
    intros [= <- <-] p q. unfold validSlice. simpl.
    intros [(_ & <- & _) | [_ Hq]]%list_lookup_insert_Some; [| by apply (Hs p)].
    by apply (Hs poll o).
  - unfold Get. destruct (polls s !! id) as [poll|]; simpl; [| by intros [= <- <-]].
    destruct (copyPoll h poll) as [[h1 c]|] eqn:Hc; simpl; [| done].
    intros [= <- <-]. by eapply copyPoll_slicesValid.
  - destruct (Vote now h s pid oid) as [[h1 r]|] eqn:HV; simpl; [| done].
    intros [= <- <-]. by eapply Vote_slicesValid.
  - unfold List. destruct (copyAll h ord.*2) as [[h1 cs]|] eqn:Hall; simpl; [| done].
    intros [= <- <-]. by eapply copyAll_slicesValid.
  - by intros [= <- <-].
Qed.

Lemma run_slicesValid sortSlice ops h s h' s' :
  slicesValid h -> run sortSlice ops (h, s) = Some (h', s') -> slicesValid h'.
Proof.
  revert h s. induction ops as [|op ops IH]; intros h s Hs.
  - by intros [= <- <-].
  - intros ([h1 s1] & Hstep & Hrun)%run_cons_inv.
    eapply IH; [| done]. by eapply step_slicesValid.
Qed.

(** ** Isolation of snapshots *)

Lemma grows_separated h h' c :
  slicesValid h -> grows h h' -> (c < length (pollObjs h))%nat ->
  separated h c -> separated h' c.
Proof.
  intros Hs (Hp & Hc & Hold & Hnew) Hlt Hsep oc' q oq' Hoc' Hoq' Hne.
  destruct (lookup_lt_is_Some_2 _ _ Hlt) as [oc Hoc].
  destruct (Hold c oc Hoc) as (oc2 & Hoc2 & Heqc).
  assert (oc2 = oc') as -> by congruence. rewrite Heqc.
  destruct (decide (q < length (pollObjs h))%nat) as [Hq | Hq].
  - destruct (lookup_lt_is_Some_2 _ _ Hq) as [oq Hoq].
    destruct (Hold q oq Hoq) as (oq2 & Hoq2 & Heqq).
    assert (oq2 = oq') as -> by congruence. rewrite Heqq.
    by apply (Hsep oc q oq).
  - specialize (Hnew q oq' ltac:(lia) Hoq').
    specialize (Hs c oc Hoc). unfold validSlice in Hs.
    intros a [[_ Ha1] [Ha2 _]]. lia.
Qed.

Lemma copyPoll_separated h p h' c :
  slicesValid h -> copyPoll h p = Some (h', c) ->
  separated h' c /\ c = length (pollObjs h) /\ (c < length (pollObjs h'))%nat.
Proof.
  intros Hs (o & opts & Ho & Hl & -> & ->)%copyPoll_inv.
  split_and!; [| done | simpl; rewrite length_app; simpl; lia].
  intros oc q oq. simpl. rewrite lookup_app_r by lia. rewrite Nat.sub_diag. simpl.
  intros [= <-] Hq Hne. simpl.
  apply lookup_app_Some in Hq as [Hq | [Hge Hq]].
  - specialize (Hs q oq Hq). unfold validSlice in Hs.
    intros a [[Ha1 _] [_ Ha2]]. simpl in *. lia.
  - destruct (q - length (pollObjs h))%nat eqn:Hd; simplify_eq/=. lia.
Qed.

Lemma copyAll_separated h ps h' cs :
  slicesValid h -> copyAll h ps = Some (h', cs) ->
  forall c, c ∈ cs ->
    separated h' c /\ (length (pollObjs h) <= c < length (pollObjs h'))%nat.
Proof.
  revert h h' cs. induction ps as [|p ps IH]; intros h h' cs Hs; simpl.
  - intros [= <- <-] c Hin. by apply elem_of_nil in Hin.
  - destruct (copyPoll h p) as [[h1 c0]|] eqn:Hc; simpl; [| done].
    destruct (copyAll h1 ps) as [[h2 cs']|] eqn:Hall; simpl; [| done].
    intros [= <- <-] c.
    pose proof (copyPoll_slicesValid _ _ _ _ Hs Hc) as Hs1.
    destruct (copyPoll_separated _ _ _ _ Hs Hc) as (Hsep0 & Hc0 & Hlt0).
    pose proof (copyAll_grows _ _ _ _ Hall) as Hg.
    intros [-> | Hin]%elem_of_cons.
    + split; [by eapply grows_separated |].
      destruct Hg as (Hlen & _). lia.
    + destruct (IH _ _ _ Hs1 Hall c Hin) as [Hsep Hrange].
      split; [done | lia].
Qed.

Lemma mutate_frame h c m h' oc :
  pollObjs h !! c = Some oc -> mutate h c m = Some h' ->
  (exists oc', pollObjs h' !! c = Some oc' /\
     forall a, inSlice (Options oc') a -> inSlice (Options oc) a) /\
  length (optCells h') = length (optCells h) /\
  (forall q, q <> c -> pollObjs h' !! q = pollObjs h !! q) /\
  (forall a, ~ inSlice (Options oc) a -> optCells h' !! a = optCells h !! a).
Proof.
  intros Hoc. unfold mutate. rewrite Hoc. simpl.
  assert (c < length (pollObjs h))%nat as Hlt by by eapply lookup_lt_Some.
  destruct m as [v | v | v | v | i v | lo hi].
  1-4: intros [= <-]; simpl; split_and!;
    [eexists; split; [by apply list_lookup_insert_eq | done]
    | done
    | intros q Hq; by apply list_lookup_insert_ne
    | done].
  - case_decide as Hi; [| done]. intros [= <-]. simpl. split_and!.
    + eauto.
    + by rewrite length_insert.
    + done.
    + intros a Ha. apply list_lookup_insert_ne. intros <-. apply Ha.
      unfold inSlice. lia.
  - case_decide as Hb; [| done]. intros [= <-]. simpl. split_and!.
    + eexists. split; [by apply list_lookup_insert_eq |].
      unfold inSlice. simpl. lia.
    + done.
    + intros q Hq. by apply list_lookup_insert_ne.
    + done.
Qed.

Lemma mutateAll_frame h c ms h' oc :
  pollObjs h !! c = Some oc -> mutateAll h c ms = Some h' ->
  (exists oc', pollObjs h' !! c = Some oc' /\
     forall a, inSlice (Options oc') a -> inSlice (Options oc) a) /\
  length (optCells h') = length (optCells h) /\
  (forall q, q <> c -> pollObjs h' !! q = pollObjs h !! q) /\
  (forall a, ~ inSlice (Options oc) a -> optCells h' !! a = optCells h !! a).
Proof.
  revert h oc. induction ms as [|m ms IH]; intros h oc Hoc; simpl.
  - intros [= <-]. split_and!; eauto.
  - destruct (mutate h c m) as [h1|] eqn:Hm; simpl; [| done]. intros Hall.
    destruct (mutate_frame _ _ _ _ _ Hoc Hm) as ((oc1 & Hoc1 & Hsub1) & Hlen1 & Hobj1 & Hcell1).
    destruct (IH _ _ Hoc1 Hall) as ((oc2 & Hoc2 & Hsub2) & Hlen2 & Hobj2 & Hcell2).
    split_and!.
    + exists oc2. split; [done | auto].
    + congruence.
    + intros q Hq. by rewrite Hobj2, Hobj1.
    + intros a Ha. rewrite Hcell2, Hcell1; [done | done | auto].
Qed.

(** Writing through a pointer whose options no other object overlaps
    changes what no other pointer reads. *)
Lemma mutateAll_isolated h c ms h' q :
  slicesValid h -> separated h c -> (c < length (pollObjs h))%nat ->
  mutateAll h c ms = Some h' -> q <> c ->
  readPoll h' q = readPoll h q.
Proof.
  intros Hs Hsep Hlt Hall Hne.
  destruct (lookup_lt_is_Some_2 _ _ Hlt) as [oc Hoc].
  destruct (mutateAll_frame _ _ _ _ _ Hoc Hall) as (_ & Hlen & Hobj & Hcell).
  apply readPoll_ext; [done | by apply Hobj | lia |].
  intros oq a Hoq Ha. apply Hcell. intros Hca.
  by apply (Hsep oc q oq Hoc Hoq Hne a).
Qed.

(** A stored pointer was stored before or was handed to [Create]. *)
Lemma step_stored sortSlice op h s h' s' id p :
  step sortSlice op (h, s) = Some (h', s') -> polls s' !! id = Some p ->
  (exists id0, polls s !! id0 = Some p) \/ p ∈ createdBy [op].
Proof.
  destruct op as [id1 q opts e | rnd now poll | id1 | now pid oid | ord | id1]; simpl.
  - intros [= <- <-]. eauto.
  - unfold Create. destruct (pollObjs h !! poll) as [o|] eqn:Ho; simpl; [| done].
    intros [= <- <-]. simpl.
    intros [[<- <-] | [_ Hp]]%lookup_insert_Some; [right; left | eauto].
  - destruct (Get h s id1) as [[h1 r]|]; simpl; [| done]. intros [= <- <-]. eauto.
  - destruct (Vote now h s pid oid) as [[h1 r]|]; simpl; [| done].
    intros [= <- <-]. eauto.
  - destruct (List sortSlice ord h s) as [[h1 r]|]; simpl; [| done].
    intros [= <- <-]. eauto.
  - intros [= <- <-]. unfold Delete.
    destruct (polls s !! id1); simpl; [| eauto].
    intros [_ Hp]%lookup_delete_Some. eauto.
Qed.

Lemma run_stored sortSlice ops h s h' s' id p :
  run sortSlice ops (h, s) = Some (h', s') -> polls s' !! id = Some p ->
  (exists id0, polls s !! id0 = Some p) \/ p ∈ createdBy ops.
Proof.
  revert h s. induction ops as [|op ops IH]; intros h s.
  - intros [= <- <-]. eauto.
  - intros ([h1 s1] & Hstep & Hrun)%run_cons_inv Hp.
    destruct (IH _ _ Hrun Hp) as [[id0 Hid0] | Hin].
    + destruct (step_stored _ _ _ _ _ _ _ _ Hstep Hid0) as [? | Hin]; [by left |].
      right. unfold createdBy in *. simpl in *.
      destruct op; simpl in *; try (by apply elem_of_nil in Hin).
      apply elem_of_cons in Hin as [-> | Hin]; [left | by apply elem_of_nil in Hin].
    + right. unfold createdBy in *. simpl. destruct op; simpl; try done. by right.
Qed.

(** ** Sorting *)

Lemma StronglySorted_lookup {A} (R : A -> A -> Prop) l i j a b :
  StronglySorted R l -> (i < j)%nat -> l !! i = Some a -> l !! j = Some b -> R a b.
Proof.
  intros Hsorted. revert i j. induction Hsorted as [|x l Hsorted IH Hall]; [done |].
  intros [|i] [|j] Hij Hi Hj; simplify_eq/=; try lia.
  - rewrite Forall_lookup in Hall. by eapply Hall.
  - apply (IH i j); [lia | done | done].
Qed.

Lemma insertLeft_Permutation {A} (less : A -> A -> bool) x acc :
  insertLeft less x acc ≡ₚ x :: acc.
Proof.
  induction acc as [|y acc IH]; simpl; [done |].
  destruct (less x y); [| done].
  rewrite IH. apply Permutation_swap.
Qed.

Lemma insertLeft_sorted {A} (less : A -> A -> bool) x acc :
  strictWeak less ->
  StronglySorted (fun a b => less a b = false) acc ->
  StronglySorted (fun a b => less a b = false) (insertLeft less x acc).
Proof.
  intros (Hirr & Htrans & Hneg) Hsorted.
  induction Hsorted as [|y acc Hsorted IH Hall]; simpl.
  - repeat constructor.
  - destruct (less x y) eqn:Hxy.
    + constructor; [done |].
      rewrite insertLeft_Permutation. constructor; [| done].
      destruct (less y x) eqn:Hyx; [| done].
      pose proof (Htrans x y x Hxy Hyx) as Hxx. by rewrite Hirr in Hxx.
    + constructor; [by constructor |].
      constructor; [done |].
      eapply Forall_impl; [exact Hall |]. simpl. intros z Hyz. by eapply Hneg.
Qed.

Lemma insertionSort_Permutation {A} (less : A -> A -> bool) data :
  insertionSort less data ≡ₚ data.
Proof.
  unfold insertionSort. rewrite reverse_Permutation.
  assert (forall acc,
            fold_left (fun acc x => insertLeft less x acc) data acc ≡ₚ data ++ acc)
    as Hfold.
  { induction data as [|x data IH]; intros acc; simpl; [done |].
    rewrite IH, insertLeft_Permutation. by rewrite Permutation_middle. }
  by rewrite Hfold, app_nil_r.
Qed.

Lemma insertionSort_sorted {A} (less : A -> A -> bool) data :
  strictWeak less -> sortedBy less (insertionSort less data).
Proof.
  intros Hless. unfold insertionSort.
  assert (forall acc,
            StronglySorted (fun a b => less a b = false) acc ->
            StronglySorted (fun a b => less a b = false)
              (fold_left (fun acc x => insertLeft less x acc) data acc)) as Hfold.
  { induction data as [|x data IH]; intros acc Hacc; simpl; [done |].
    apply IH. by apply insertLeft_sorted. }
  specialize (Hfold [] ltac:(constructor)).
  set (acc := fold_left _ data []) in *.
  intros i j a b Hij [Ha Hi]%reverse_lookup_Some [Hb Hj]%reverse_lookup_Some.
  apply (StronglySorted_lookup (fun a b => less a b = false) acc
           (length acc - S j) (length acc - S i) b a);
    [done | lia | done | done].
Qed.

Lemma lessCreated_strictWeak h : strictWeak (lessCreated h).
Proof.
  unfold lessCreated, After. split_and!.
  - intros a. apply Z.ltb_irrefl.
  - intros a b c Hab Hbc. apply Z.ltb_lt in Hab, Hbc. apply Z.ltb_lt. lia.
  - intros a b c Hab Hbc. apply Z.ltb_ge in Hab, Hbc. apply Z.ltb_ge. lia.
Qed.

(** ** List *)

Lemma readPoll_createdAt h p v : readPoll h p = Some v -> vCreatedAt v = createdAt h p.
Proof.
  unfold readPoll, createdAt. destruct (pollObjs h !! p) as [o|]; simpl; [| done].
  destruct (loadSlice h (Options o)); simpl; [| done]. by intros [= <-].
Qed.

Lemma readPoll_is_Some h p :
  slicesValid h -> (p < length (pollObjs h))%nat -> is_Some (readPoll h p).
Proof.
  intros Hs [o Ho]%lookup_lt_is_Some_2. unfold readPoll. rewrite Ho. simpl.
  by rewrite (loadSlice_valid h _ (Hs p o Ho)).
Qed.

Lemma copyAll_extends h ps h' cs : copyAll h ps = Some (h', cs) -> extends h h'.
Proof.
  revert h h' cs. induction ps as [|p ps IH]; intros h h' cs; simpl.
  - intros [= <- <-]. apply extends_refl.
  - destruct (copyPoll h p) as [[h1 c]|] eqn:Hc; simpl; [| done].
    destruct (copyAll h1 ps) as [[h2 cs']|] eqn:Hall; simpl; [| done].
    intros [= <- <-]. eapply extends_trans; [by eapply copyPoll_extends | by eapply IH].
Qed.

(** The loop of [List] returns, with one new snapshot per pointer. *)
Lemma copyAll_spec h ps :
  slicesValid h -> Forall (fun p => p < length (pollObjs h))%nat ps ->
  exists h1,
    copyAll h ps = Some (h1, seq (length (pollObjs h)) (length ps)) /\
    Forall2 (fun c p => readPoll h1 c = readPoll h p)
            (seq (length (pollObjs h)) (length ps)) ps.
Proof.
  revert h. induction ps as [|p ps IH]; intros h Hs Hps; simpl.
  - exists h. split; [done | constructor].
  - inversion_clear Hps as [|? ? Hp Hrest].
    destruct (lookup_lt_is_Some_2 _ _ Hp) as [o Ho].
    destruct (copyPoll_Some h p o Hs Ho) as (opts & Hl & Hc).
    remember (mkHeap _ _) as h' eqn:Hh' in Hc.
    pose proof (copyPoll_slicesValid _ _ _ _ Hs Hc) as Hs'.
    pose proof (copyPoll_extends _ _ _ _ Hc) as Hext.
    assert (length (pollObjs h') = S (length (pollObjs h))) as Hlen'.
    { rewrite Hh'. simpl. rewrite length_app. simpl. lia. }
    clear Hh'.
    destruct (IH h' Hs') as (h1 & Hall & Hread).
    { eapply Forall_impl; [exact Hrest |]. simpl. intros q Hq. lia. }
    rewrite Hlen' in Hall, Hread.
    exists h1. rewrite Hc. simpl. rewrite Hall. simpl. split; [done |].
    pose proof (copyAll_extends _ _ _ _ Hall) as Hext1.
    constructor.
    + rewrite (extends_readPoll h' h1) by (done || lia).
      by apply (copyPoll_readPoll h p).
    + apply Forall2_same_length_lookup. split; [by eapply Forall2_length |].
      intros i c q Hc' Hq.
      rewrite (Forall2_lookup_lr _ _ _ i c q Hread Hc' Hq).
      apply extends_readPoll; [done | done |].
      rewrite Forall_lookup in Hrest. by apply (Hrest i).
Qed.

Section Repository.

(** [sort.Slice], known by its contract: it permutes the slice, and
    leaves it ordered when [less] is a strict weak ordering. *)
Variable sortSlice : (nat -> nat -> bool) -> list nat -> list nat.
Hypothesis sortSlice_Permutation : forall less l, sortSlice less l ≡ₚ l.
Hypothesis sortSlice_sorted :
  forall less l, strictWeak less -> sortedBy less (sortSlice less l).

Lemma snapshot_separated h s h1 c :
  wf h s ->
  (exists id, Get h s id = Some (h1, Some c)) \/
  (exists now pollID optionID, Vote now h s pollID optionID = Some (h1, inl c)) \/
  (exists ord cs, List sortSlice ord h s = Some (h1, cs) /\ c ∈ cs) ->
  slicesValid h1 /\ separated h1 c /\
  (length (pollObjs h) <= c < length (pollObjs h1))%nat.
Proof.
  intros [[Hs Hi] Hst] [(id & HG) | [(now & pid & oid & HV) | (ord & cs & HL & Hin)]].
  - unfold Get in HG. destruct (polls s !! id) as [poll|]; [| done].
    destruct (copyPoll h poll) as [[h' c']|] eqn:Hc; simplify_eq/=.
    destruct (copyPoll_separated _ _ _ _ Hs Hc) as (Hsep & -> & Hlt).
    split_and!; [by eapply copyPoll_slicesValid | done | done | done].
  - pose proof (Vote_slicesValid _ _ _ _ _ _ _ Hs HV) as Hs1.
    unfold Vote in HV.
    destruct (polls s !! pid) as [poll|]; [| done].
    destruct (pollObjs h !! poll) as [o|]; simpl in HV; [| done].
    destruct (IsExpired now o); [done |].
    destruct (loadSlice h (Options o)) as [opts|]; simpl in HV; [| done].
    destruct (findOption oid opts) as [[i opt]|]; [| done].
    destruct (copyPoll _ poll) as [[h' c']|] eqn:Hc; simplify_eq/=.
    apply copyPoll_separated in Hc as (Hsep & -> & Hlt);
      [| by apply slicesValid_insert_cell].
    split_and!; [done | done | done | done].
  - unfold List in HL.
    destruct (copyAll h ord.*2) as [[h' cs']|] eqn:Hall; simplify_eq/=.
    rewrite sortSlice_Permutation in Hin.
    destruct (copyAll_separated _ _ _ _ Hs Hall c Hin) as [Hsep Hrange].
    split_and!; [by eapply copyAll_slicesValid | done | lia | lia].
Qed.

(** C6: a snapshot returned by [Get], [Vote] or [List] is a pointer the
    heap did not hold before the call (the one [Get] returns reads as
    the stored record does); and whatever the store is asked to do
    afterwards (short of the caller handing that very pointer to
    [Create]), any sequence of writes to the snapshot's fields and to the
    elements of its [Options], and of re-slicings of it, leaves what
    every other pointer reads, the stored records and all other snapshots
    included, unchanged. *)
Theorem snapshots_isolated h s h1 c
  (Hwf : wf h s)
  (Hsnap :
     (exists id, Get h s id = Some (h1, Some c)) \/
     (exists now pollID optionID, Vote now h s pollID optionID = Some (h1, inl c)) \/
     (exists ord cs, List sortSlice ord h s = Some (h1, cs) /\ c ∈ cs)) :
  (length (pollObjs h) <= c)%nat /\
  (forall ops h2 s2 ms h3,
    c ∉ createdBy ops ->
    run sortSlice ops (h1, s) = Some (h2, s2) ->
    mutateAll h2 c ms = Some h3 ->
    (forall q, q <> c -> readPoll h3 q = readPoll h2 q) /\
    (forall id p, polls s2 !! id = Some p -> readPoll h3 p = readPoll h2 p)) /\
  (forall id, Get h s id = Some (h1, Some c) ->
     exists poll, polls s !! id = Some poll /\ readPoll h1 c = readPoll h poll).
Proof.
  destruct (snapshot_separated h s h1 c Hwf Hsnap) as (Hs1 & Hsep1 & Hlo & Hhi).
  split; [done |]. split.
  2: { intros id HG. unfold Get in HG.
       destruct (polls s !! id) as [poll|]; [| done].
       destruct (copyPoll h poll) as [[h' c']|] eqn:Hc; simplify_eq/=.
       exists poll. split; [done |].
       destruct Hwf as [[Hs _] _]. by apply (copyPoll_readPoll h poll). }
  intros ops h2 s2 ms h3 Hnot Hrun Hmut.
  pose proof (run_grows _ _ _ _ _ _ Hrun) as Hg.
  pose proof (run_slicesValid _ _ _ _ _ _ Hs1 Hrun) as Hs2.
  pose proof (grows_separated _ _ _ Hs1 Hg Hhi Hsep1) as Hsep2.
  assert (c < length (pollObjs h2))%nat as Hlt2 by (destruct Hg as (? & _); lia).
  assert (forall q, q <> c -> readPoll h3 q = readPoll h2 q) as Hother.
  { intros q Hq. by eapply mutateAll_isolated. }
  split; [done |].
  intros id p Hp. apply Hother. intros ->.
  destruct (run_stored _ _ _ _ _ _ _ _ Hrun Hp) as [[id0 Hid0] | Hin]; [| done].
  destruct Hwf as [_ Hst]. destruct (Hst id0 c Hid0). lia.
Qed.

(** C8, as amended: [List] returns one new snapshot per stored poll,
    each reading as the poll it copies, ordered by creation instant
    from newest to oldest: no snapshot is newer than one placed before
    it, strictly so when the stored polls have pairwise distinct
    creation instants (two polls stamped at the same instant come in
    either order). A poll created strictly later than all others, such
    as the one created at [t3] among [t1 < t2 < t3], comes first. *)
Theorem List_newest_first ord h s
  (Hwf : wf h s)
  (Hord : ord ≡ₚ map_to_list (polls s)) :
  exists h1 cs copies,
    List sortSlice ord h s = Some (h1, cs) /\
    cs ≡ₚ copies /\
    Forall2 (fun c e => readPoll h1 c = readPoll h e.2 /\ is_Some (readPoll h e.2))
            copies ord /\
    NoDup cs /\ length cs = size (polls s) /\
    (forall c, c ∈ cs -> (length (pollObjs h) <= c)%nat) /\
    (forall i j a b, (i < j)%nat -> cs !! i = Some a -> cs !! j = Some b ->
       createdAt h1 b <= createdAt h1 a) /\
    ((forall id1 id2 p1 p2, id1 <> id2 ->
        polls s !! id1 = Some p1 -> polls s !! id2 = Some p2 ->
        createdAt h p1 <> createdAt h p2) ->
     forall i j a b, (i < j)%nat -> cs !! i = Some a -> cs !! j = Some b ->
       createdAt h1 b < createdAt h1 a) /\
    (forall id3 p3, polls s !! id3 = Some p3 ->
       (forall id p, id <> id3 -> polls s !! id = Some p ->
          createdAt h p < createdAt h p3) ->
       exists c, cs !! 0%nat = Some c /\ readPoll h1 c = readPoll h p3).
Proof.
  destruct Hwf as [[Hs Hi] Hst].
  assert (forall e, e ∈ ord -> polls s !! e.1 = Some e.2) as Hin_ord.
  { intros [id q] He. rewrite Hord in He. by apply elem_of_map_to_list in He. }
  assert (Forall (fun q => q < length (pollObjs h))%nat ord.*2) as Hvalid.
  { apply Forall_forall. intros q (e & -> & He)%list_elem_of_fmap.
    by destruct (Hst _ _ (Hin_ord e He)). }
  destruct (copyAll_spec h ord.*2 Hs Hvalid) as (h1 & Hall & Hread).
  rewrite length_fmap in Hall, Hread.
  set (copies := seq (length (pollObjs h)) (length ord)) in *.
  set (cs := sortSlice (lessCreated h1) copies).
  assert (cs ≡ₚ copies) as Hperm by apply sortSlice_Permutation.
  assert (NoDup copies) as Hnd_copies by apply NoDup_seq.
  assert (NoDup cs) as Hnd_cs by by rewrite Hperm.
  assert (forall k c, copies !! k = Some c ->
            exists e, ord !! k = Some e /\ polls s !! e.1 = Some e.2 /\
              readPoll h1 c = readPoll h e.2 /\ is_Some (readPoll h e.2) /\
              createdAt h1 c = createdAt h e.2) as Hentry.
  { intros k c Hk.
    destruct (Forall2_lookup_l _ _ _ _ _ Hread Hk) as (q & Hq & Hcq).
    apply list_lookup_fmap_Some in Hq as (e & -> & He).
    pose proof (Hin_ord e (list_elem_of_lookup_2 _ _ _ He)) as Hstored.
    destruct (Hst _ _ Hstored) as [Hlt _].
    destruct (readPoll_is_Some h e.2 Hs Hlt) as [v Hv].
    exists e. split_and!; [done | done | done | by eexists |].
    rewrite <- (readPoll_createdAt h e.2 v Hv).
    rewrite <- Hcq in Hv. by rewrite (readPoll_createdAt h1 c v Hv). }
  assert (forall i j a b, (i < j)%nat -> cs !! i = Some a -> cs !! j = Some b ->
            createdAt h1 b <= createdAt h1 a) as Hsorted.
  { intros i j a b Hij Ha Hb.
    pose proof (sortSlice_sorted (lessCreated h1) copies (lessCreated_strictWeak h1)
                  i j a b Hij Ha Hb) as Hless.
    unfold lessCreated, After in Hless. by apply Z.ltb_ge in Hless. }
  exists h1, cs, copies. split_and!; try done.
  - unfold List. by rewrite Hall.
  - apply Forall2_same_length_lookup. split.
    + subst copies. by rewrite length_seq.
    + intros k c e Hk He. destruct (Hentry k c Hk) as (e' & He' & _ & Hr & Hsome & _).
      by simplify_eq.
  - rewrite Hperm. subst copies. rewrite length_seq.
    by rewrite Hord, length_map_to_list.
  - intros c Hc. rewrite Hperm in Hc. subst copies.
    apply elem_of_seq in Hc. lia.
  - intros Hdistinct i j a b Hij Ha Hb.
    pose proof (Hsorted i j a b Hij Ha Hb) as Hle.
    assert (createdAt h1 a <> createdAt h1 b); [| lia].
    assert (a ∈ copies) as [ka Hka]%list_elem_of_lookup_1
      by (rewrite <- Hperm; by eapply list_elem_of_lookup_2).
    assert (b ∈ copies) as [kb Hkb]%list_elem_of_lookup_1
      by (rewrite <- Hperm; by eapply list_elem_of_lookup_2).
    destruct (Hentry ka a Hka) as (ea & Hea & Hsa & _ & _ & ->).
    destruct (Hentry kb b Hkb) as (eb & Heb & Hsb & _ & _ & ->).
    apply (Hdistinct ea.1 eb.1); [| done | done].
    intros Heq.
    assert (ka = kb) as ->.
    { eapply (NoDup_lookup (ord.*1)).
      - rewrite Hord. apply NoDup_fst_map_to_list.
      - by rewrite list_lookup_fmap, Hea.
      - rewrite list_lookup_fmap, Heb. simpl. by rewrite Heq. }
    assert (a = b) as -> by congruence.
    assert (i = j) by by eapply NoDup_lookup. lia.
  - intros id3 p3 Hp3 Hnewest.
    assert ((id3, p3) ∈ ord) as [k3 Hk3]%list_elem_of_lookup_1
      by (rewrite Hord; by apply elem_of_map_to_list).
    assert (ord.*2 !! k3 = Some p3) as Hq3 by by rewrite list_lookup_fmap, Hk3.
    destruct (Forall2_lookup_r _ _ _ _ _ Hread Hq3) as (c3 & Hc3 & Hr3).
    destruct (Hentry k3 c3 Hc3) as (e3 & He3 & _ & _ & _ & Hat3).
    assert (e3 = (id3, p3)) as -> by congruence. simpl in Hat3.
    assert (c3 ∈ cs) as [j Hj]%list_elem_of_lookup_1
      by (rewrite Hperm; by eapply list_elem_of_lookup_2).
    destruct j as [|j]; [by exists c3 |].
    destruct (lookup_lt_is_Some_2 cs 0%nat) as [c Hc];
      [apply lookup_lt_Some in Hj; lia |].
    exists c. split; [done |].
    pose proof (Hsorted 0%nat (S j) c c3 ltac:(lia) Hc Hj) as Hle.
    assert (c ∈ copies) as [k Hk]%list_elem_of_lookup_1
      by (rewrite <- Hperm; by eapply list_elem_of_lookup_2).
    destruct (Hentry k c Hk) as ([id q] & He & Hstored & Hr & _ & Hat). simpl in *.
    destruct (decide (id = id3)) as [-> | Hne]; [by simplify_eq |].
    specialize (Hnewest id q Hne Hstored). lia.
Qed.

End Repository.

(** [snapshots_isolated] on the example: a snapshot is taken, a vote and
    another [Get] follow, then the first snapshot is overwritten. *)
Lemma snapshots_isolated_witness :
  exists h1 h2 s2 h3,
    Get exHeap exStore "p1" = Some (h1, Some 1%nat) /\
    run insertionSort [OpVote 50 "p1" "a"; OpGet "p1"] (h1, exStore) = Some (h2, s2) /\
    mutateAll h2 1%nat
      [SetQuestion "?"; SetOption 1 (mkOption "b" "Spaces" 99); Reslice 1 2]
      = Some h3 /\
    readPoll h3 1%nat = Some (mkView "p1" "?" [mkOption "b" "Spaces" 99] 100 0) /\
    readPoll h3 0%nat = readPoll h2 0%nat /\
    readPoll h3 3%nat = readPoll h2 3%nat.
Proof.
  eexists _, _, _, _.
  split; [vm_compute; reflexivity |].
  split; [vm_compute; reflexivity |].
  split; [vm_compute; reflexivity |].
  split; [vm_compute; reflexivity |].
  match goal with
  | |- readPoll ?h3 _ = readPoll ?h2 _ /\ _ =>
      destruct (snapshots_isolated insertionSort
                  (fun less l => insertionSort_Permutation less l)
                  exHeap exStore
                  (mkHeap [exPoll; mkPoll "p1" "Tabs or spaces?" (mkSlice 2 2) 100 0]
                          (exOpts ++ exOpts))
                  1%nat exWf
                  (or_introl (ex_intro _ "p1"%string eq_refl))) as (_ & Hiso & _);
      destruct (Hiso [OpVote 50 "p1" "a"; OpGet "p1"] h2 exStore
                  [SetQuestion "?"; SetOption 1 (mkOption "b" "Spaces" 99); Reslice 1 2]
                  h3)
        as [Hother _]
  end.
  - intros Hin. vm_compute in Hin. by apply elem_of_nil in Hin.
  - vm_compute. reflexivity.
  - vm_compute. reflexivity.
  - split; apply Hother; discriminate.
Defined.

(** [List_newest_first] with the insertion sort for [sort.Slice]: the
    poll created last is the first of the list. *)
Lemma List_newest_first_witness :
  exists h1 c rest,
    List insertionSort (map_to_list (polls threeStore)) threeHeap threeStore
      = Some (h1, c :: rest) /\
    readPoll h1 c = Some (mkView "x3" "Third" [] 30 0).
Proof.
  destruct (List_newest_first insertionSort
              (fun less l => insertionSort_Permutation less l)
              (fun less l => insertionSort_sorted less l)
              (map_to_list (polls threeStore)) threeHeap threeStore)
    as (h1 & cs & copies & HL & _ & _ & _ & _ & _ & _ & _ & Hnewest).
  - solve_wf.
  - reflexivity.
  - destruct (Hnewest "x3"%string 2%nat) as (c & Hc & Hread).
    + reflexivity.
    + intros id p Hne Hp. apply elem_of_map_to_list in Hp.
      apply list_elem_of_In in Hp. vm_compute in Hp.
      destruct Hp as [Hp | [Hp | [Hp | []]]]; injection Hp as <- <-;
        solve [vm_compute; reflexivity | by destruct Hne].
    + destruct cs as [|c' rest]; [done |]. injection Hc as ->.
      exists h1, c, rest. split; [exact HL |].
      rewrite Hread. reflexivity.
Defined.

(** C8 fails as stated when two polls were stamped at the same instant:
    both are listed, and neither is strictly newer than the other. *)
Lemma List_order_counterexample :
  let h := mkHeap [mkPoll "x1" "First" (mkSlice 0 0) 10 0;
                   mkPoll "x2" "Second" (mkSlice 0 0) 10 0] [] in
  let s := mkStore (<["x2"%string := 1%nat]> {["x1"%string := 0%nat]}) in
  wf h s /\
  exists h1 a b,
    List insertionSort (map_to_list (polls s)) h s = Some (h1, [a; b]) /\
    ~ createdAt h1 b < createdAt h1 a.
Proof.
  split; [solve_wf |].
  eexists _, _, _. split; [vm_compute; reflexivity |].
  vm_compute. discriminate.
Qed.

(** ** What a sequence of operations can change *)

(** Only [Create] writes to a poll object, and only to the one it is
    handed. *)
Lemma step_object sortSlice op h s h' s' q o :
  step sortSlice op (h, s) = Some (h', s') -> pollObjs h !! q = Some o ->
  q ∉ createdBy [op] -> pollObjs h' !! q = Some o.
Proof.
  destruct op as [id qn opts e | rnd now poll | id | now pid oid | ord | id]; simpl.
  - intros [= <- <-] Hq _. simpl. by apply lookup_app_l_Some.
  - unfold Create. destruct (pollObjs h !! poll) as [op|]; simpl; [| done].
    intros [= <- <-] Hq Hnot. simpl. rewrite list_lookup_insert_ne; [done |].
    intros ->. apply Hnot. unfold createdBy. simpl. left.
  - unfold Get. destruct (polls s !! id) as [poll|]; simpl;
      [| by intros [= <- <-]].
    destruct (copyPoll h poll) as [[h1 snap]|] eqn:Hc; simpl; [| done].
    intros [= <- <-] Hq _. eapply extends_obj; [by eapply copyPoll_extends | done].
  - destruct (Vote now h s pid oid) as [[h1 r]|] eqn:HV; simpl; [| done].
    intros [= <- <-] Hq _.
    destruct (Vote_grows _ _ _ _ _ _ _ HV) as (_ & _ & Hold & _).
    unfold Vote in HV.
    destruct (polls s !! pid) as [poll|]; [| by simplify_eq].
    destruct (pollObjs h !! poll) as [op|]; simpl in HV; [| done].
    destruct (IsExpired now op); [by simplify_eq |].
    destruct (loadSlice h (Options op)) as [opts|]; simpl in HV; [| done].
    destruct (findOption oid opts) as [[i opt]|]; [| by simplify_eq].
    destruct (copyPoll _ poll) as [[h2 snap]|] eqn:Hc; simplify_eq/=.
    eapply extends_obj; [by eapply copyPoll_extends | done].
  - unfold List. destruct (copyAll h ord.*2) as [[h1 cs]|] eqn:Hall; simpl; [| done].
    intros [= <- <-] Hq _. eapply extends_obj; [by eapply copyAll_extends | done].
  - by intros [= <- <-].
Qed.

Lemma createdBy_cons op ops : createdBy (op :: ops) = createdBy [op] ++ createdBy ops.
Proof. unfold createdBy. simpl. by destruct op. Qed.

Lemma run_object sortSlice ops h s h' s' q o :
  run sortSlice ops (h, s) = Some (h', s') -> pollObjs h !! q = Some o ->
  q ∉ createdBy ops -> pollObjs h' !! q = Some o.
Proof.
  revert h s. induction ops as [|op ops IH]; intros h s.
  - by intros [= <- <-].
  - intros ([h1 s1] & Hstep & Hrun)%run_cons_inv Hq Hnot.
    rewrite createdBy_cons in Hnot. apply not_elem_of_app in Hnot as [Hnot1 Hnot2].
    eapply IH; [done | | done]. by eapply step_object.
Qed.

(** C7 fails as stated in two ways: a vote on a counter holding the
    largest [int] makes it the smallest; and a poll handed to [Create]
    a second time stays stored with a new creation instant. *)
Lemma polls_evolve_counterexample :
  (let h := mkHeap [mkPoll "p1" "Tabs?" (mkSlice 0 1) 100 0] [mkOption "a" "Tabs" maxInt] in
   let s := mkStore {["p1"%string := 0%nat]} in
   wf h s /\
   exists h' s',
     run insertionSort [OpVote 50 "p1" "a"] (h, s) = Some (h', s') /\
     polls s' !! "p1"%string = Some 0%nat /\
     (Votes <$> optCells h !! 0%nat) = Some maxInt /\
     (Votes <$> optCells h' !! 0%nat) = Some minInt /\
     minInt < maxInt) /\
  (exists h' s',
     run insertionSort [OpCreate (Byte.x00, Byte.x00, Byte.x00, Byte.x00) 200 0]
       (exHeap, exStore) = Some (h', s') /\
     polls exStore !! "p1"%string = Some 0%nat /\
     polls s' !! "p1"%string = Some 0%nat /\
     createdAt exHeap 0%nat = 100 /\ createdAt h' 0%nat = 200).
Proof.
  split.
  - split; [solve_wf |].
    eexists _, _. split_and!; [vm_compute; reflexivity | reflexivity ..].
  - eexists _, _. split_and!; [vm_compute; reflexivity | reflexivity ..].
Qed.

Example generateID_example :
  generateID (Byte.x01, Byte.xab, Byte.x00, Byte.xff) = "01ab00ff"%string.
Proof. reflexivity. Qed.

(** ** Every operation returns *)

Lemma copyAll_countersInt h ps h' cs :
  countersInt h -> copyAll h ps = Some (h', cs) -> countersInt h'.
Proof.
  revert h h' cs. induction ps as [|p ps IH]; intros h h' cs Hi; simpl.
  - by intros [= <- <-].
  - destruct (copyPoll h p) as [[h1 c]|] eqn:Hc; simpl; [| done].
    destruct (copyAll h1 ps) as [[h2 cs']|] eqn:Hall; simpl; [| done].
    intros [= <- <-]. eapply IH; [| done]. by eapply copyPoll_countersInt.
Qed.

Lemma Vote_countersInt now h s pollID optionID h' r :
  countersInt h -> Vote now h s pollID optionID = Some (h', r) -> countersInt h'.
Proof.
  intros Hi. unfold Vote.
  destruct (polls s !! pollID) as [poll|]; [| by intros [= <- <-]].
  destruct (pollObjs h !! poll) as [o|]; simpl; [| done].
  destruct (IsExpired now o); [by intros [= <- <-] |].
  destruct (loadSlice h (Options o)) as [opts|]; simpl; [| done].
  destruct (findOption optionID opts) as [[i opt]|]; [| by intros [= <- <-]].
  destruct (copyPoll _ poll) as [[h2 c]|] eqn:Hc; simpl; [| done].
  intros [= <- <-]. eapply copyPoll_countersInt; [| done].
  apply countersInt_insert_cell; [done | apply wrapInt_isInt].
Qed.

Lemma wfStore_grows h h' s : grows h h' -> wfStore h s -> wfStore h' s.
Proof.
  intros (Hlen & _) Hst id p Hp. destruct (Hst id p Hp). split; [lia | done].
Qed.

Lemma Vote_returns now h s pollID optionID :
  wf h s -> exists h' r, Vote now h s pollID optionID = Some (h', r).
Proof.
  intros [[Hs _] Hst]. unfold Vote.
  destruct (polls s !! pollID) as [poll|] eqn:Hpoll; [| eauto].
  destruct (Hst _ _ Hpoll) as [Hlive _].
  destruct (lookup_lt_is_Some_2 _ _ Hlive) as [o Ho]. rewrite Ho. simpl.
  destruct (IsExpired now o) eqn:Hexp; [eauto |].
  rewrite (loadSlice_valid _ _ (Hs poll o Ho)). simpl.
  destruct (findOption optionID _) as [[i opt]|] eqn:Hfind; [| eauto].
  destruct (Vote_found now h s pollID optionID poll o _ i opt Hs Hpoll Ho Hexp
              (loadSlice_valid _ _ (Hs poll o Ho)) Hfind) as [_ HV].
  unfold Vote in HV. rewrite Hpoll, Ho in HV. simpl in HV.
  rewrite Hexp, (loadSlice_valid _ _ (Hs poll o Ho)) in HV. simpl in HV.
  rewrite Hfind in HV. rewrite HV. eauto.
Qed.

(** From a well-formed state, every operation a caller can issue
    returns, in a well-formed state. *)
Lemma step_total sortSlice op h s :
  wf h s -> opOk op (h, s) ->
  exists h' s', step sortSlice op (h, s) = Some (h', s') /\ wf h' s'.
Proof.
  intros Hwf Hok. pose proof Hwf as [[Hs Hi] Hst].
  assert (exists h' s', step sortSlice op (h, s) = Some (h', s')) as (h' & s' & Hstep).
  { destruct op as [id q opts e | rnd now poll | id | now pid oid | ord | id];
      simpl in *.
    - eauto.
    - destruct (lookup_lt_is_Some_2 _ _ Hok) as [o Ho].
      rewrite (Create_Some _ _ _ _ _ o Ho). eauto.
    - destruct (polls s !! id) as [poll|] eqn:Hp.
      + destruct (Get_stored h s id poll Hwf Hp) as (h' & c & -> & _). simpl. eauto.
      + unfold Get. rewrite Hp. simpl. eauto.
    - destruct (Vote_returns now h s pid oid Hwf) as (h' & r & ->).
      simpl. eauto.
    - unfold List. destruct (copyAll_spec h ord.*2 Hs) as (h1 & -> & _); simpl; [| eauto].
      apply Forall_forall. intros p ([id p'] & -> & He)%list_elem_of_fmap.
      rewrite Hok in He. apply elem_of_map_to_list in He. by destruct (Hst _ _ He).
    - eauto. }
  exists h', s'. split; [done |].
  pose proof (step_grows _ _ _ _ _ _ Hstep) as Hg.
  pose proof (step_slicesValid _ _ _ _ _ _ Hs Hstep) as Hs'.
  destruct op as [id q opts e | rnd now poll | id | now pid oid | ord | id];
    simpl in *.
  - injection Hstep as <- <-. split; [split |]; [done | | by eapply wfStore_grows].
    intros a c. simpl. intros [Ha | [_ Ha]]%lookup_app_Some; [by eapply Hi |].
    rewrite Forall_lookup in Hok. by eapply Hok.
  - by eapply Create_wf.
  - destruct (Get h s id) as [[h1 r]|] eqn:HG; [| done].
    simpl in Hstep. injection Hstep as <- <-.
    split; [split |]; [done | | by eapply wfStore_grows].
    unfold Get in HG. destruct (polls s !! id) as [poll|]; [| by simplify_eq].
    destruct (copyPoll h poll) as [[h2 c]|] eqn:Hc; [| done].
    simpl in HG. injection HG as <- <-.
    by eapply copyPoll_countersInt.
  - destruct (Vote now h s pid oid) as [[h1 r]|] eqn:HV; [| done].
    simpl in Hstep. injection Hstep as <- <-.
    split; [split |]; [done | by eapply Vote_countersInt | by eapply wfStore_grows].
  - unfold List in Hstep.
    destruct (copyAll h ord.*2) as [[h1 cs]|] eqn:Hall; [| done].
    simpl in Hstep. injection Hstep as <- <-.
    split; [split |]; [done | by eapply copyAll_countersInt | by eapply wfStore_grows].
  - injection Hstep as <- <-. split; [done |].
    intros id' p. unfold Delete. destruct (polls s !! id); simpl; [| by apply Hst].
    intros [_ Hp]%lookup_delete_Some. by apply Hst.
Qed.

(** ** Concurrent votes *)

Lemma sum_list_insert {A} (f : A -> nat) (l : list A) t c c' :
  l !! t = Some c ->
  (sum_list (f <$> <[t := c']> l) + f c = sum_list (f <$> l) + f c')%nat.
Proof.
  revert t. induction l as [|x l IH]; intros [|t] Ht; simpl in Ht; simplify_eq;
    csimpl; [lia |].
  specialize (IH t Ht). lia.
Qed.

Lemma sum_list_le_length {A} (f : A -> nat) (l : list A) :
  (forall x, f x <= 1)%nat -> (sum_list (f <$> l) <= length l)%nat.
Proof.
  intros Hf. induction l as [|x l IH]; csimpl; [lia |]. specialize (Hf x). lia.
Qed.

Lemma pastStore_le c : (pastStore c <= 1)%nat.
Proof. unfold pastStore. destruct (pc c); lia. Qed.

Lemma findOption_insert optionID opts i opt cur :
  findOption optionID opts = Some (i, opt) -> OptID cur = OptID opt ->
  findOption optionID (<[i := cur]> opts) = Some (i, cur).
Proof.
  intros (Hi & Hid & Hfirst)%findOption_Some Hcur. apply findOption_Some.
  split_and!.
  - apply list_lookup_insert_eq. by eapply lookup_lt_Some.
  - congruence.
  - intros j x Hj Hx. rewrite list_lookup_insert_ne in Hx by lia.
    by apply (Hfirst j).
Qed.

(** Every step brings the calls closer to returning. *)
Lemma stepCall_remaining t σ σ' :
  stepCall t σ = Some σ' -> (remaining σ' < remaining σ)%nat.
Proof.
  unfold stepCall, remaining.
  destruct (calls σ !! t) as [c|] eqn:Hc; simpl; [| done].
  assert (forall h m p, (stepsLeft (setPC c p) < stepsLeft c)%nat ->
            (sum_list (stepsLeft <$>
               calls (mkShared h (store σ) m (<[t := setPC c p]> (calls σ))))
             < sum_list (stepsLeft <$> calls σ))%nat) as Hdec.
  { intros h m p Hlt. cbn [calls].
    pose proof (sum_list_insert stepsLeft (calls σ) t c (setPC c p) Hc). lia. }
  unfold stepsLeft at 1 2 in Hdec. cbn [setPC pc] in Hdec.
  destruct (pc c) as [| |poll cell|poll cell v|poll|r|r] eqn:Hpc.
  - destruct (mu σ); [done |]. intros [= <-]. apply Hdec. lia.
  - destruct (polls (store σ) !! callPollID c) as [poll|];
      [| intros [= <-]; apply Hdec; lia].
    destruct (pollObjs (heap σ) !! poll) as [o|]; simpl; [| done].
    destruct (IsExpired (callNow c) o); [intros [= <-]; apply Hdec; lia |].
    destruct (loadSlice (heap σ) (Options o)) as [opts|]; simpl; [| done].
    destruct (findOption (callOptionID c) opts) as [[i opt]|];
      intros [= <-]; apply Hdec; lia.
  - destruct (optCells (heap σ) !! cell); simpl; [| done].
    intros [= <-]. apply Hdec. lia.
  - destruct (optCells (heap σ) !! cell); simpl; [| done].
    intros [= <-]. apply Hdec. lia.
  - destruct (copyPoll (heap σ) poll) as [[h' snap]|]; simpl; [| done].
    intros [= <-]. apply Hdec. lia.
  - intros [= <-]. apply Hdec. lia.
  - done.
Qed.

Section ConcurrentVotes.

(** The scene of C1: a stored, live poll with an option named
    [optionID], and one goroutine per element of [nows] about to vote for
    it. The first option with that identifier sits at index [i] and holds
    [opt]; its counter has room for all the votes. *)
Variables (h0 : Heap) (s0 : Store) (pollID optionID : string).
Variables (poll : nat) (o : Poll) (opts : list Option) (i : nat) (opt : Option).
Variable nows : list Time.
Hypothesis Hwf : wf h0 s0.
Hypothesis Hpoll : polls s0 !! pollID = Some poll.
Hypothesis Hobj : pollObjs h0 !! poll = Some o.
Hypothesis Hopts : loadSlice h0 (Options o) = Some opts.
Hypothesis Hfind : findOption optionID opts = Some (i, opt).
Hypothesis Hlive : forall now, now ∈ nows -> IsExpired now o = false.
Hypothesis Hroom : Votes opt + Z.of_nat (length nows) <= maxInt.

(** The option after [k] votes. *)
Definition counterAfter (k : nat) : Option :=
  mkOption (OptID opt) (Text opt) (Votes opt + Z.of_nat k).

(** What the goroutine holding the mutex knows at each point. *)
Definition holds (σ : Shared) (p : VotePC) : Prop :=
  match p with
  | AtLookup => True
  | AtLoad p cell => p = poll /\ cell = (ptr (Options o) + i)%nat
  | AtStore p cell read =>
      p = poll /\ cell = (ptr (Options o) + i)%nat /\
      read = Votes opt + Z.of_nat (stored σ)
  | AtCopy p => p = poll
  | AtUnlock r => exists snap, r = inl snap
  | AtLock | Returned _ => False
  end.

Definition callOk (c : VoteCall) : Prop :=
  callPollID c = pollID /\ callOptionID c = optionID /\
  IsExpired (callNow c) o = false.

(** The mutex has at most one holder, and everybody else is outside. *)
Definition owner (σ : Shared) : Prop :=
  if mu σ
  then exists t c,
         calls σ !! t = Some c /\ holds σ (pc c) /\
         forall t' c', t' <> t -> calls σ !! t' = Some c' -> outside (pc c')
  else forall c, c ∈ calls σ -> outside (pc c).

Definition votesInv (σ : Shared) : Prop :=
  store σ = s0 /\
  length (calls σ) = length nows /\
  slicesValid (heap σ) /\
  pollObjs (heap σ) !! poll = Some o /\
  loadSlice (heap σ) (Options o) = Some (<[i := counterAfter (stored σ)]> opts) /\
  (forall c, c ∈ calls σ -> callOk c) /\
  owner σ.

Lemma counterAfter_0 : counterAfter 0 = opt.
Proof. unfold counterAfter. destruct opt as [id text votes]. simpl. f_equal. lia. Qed.

Lemma opt_isInt : isInt (Votes opt).
Proof.
  destruct Hwf as [[_ Hint] _].
  pose proof (proj1 (findOption_Some _ _ _ _) Hfind) as (Hi & _).
  pose proof (loadSlice_Some _ _ _ Hopts) as (_ & Hlen & Hcells).
  apply (Hint (ptr (Options o) + i)%nat). rewrite <- Hcells; [done |].
  apply lookup_lt_Some in Hi. lia.
Qed.

Lemma index_in_slice : (i < len (Options o))%nat.
Proof.
  pose proof (proj1 (findOption_Some _ _ _ _) Hfind) as (Hi & _).
  pose proof (loadSlice_Some _ _ _ Hopts) as (_ & Hlen & _).
  apply lookup_lt_Some in Hi. lia.
Qed.

Lemma spawn_votesInv : votesInv (spawn h0 s0 pollID optionID nows).
Proof.
  unfold votesInv, spawn. simpl. split_and!.
  - done.
  - by rewrite length_fmap.
  - by destruct Hwf as [[? _] _].
  - done.
  - assert (stored (mkShared h0 s0 false
              ((fun now => mkVoteCall now pollID optionID AtLock) <$> nows)) = 0%nat)
      as ->.
    { unfold stored. cbn [calls]. clear. induction nows; [done | by csimpl]. }
    rewrite counterAfter_0, list_insert_id; [done |].
    by apply findOption_Some in Hfind as (? & _).
  - intros c (now & -> & Hnow)%list_elem_of_fmap. unfold callOk. simpl.
    split_and!; [done | done |]. by apply Hlive.
  - unfold owner. simpl.
    intros c (now & -> & Hnow)%list_elem_of_fmap. by left.
Qed.

Lemma stored_update σ t c h' st m' p' :
  calls σ !! t = Some c ->
  (stored (mkShared h' st m' (<[t := setPC c p']> (calls σ))) + pastStore c
   = stored σ + pastStore (setPC c p'))%nat.
Proof. intros Hc. unfold stored. cbn [calls]. by apply sum_list_insert. Qed.

Lemma stored_le σ : (stored σ <= length (calls σ))%nat.
Proof. unfold stored. apply sum_list_le_length, pastStore_le. Qed.

Lemma in_critical_section σ t c :
  owner σ -> calls σ !! t = Some c -> ~ outside (pc c) ->
  mu σ = true /\ holds σ (pc c) /\
  forall t' c', t' <> t -> calls σ !! t' = Some c' -> outside (pc c').
Proof.
  unfold owner. intros Hown Hc Hin.
  destruct (mu σ).
  - destruct Hown as (t0 & c0 & Hc0 & Hholds & Hothers).
    destruct (decide (t = t0)) as [-> | Hne].
    + by simplify_eq.
    + exfalso. apply Hin. by eapply Hothers.
  - exfalso. apply Hin, Hown. by eapply list_elem_of_lookup_2.
Qed.

Lemma votesInv_update σ t c h' m' p' :
  votesInv σ -> calls σ !! t = Some c ->
  slicesValid h' -> pollObjs h' !! poll = Some o ->
  loadSlice h' (Options o) =
    Some (<[i := counterAfter
                    (stored (mkShared h' (store σ) m' (<[t := setPC c p']> (calls σ))))]>
            opts) ->
  owner (mkShared h' (store σ) m' (<[t := setPC c p']> (calls σ))) ->
  votesInv (mkShared h' (store σ) m' (<[t := setPC c p']> (calls σ))).
Proof.
  intros (Hst & Hlen & _ & _ & _ & Hcalls & _) Hc Hs' Ho' Hl' Hown'.
  unfold votesInv. cbn [store calls heap]. split_and!; try done.
  - by rewrite length_insert.
  - intros c' [t' Hc']%list_elem_of_lookup_1.
    apply list_lookup_insert_Some in Hc' as [(-> & <- & _) | [_ Hc']].
    + destruct (Hcalls c) as (? & ? & ?); [by eapply list_elem_of_lookup_2 |].
      by split_and!.
    + apply Hcalls. by eapply list_elem_of_lookup_2.
Qed.

(** The owner after a step of the holder [t] that keeps the mutex. *)
Lemma owner_keeps σ t c h' p' :
  calls σ !! t = Some c ->
  (forall t' c', t' <> t -> calls σ !! t' = Some c' -> outside (pc c')) ->
  holds (mkShared h' (store σ) true (<[t := setPC c p']> (calls σ))) p' ->
  owner (mkShared h' (store σ) true (<[t := setPC c p']> (calls σ))).
Proof.
  intros Hc Hothers Hholds. unfold owner. cbn [mu calls].
  exists t, (setPC c p'). split_and!.
  - apply list_lookup_insert_eq. by eapply lookup_lt_Some.
  - done.
  - intros t' c' Hne Hc'. rewrite list_lookup_insert_ne in Hc' by done.
    by eapply Hothers.
Qed.

Lemma counter_cell σ :
  votesInv σ ->
  optCells (heap σ) !! (ptr (Options o) + i)%nat = Some (counterAfter (stored σ)).
Proof.
  intros (_ & _ & _ & _ & Hl & _).
  apply loadSlice_Some in Hl as (_ & Hlen & Hcells).
  rewrite <- Hcells by apply index_in_slice.
  apply list_lookup_insert_eq.
  pose proof index_in_slice. rewrite length_insert in Hlen. lia.
Qed.

Lemma stepCall_votesInv t σ σ' :
  votesInv σ -> stepCall t σ = Some σ' -> votesInv σ'.
Proof.
  intros Hinv Hstep. pose proof Hinv as (Hst & Hlen & Hs & Ho & Hl & Hcalls & Hown).
  unfold stepCall in Hstep.
  destruct (calls σ !! t) as [c|] eqn:Hc; simpl in Hstep; [| done].
  destruct (Hcalls c) as (Hpid & Hoid & Hexp); [by eapply list_elem_of_lookup_2 |].
  destruct (pc c) as [| |p cell|p cell read|p|r|r] eqn:Hpc.
  - (* s.mu.Lock() *)
    destruct (mu σ) eqn:Hmu; [done |]. injection Hstep as <-.
    assert (stored (mkShared (heap σ) (store σ) true (<[t := setPC c AtLookup]> (calls σ)))
            = stored σ) as Hstored.
    { pose proof (stored_update σ t c (heap σ) (store σ) true AtLookup Hc) as Hup.
      unfold pastStore in Hup. rewrite Hpc in Hup. simpl in Hup. lia. }
    apply votesInv_update; try done.
    + by rewrite Hstored.
    + apply owner_keeps; [done | | done].
      intros t' c' _ Hc'. unfold owner in Hown. rewrite Hmu in Hown.
      apply Hown. by eapply list_elem_of_lookup_2.
  - (* the lookups *)
    destruct (in_critical_section σ t c Hown Hc) as (Hmu & _ & Hothers).
    { rewrite Hpc. intros [? | [? ?]]; done. }
    assert (polls (store σ) !! callPollID c = Some poll) as Hlook
      by (by rewrite Hst, Hpid).
    rewrite Hlook, Ho in Hstep. simpl in Hstep.
    rewrite Hexp, Hl in Hstep. simpl in Hstep.
    rewrite Hoid in Hstep.
    rewrite (findOption_insert optionID opts i opt (counterAfter (stored σ)) Hfind)
      in Hstep by done.
    injection Hstep as <-. rewrite Hmu.
    assert (stored (mkShared (heap σ) (store σ) true
                      (<[t := setPC c (AtLoad poll (ptr (Options o) + i))]> (calls σ)))
            = stored σ) as Hstored.
    { pose proof (stored_update σ t c (heap σ) (store σ) true
                    (AtLoad poll (ptr (Options o) + i)) Hc) as Hup.
      unfold pastStore in Hup. rewrite Hpc in Hup. simpl in Hup. lia. }
    apply votesInv_update; try done.
    + by rewrite Hstored.
    + by apply owner_keeps.
  - (* the read of Votes *)
    destruct (in_critical_section σ t c Hown Hc) as (Hmu & Hholds & Hothers).
    { rewrite Hpc. intros [? | [? ?]]; done. }
    rewrite Hpc in Hholds. destruct Hholds as [-> ->].
    rewrite (counter_cell σ Hinv) in Hstep. simpl in Hstep.
    injection Hstep as <-. rewrite Hmu.
    assert (stored (mkShared (heap σ) (store σ) true
                      (<[t := setPC c (AtStore poll (ptr (Options o) + i)
                                         (Votes opt + Z.of_nat (stored σ)))]> (calls σ)))
            = stored σ) as Hstored.
    { pose proof (stored_update σ t c (heap σ) (store σ) true
                    (AtStore poll (ptr (Options o) + i)
                       (Votes opt + Z.of_nat (stored σ))) Hc) as Hup.
      unfold pastStore in Hup. rewrite Hpc in Hup. simpl in Hup. lia. }
    apply votesInv_update; try done.
    + by rewrite Hstored.
    + apply owner_keeps; [done | done |]. simpl. by rewrite Hstored.
  - (* the write of Votes *)
    destruct (in_critical_section σ t c Hown Hc) as (Hmu & Hholds & Hothers).
    { rewrite Hpc. intros [? | [? ?]]; done. }
    rewrite Hpc in Hholds. destruct Hholds as (-> & -> & ->).
    rewrite (counter_cell σ Hinv) in Hstep. simpl in Hstep.
    injection Hstep as <-. rewrite Hmu.
    set (h' := mkHeap _ _). set (σ' := mkShared h' _ _ _).
    assert (stored σ' = S (stored σ)) as Hstored.
    { pose proof (stored_update σ t c h' (store σ) true (AtCopy poll) Hc) as Hup.
      unfold pastStore in Hup. rewrite Hpc in Hup. simpl in Hup.
      fold σ' in Hup. lia. }
    assert (wrapInt (Votes opt + Z.of_nat (stored σ) + 1)
            = Votes opt + Z.of_nat (S (stored σ))) as Hwrap.
    { pose proof (stored_le σ') as Hle. rewrite Hstored in Hle.
      subst σ'. cbn [calls] in Hle. rewrite length_insert, Hlen in Hle.
      pose proof opt_isInt as Hint.
      rewrite wrapInt_id; [lia |]. unfold isInt, minInt, maxInt in *. lia. }
    apply votesInv_update; try done.
    + by apply slicesValid_insert_cell.
    + fold σ'. rewrite Hstored. subst h'.
      rewrite (loadSlice_insert _ _ _ _ _ Hl index_in_slice).
      rewrite list_insert_insert_eq. unfold counterAfter. by rewrite Hwrap.
    + by apply owner_keeps.
  - (* copyPoll *)
    destruct (in_critical_section σ t c Hown Hc) as (Hmu & Hholds & Hothers).
    { rewrite Hpc. intros [? | [? ?]]; done. }
    rewrite Hpc in Hholds. simpl in Hholds. subst p.
    destruct (copyPoll (heap σ) poll) as [[h' snap]|] eqn:Hcopy; simpl in Hstep; [| done].
    injection Hstep as <-. rewrite Hmu.
    assert (stored (mkShared h' (store σ) true
                      (<[t := setPC c (AtUnlock (inl snap))]> (calls σ)))
            = stored σ) as Hstored.
    { pose proof (stored_update σ t c h' (store σ) true (AtUnlock (inl snap)) Hc) as Hup.
      unfold pastStore in Hup. rewrite Hpc in Hup. simpl in Hup. lia. }
    pose proof (copyPoll_extends _ _ _ _ Hcopy) as Hext.
    apply votesInv_update; try done.
    + by eapply copyPoll_slicesValid.
    + by eapply extends_obj.
    + rewrite Hstored, <- Hl. apply loadSlice_ext.
      * by apply (Hs poll).
      * by apply extends_length.
      * intros a [_ Ha]. apply extends_cell; [done |].
        specialize (Hs poll o Ho). unfold validSlice in Hs. lia.
    + apply owner_keeps; [done | done |]. simpl. eauto.
  - (* s.mu.Unlock() *)
    destruct (in_critical_section σ t c Hown Hc) as (Hmu & Hholds & Hothers).
    { rewrite Hpc. intros [? | [? ?]]; done. }
    rewrite Hpc in Hholds. destruct Hholds as [snap ->].
    injection Hstep as <-.
    assert (stored (mkShared (heap σ) (store σ) false
                      (<[t := setPC c (Returned (inl snap))]> (calls σ)))
            = stored σ) as Hstored.
    { pose proof (stored_update σ t c (heap σ) (store σ) false (Returned (inl snap)) Hc)
        as Hup.
      unfold pastStore in Hup. rewrite Hpc in Hup. simpl in Hup. lia. }
    apply votesInv_update; try done.
    + by rewrite Hstored.
    + unfold owner. cbn [mu calls].
      intros c' [t' Hc']%list_elem_of_lookup_1.
      apply list_lookup_insert_Some in Hc' as [(-> & <- & _) | [Hne Hc']].
      * right. simpl. eauto.
      * by eapply Hothers.
  - done.
Qed.

Lemma interleave_votesInv σ σ' : votesInv σ -> interleave σ σ' -> votesInv σ'.
Proof.
  intros Hinv Hrun. induction Hrun as [σ | σ t σ1 σ2 Hstep _ IH]; [done |].
  apply IH. by eapply stepCall_votesInv.
Qed.

Lemma allReturned_Forall σ :
  allReturned σ <-> Forall (fun c => hasReturned c = true) (calls σ).
Proof. unfold allReturned. by rewrite Forall_forall. Qed.

(** No deadlock: while a call has not returned, some call can move. *)
Lemma votes_progress σ :
  votesInv σ -> ~ allReturned σ -> exists t σ', stepCall t σ = Some σ'.
Proof.
  intros Hinv Hnot. pose proof Hinv as (Hst & Hlen & Hs & Ho & Hl & Hcalls & Hown).
  rewrite allReturned_Forall in Hnot.
  apply not_Forall_Exists in Hnot; [| apply _].
  apply Exists_exists in Hnot as (c & [t Hc]%list_elem_of_lookup_1 & Hc_not).
  simpl in Hc_not. unfold owner in Hown. destruct (mu σ) eqn:Hmu.
  - clear t c Hc Hc_not. destruct Hown as (t & c & Hc & Hholds & _).
    destruct (Hcalls c) as (Hpid & Hoid & Hexp); [by eapply list_elem_of_lookup_2 |].
    exists t. unfold stepCall. rewrite Hc. simpl.
    destruct (pc c) as [| |p cell|p cell read|p|r|r] eqn:Hpc; simpl in Hholds;
      try done.
    + assert (polls (store σ) !! callPollID c = Some poll) as -> by (by rewrite Hst, Hpid).
      rewrite Ho. simpl. rewrite Hexp, Hl. simpl. rewrite Hoid.
      rewrite (findOption_insert optionID opts i opt (counterAfter (stored σ)) Hfind)
        by done.
      eauto.
    + destruct Hholds as [-> ->]. rewrite (counter_cell σ Hinv). simpl. eauto.
    + destruct Hholds as (-> & -> & ->). rewrite (counter_cell σ Hinv). simpl. eauto.
    + subst p. destruct (copyPoll_Some _ _ _ Hs Ho) as (? & _ & ->). simpl. eauto.
    + eauto.
  - assert (pc c = AtLock) as Hpc.
    { destruct (Hown c) as [? | [snap Hret]]; [by eapply list_elem_of_lookup_2 | done |].
      unfold hasReturned in Hc_not. by rewrite Hret in Hc_not. }
    exists t. unfold stepCall. rewrite Hc. simpl. rewrite Hpc, Hmu. eauto.
Qed.

(** From every state the calls reach, they can all be brought to
    return. *)
Lemma votes_complete σ :
  votesInv σ -> exists σ', interleave σ σ' /\ allReturned σ'.
Proof.
  remember (remaining σ) as n eqn:Hn. revert σ Hn.
  induction (lt_wf n) as [n _ IH]. intros σ -> Hinv.
  destruct (decide (Forall (fun c => hasReturned c = true) (calls σ))) as [Hall | Hnot].
  - exists σ. split; [apply interleave_refl | by apply allReturned_Forall].
  - destruct (votes_progress σ Hinv) as (t & σ1 & Hstep);
      [by rewrite allReturned_Forall |].
    destruct (IH (remaining σ1) (stepCall_remaining _ _ _ Hstep) σ1 eq_refl)
      as (σ' & Hrun & Hall); [by eapply stepCall_votesInv |].
    exists σ'. split; [by eapply interleave_step | done].
Qed.

Lemma stored_allReturned σ : allReturned σ -> stored σ = length (calls σ).
Proof.
  rewrite allReturned_Forall. unfold stored.
  induction 1 as [|c l Hc _ IH]; csimpl; [done |].
  rewrite IH. unfold pastStore, hasReturned in *. by destruct (pc c).
Qed.

(** C1, as amended: N goroutines call [Vote] for an existing option of
    a stored poll that is not expired when they test it, the counter
    having room for N more votes. Whatever the interleaving of their
    steps, once all calls have returned the option's counter is its
    initial value plus exactly N, every other option is as before, and
    every call has returned a snapshot; and they do all return: while
    one has not, some goroutine can move, and every state reached can be
    completed. *)
Theorem concurrent_votes_counted σ
  (Hrun : interleave (spawn h0 s0 pollID optionID nows) σ) :
  (allReturned σ ->
     loadSlice (heap σ) (Options o) = Some (<[i := counterAfter (length nows)]> opts) /\
     Votes (counterAfter (length nows)) = Votes opt + Z.of_nat (length nows) /\
     forall c, c ∈ calls σ -> exists snap, pc c = Returned (inl snap)) /\
  (~ allReturned σ -> exists t σ', stepCall t σ = Some σ') /\
  (exists σ', interleave σ σ' /\ allReturned σ') /\
  store σ = s0 /\ pollObjs (heap σ) !! poll = Some o.
Proof.
  pose proof (interleave_votesInv _ _ spawn_votesInv Hrun) as Hinv.
  pose proof Hinv as (Hst & Hlen & Hs & Ho & Hl & Hcalls & Hown).
  split_and!; [| by apply votes_progress | by apply votes_complete | done | done].
  intros Hall. rewrite (stored_allReturned σ Hall), Hlen in Hl.
  split_and!; [done | done |].
  intros c Hc. pose proof (Hall c Hc) as Hret.
  unfold owner in Hown. destruct (mu σ).
  - destruct Hown as (t0 & c0 & Hc0 & Hholds & _). exfalso.
    pose proof (Hall c0 (list_elem_of_lookup_2 _ _ _ Hc0)) as Hret0.
    unfold hasReturned in Hret0. by destruct (pc c0).
  - destruct (Hown c Hc) as [Hlock | ?]; [| done].
    unfold hasReturned in Hret. by rewrite Hlock in Hret.
Qed.

End ConcurrentVotes.

Lemma runSchedule_interleave sched σ σ' :
  runSchedule sched σ = Some σ' -> interleave σ σ'.
Proof.
  revert σ. induction sched as [|t sched IH]; intros σ; simpl.
  - intros [= <-]. apply interleave_refl.
  - destruct (stepCall t σ) as [σ1|] eqn:Hstep; simpl; [| done].
    intros Hrest. eapply interleave_step; [done | by apply IH].
Qed.

(** A goroutine running alone goes through [Vote] as the sequential
    function describes it. *)
Lemma solo_vote now h s pollID optionID h' r :
  Vote now h s pollID optionID = Some (h', r) ->
  exists sched,
    runSchedule sched (spawn h s pollID optionID [now]) =
      Some (mkShared h' s false [mkVoteCall now pollID optionID (Returned r)]).
Proof.
  unfold Vote. intros HV.
  destruct (polls s !! pollID) as [poll|] eqn:Hpoll.
  2: { injection HV as <- <-. exists [0; 0; 0]%nat.
       unfold spawn. simpl. unfold stepCall. simpl. by rewrite Hpoll. }
  destruct (pollObjs h !! poll) as [o|] eqn:Ho; simpl in HV; [| done].
  destruct (IsExpired now o) eqn:Hexp.
  { injection HV as <- <-. exists [0; 0; 0]%nat.
    unfold spawn. simpl. unfold stepCall. simpl. rewrite Hpoll, Ho. simpl.
    by rewrite Hexp. }
  destruct (loadSlice h (Options o)) as [opts|] eqn:Hl; simpl in HV; [| done].
  destruct (findOption optionID opts) as [[i opt]|] eqn:Hfind.
  2: { injection HV as <- <-. exists [0; 0; 0]%nat.
       unfold spawn. simpl. unfold stepCall. simpl. rewrite Hpoll, Ho. simpl.
       rewrite Hexp, Hl. simpl. by rewrite Hfind. }
  destruct (copyPoll _ poll) as [[h2 c]|] eqn:Hc; simpl in HV; [| done].
  injection HV as <- <-. exists [0; 0; 0; 0; 0; 0]%nat.
  pose proof (proj1 (findOption_Some _ _ _ _) Hfind) as (Hi & _).
  pose proof (loadSlice_Some _ _ _ Hl) as (_ & Hlen & Hcells).
  rewrite Hcells in Hi by (apply lookup_lt_Some in Hi; lia).
  unfold spawn. simpl. unfold stepCall. simpl. rewrite Hpoll, Ho. simpl.
  rewrite Hexp, Hl. simpl. rewrite Hfind. simpl. rewrite Hi. simpl.
  rewrite Hi. simpl.
  assert (mkOption (OptID opt) (Text opt) (wrapInt (Votes opt + 1)) = incrVotes opt)
    as -> by done.
  by rewrite Hc.
Qed.

(** [concurrent_votes_counted] on the example: three goroutines vote
    for [b], served in the order 2, 0, 1. *)
Lemma concurrent_votes_counted_witness :
  exists σ,
    interleave (spawn exHeap exStore "p1" "b" [50; 60; 70]) σ /\
    allReturned σ /\
    loadSlice (heap σ) (mkSlice 0 2) =
      Some [mkOption "a" "Tabs" 3; mkOption "b" "Spaces" 8].
Proof.
  destruct (runSchedule [2; 2; 2; 2; 2; 2; 0; 0; 0; 0; 0; 0; 1; 1; 1; 1; 1; 1]%nat
              (spawn exHeap exStore "p1" "b" [50; 60; 70])) as [σ|] eqn:Hσ;
    [| by vm_compute in Hσ].
  pose proof (runSchedule_interleave _ _ _ Hσ) as Hrun.
  assert (allReturned σ) as Hall.
  { vm_compute in Hσ. injection Hσ as <-.
    apply allReturned_Forall. repeat constructor. }
  exists σ. split_and!; [done | done |].
  destruct (concurrent_votes_counted exHeap exStore "p1" "b" 0%nat exPoll exOpts
              1%nat (mkOption "b" "Spaces" 5) [50; 60; 70]
              exWf eq_refl eq_refl eq_refl eq_refl) with (σ := σ) as (Hfinal & _).
  - intros now Hnow. apply list_elem_of_In in Hnow. simpl in Hnow.
    destruct Hnow as [<- | [<- | [<- | []]]]; reflexivity.
  - vm_compute. discriminate.
  - exact Hrun.
  - destruct (Hfinal Hall) as (Hl & _). exact Hl.
Defined.

(** C1 fails as stated for an expired poll: the call returns "poll has
    expired" and the counter stays where it was. *)
Lemma concurrent_votes_counterexample :
  let h := mkHeap [mkPoll "p1" "Tabs or spaces?" (mkSlice 0 2) 10 40] exOpts in
  wf h exStore /\
  exists σ,
    interleave (spawn h exStore "p1" "b" [50]) σ /\
    allReturned σ /\
    calls σ = [mkVoteCall 50 "p1" "b" (Returned (inr PollExpired))] /\
    loadSlice (heap σ) (mkSlice 0 2) = Some exOpts /\
    exOpts !! 1%nat = Some (mkOption "b" "Spaces" 5).
Proof.
  intros h. split; [solve_wf |].
  eexists. split.
  - apply (runSchedule_interleave [0; 0; 0]%nat). vm_compute. reflexivity.
  - split_and!; try reflexivity.
    apply allReturned_Forall. repeat constructor.
Qed.

(** ** The broadcaster *)

Lemma wfNotifier_New : wfNotifier [] NewBroadcaster.
Proof.
  split.
  - intros key subs ch Hk. simpl in Hk. by rewrite lookup_empty in Hk.
  - intros k1 k2 subs1 subs2 ch Hk. simpl in Hk. by rewrite lookup_empty in Hk.
Qed.

Lemma Subscribe_wf cs b pollID :
  wfNotifier cs b ->
  wfNotifier (Subscribe cs b pollID).1.1 (Subscribe cs b pollID).1.2.
Proof.
  intros [Hlive Hone]. unfold Subscribe. simpl.
  assert (forall key subs, subscribers b !! key = Some subs ->
            subs !! length cs = None) as Hfresh.
  { intros key subs Hk. destruct (subs !! length cs) as [v|] eqn:Hch; [| done].
    destruct (Hlive key subs (length cs) Hk) as (c & Hc & _); [by eexists |].
    apply lookup_lt_Some in Hc. lia. }
  split.
  - intros key subs ch Hk Hch. simpl in Hk.
    apply lookup_insert_Some in Hk as [[<- <-] | [Hne Hk]].
    + apply lookup_insert_is_Some in Hch as [<- | [Hne Hch]].
      * exists (mkChan [] 10 false). rewrite lookup_app_r by lia.
        by rewrite Nat.sub_diag.
      * destruct (subscribers b !! pollID) as [subs|] eqn:Hk; simpl in Hch;
          [| by rewrite lookup_empty in Hch; destruct Hch].
        destruct (Hlive pollID subs ch Hk Hch) as (c & Hc & ? & ?).
        exists c. split; [by apply lookup_app_l_Some | done].
    + destruct (Hlive key subs ch Hk Hch) as (c & Hc & ? & ?).
      exists c. split; [by apply lookup_app_l_Some | done].
  - intros k1 k2 subs1 subs2 ch Hk1 Hk2 Hch1 Hch2. simpl in Hk1, Hk2.
    apply lookup_insert_Some in Hk1 as [[<- <-] | [Hne1 Hk1]];
      apply lookup_insert_Some in Hk2 as [[<- <-] | [Hne2 Hk2]]; try done.
    + apply lookup_insert_is_Some in Hch1 as [<- | [Hne Hch1]].
      * rewrite (Hfresh k2 subs2 Hk2) in Hch2. by destruct Hch2.
      * destruct (subscribers b !! pollID) as [subs|] eqn:Hk; simpl in Hch1;
          [| by rewrite lookup_empty in Hch1; destruct Hch1].
        by eapply Hone.
    + apply lookup_insert_is_Some in Hch2 as [<- | [Hne Hch2]].
      * rewrite (Hfresh k1 subs1 Hk1) in Hch1. by destruct Hch1.
      * destruct (subscribers b !! pollID) as [subs|] eqn:Hk; simpl in Hch2;
          [| by rewrite lookup_empty in Hch2; destruct Hch2].
        by eapply Hone.
    + by eapply Hone.
Qed.

(** The loop of [Broadcast] over distinct, open channels: no panic, and
    each of them gets the message if and only if it has room. *)
Lemma sendAll_spec cs ord data :
  NoDup ord ->
  (forall ch, ch ∈ ord -> exists c, cs !! ch = Some c /\ closed c = false) ->
  exists cs',
    sendAll cs ord data = (cs', None) /\
    length cs' = length cs /\
    forall ch c, cs !! ch = Some c ->
      cs' !! ch =
        Some (if decide (ch ∈ ord /\ (length (buf c) < cap c)%nat)
              then enqueued c data else c).
Proof.
  revert cs. induction ord as [|ch ord IH]; intros cs Hnd Hopen; cbn [sendAll].
  - exists cs. split_and!; [done | done |]. intros ch c Hc.
    rewrite decide_False; [done |]. intros [Hin _]. by apply elem_of_nil in Hin.
  - apply NoDup_cons in Hnd as [Hnotin Hnd].
    destruct (Hopen ch) as (c0 & Hc0 & Hclosed0); [left |].
    unfold trySend. rewrite Hc0, Hclosed0.
    set (cs1 := if decide (length (buf c0) < cap c0)%nat
                then <[ch := enqueued c0 data]> cs else cs).
    assert (length cs1 = length cs) as Hlen1.
    { subst cs1. case_decide; [by rewrite length_insert | done]. }
    assert (forall x, x <> ch -> cs1 !! x = cs !! x) as Hother.
    { intros x Hx. subst cs1. case_decide; [by rewrite list_lookup_insert_ne | done]. }
    assert (cs1 !! ch =
              Some (if decide (length (buf c0) < cap c0)%nat
                    then enqueued c0 data else c0)) as Hch1.
    { subst cs1. case_decide; [| done].
      apply list_lookup_insert_eq. by eapply lookup_lt_Some. }
    destruct (IH cs1 Hnd) as (cs' & Hsend & Hlen' & Hspec).
    { intros x Hx. rewrite Hother by (intros ->; done). apply Hopen. by right. }
    exists cs'. split_and!.
    + subst cs1. unfold enqueued in *. by case_decide.
    + lia.
    + intros x c Hc. destruct (decide (x = ch)) as [-> | Hne].
      * assert (c = c0) as -> by congruence.
        rewrite (Hspec ch _ Hch1).
        rewrite (decide_False (P := ch ∈ ord /\ _)) by (by intros [? _]).
        f_equal. destruct (decide (length (buf c0) < cap c0)%nat) as [Hroom | Hfull].
        -- rewrite decide_True; [done |]. split; [left | done].
        -- rewrite decide_False; [done |]. by intros [_ ?].
      * assert (cs1 !! x = Some c) as Hc1 by (by rewrite Hother).
        rewrite (Hspec x c Hc1). f_equal.
        destruct (decide (x ∈ ord /\ (length (buf c) < cap c)%nat)) as [[Hin Hroom] | Hno].
        -- rewrite decide_True; [done |]. split; [by right | done].
        -- rewrite decide_False; [done |].
           intros [[-> | Hin]%elem_of_cons Hroom]; [done | by apply Hno].
Qed.

Lemma Broadcast_registered ord cs b pollID data subs :
  wfNotifier cs b ->
  subscribers b !! pollID = Some subs -> ord ≡ₚ (map_to_list subs).*1 ->
  exists cs',
    Broadcast ord cs b pollID data = (cs', None) /\
    length cs' = length cs /\
    forall ch c, cs !! ch = Some c ->
      cs' !! ch =
        Some (if decide (is_Some (subs !! ch) /\ (length (buf c) < cap c)%nat)
              then enqueued c data else c).
Proof.
  intros [Hlive _] Hsubs Hord.
  assert (forall ch, ch ∈ ord <-> is_Some (subs !! ch)) as Hin.
  { intros ch. rewrite Hord, list_elem_of_fmap. split.
    - intros ([ch' v] & -> & Hin%elem_of_map_to_list). by eexists.
    - intros [v Hv]. exists (ch, v). split; [done | by apply elem_of_map_to_list]. }
  destruct (sendAll_spec cs ord data) as (cs' & Hsend & Hlen & Hspec).
  - rewrite Hord. apply NoDup_fst_map_to_list.
  - intros ch Hch%Hin. destruct (Hlive pollID subs ch Hsubs Hch) as (c & ? & ? & _).
    eauto.
  - exists cs'. unfold Broadcast. rewrite Hsubs. split_and!; [done | done |].
    intros ch c Hc. rewrite (Hspec ch c Hc). f_equal.
    destruct (decide (ch ∈ ord /\ (length (buf c) < cap c)%nat)) as [[Hch Hroom] | Hno].
    + rewrite decide_True; [done |]. split; [by apply Hin | done].
    + rewrite decide_False; [done |]. intros [Hch Hroom]. apply Hno.
      split; [by apply Hin | done].
Qed.

(** C5, as amended: in a notifier whose registered channels are open,
    [Broadcast] to a key without listeners changes nothing and raises
    nothing. Otherwise, in whatever order the listeners are visited, it
    returns without panic; every listener registered under the key whose
    buffer (of capacity 10) has room has the payload appended to it; a
    listener whose buffer is full keeps it as it is; and no other channel
    is touched. Two listeners subscribed to the same key one after the
    other both receive the payload of one broadcast. *)
Theorem Broadcast_delivers ord cs b pollID data
  (Hwf : wfNotifier cs b) :
  (subscribers b !! pollID = None -> Broadcast ord cs b pollID data = (cs, None)) /\
  (forall subs,
     subscribers b !! pollID = Some subs -> ord ≡ₚ (map_to_list subs).*1 ->
     exists cs',
       Broadcast ord cs b pollID data = (cs', None) /\
       length cs' = length cs /\
       (forall ch c, cs !! ch = Some c -> is_Some (subs !! ch) ->
          cap c = 10%nat /\
          ((length (buf c) < 10)%nat -> cs' !! ch = Some (enqueued c data)) /\
          ((10 <= length (buf c))%nat -> cs' !! ch = Some c)) /\
       (forall ch c, cs !! ch = Some c -> subs !! ch = None -> cs' !! ch = Some c) /\
       wfNotifier cs' b) /\
  (forall ord2,
     let '(cs1, b1, ch1) := Subscribe cs b pollID in
     let '(cs2, b2, ch2) := Subscribe cs1 b1 pollID in
     (forall subs, subscribers b2 !! pollID = Some subs ->
        ord2 ≡ₚ (map_to_list subs).*1) ->
     exists cs3,
       Broadcast ord2 cs2 b2 pollID data = (cs3, None) /\
       ch1 <> ch2 /\
       (exists cs4, Recv cs3 ch1 = Some (cs4, data)) /\
       (exists cs5, Recv cs3 ch2 = Some (cs5, data))).
Proof.
  split_and!.
  - intros Hnone. unfold Broadcast. by rewrite Hnone.
  - intros subs Hsubs Hord.
    destruct (Broadcast_registered ord cs b pollID data subs Hwf Hsubs Hord)
      as (cs' & HB & Hlen & Hspec).
    exists cs'. split_and!; [done | done | | |].
    + intros ch c Hc Hreg. destruct Hwf as [Hlive _].
      destruct (Hlive pollID subs ch Hsubs Hreg) as (c' & Hc' & _ & Hcap).
      assert (c' = c) as -> by congruence. rewrite (Hspec ch c Hc), Hcap.
      split_and!; [done | |].
      * intros Hroom. by rewrite decide_True.
      * intros Hfull. rewrite decide_False; [done |]. intros [_ ?]. lia.
    + intros ch c Hc Hnone. rewrite (Hspec ch c Hc).
      rewrite decide_False; [done |]. intros [[v Hv] _]. congruence.
    + destruct Hwf as [Hlive Hone]. split; [| done].
      intros key subs' ch Hk Hch.
      destruct (Hlive key subs' ch Hk Hch) as (c & Hc & Hopen & Hcap).
      rewrite (Hspec ch c Hc). case_decide; eauto.
  - intros ord2.
    pose proof (Subscribe_wf cs b pollID Hwf) as Hwf1.
    pose proof (Subscribe_wf _ _ pollID Hwf1) as Hwf2.
    unfold Subscribe in *. cbn [fst snd] in *.
    set (old := default ∅ (subscribers b !! pollID)) in *.
    set (fresh := mkChan [] 10 false) in *.
    set (b1 := mkBroadcaster (<[pollID := <[length cs := true]> old]> (subscribers b)))
      in *.
    assert (default ∅ (subscribers b1 !! pollID) = <[length cs := true]> old) as Hold1.
    { subst b1. simpl. by rewrite lookup_insert_eq. }
    rewrite Hold1 in *.
    set (subs2 := <[length (cs ++ [fresh]) := true]> (<[length cs := true]> old)) in *.
    set (b2 := mkBroadcaster (<[pollID := subs2]> (subscribers b1))) in *.
    assert (subscribers b2 !! pollID = Some subs2) as Hsubs2
      by (subst b2; simpl; apply lookup_insert_eq).
    assert (length (cs ++ [fresh]) = S (length cs)) as Hlen1
      by (rewrite length_app; simpl; lia).
    intros Hord2. specialize (Hord2 subs2 Hsubs2).
    destruct (Broadcast_registered ord2 _ _ pollID data subs2 Hwf2 Hsubs2 Hord2)
      as (cs3 & HB & Hlen3 & Hspec).
    assert (forall ch, ((cs ++ [fresh]) ++ [fresh]) !! ch = Some fresh ->
              is_Some (subs2 !! ch) ->
              exists cs4, Recv cs3 ch = Some (cs4, data)) as Hrecv.
    { intros ch Hch Hreg. unfold Recv. rewrite (Hspec ch fresh Hch).
      rewrite decide_True by (split; [done | simpl; lia]). simpl. eauto. }
    exists cs3. split_and!; [done | lia | |].
    + apply Hrecv.
      * rewrite lookup_app_l by (rewrite Hlen1; lia).
        rewrite lookup_app_r by lia. by rewrite Nat.sub_diag.
      * subst subs2. rewrite lookup_insert_ne by lia. rewrite lookup_insert_eq. eauto.
    + apply Hrecv.
      * rewrite lookup_app_r by lia. by rewrite Nat.sub_diag.
      * subst subs2. rewrite lookup_insert_eq. eauto.
Qed.

Lemma wfNotifier_one_key cs key subs :
  (forall ch, is_Some (subs !! ch) ->
     exists c, cs !! ch = Some c /\ closed c = false /\ cap c = 10%nat) ->
  wfNotifier cs (mkBroadcaster {[key := subs]}).
Proof.
  intros Hlive. split.
  - intros k subs' ch. simpl. intros [<- <-]%lookup_singleton_Some. apply Hlive.
  - intros k1 k2 subs1 subs2 ch. simpl.
    intros [<- <-]%lookup_singleton_Some [<- <-]%lookup_singleton_Some. done.
Qed.

Lemma exNotifier_wf : wfNotifier exChans exBroadcaster.
Proof.
  apply wfNotifier_one_key. intros ch. unfold exSubs.
  intros [<- | [_ Hch]]%lookup_insert_is_Some; [by eexists |].
  apply lookup_singleton_is_Some in Hch as <-. by eexists.
Qed.

(** [Broadcast_delivers] on the example: the full buffer is left alone,
    the other one receives the payload. *)
Lemma Broadcast_delivers_witness :
  exists cs',
    Broadcast (map_to_list exSubs).*1 exChans exBroadcaster "p1" "hello" = (cs', None) /\
    cs' !! 0%nat = Some fullChan /\
    cs' !! 1%nat = Some (mkChan ["x"; "hello"]%string 10 false).
Proof.
  destruct (Broadcast_delivers (map_to_list exSubs).*1 exChans exBroadcaster
              "p1" "hello" exNotifier_wf) as (_ & Hsome & _).
  destruct (Hsome exSubs) as (cs' & HB & _ & Hreg & _); [reflexivity | reflexivity |].
  exists cs'. split_and!; [exact HB | |].
  - destruct (Hreg 0%nat fullChan) as (_ & _ & Hfull); [reflexivity | by eexists |].
    apply Hfull. simpl. lia.
  - destruct (Hreg 1%nat (mkChan ["x"%string] 10 false)) as (_ & Hroom & _);
      [reflexivity | by eexists |].
    apply Hroom. simpl. lia.
Defined.

(** C5 fails as stated in a notifier where a registered channel was
    closed, here by an [Unsubscribe] under another key: the channel has
    room, and the attempt to send on it panics. *)
Lemma Broadcast_closed_counterexample :
  let '(cs1, b1, ch1) := Subscribe [] NewBroadcaster "p1" in
  let '(cs2, b2, ch2) := Subscribe cs1 b1 "p2" in
  let '(cs3, b3, _) := Unsubscribe cs2 b2 "p2" ch1 in
  subscribers b3 !! "p1"%string = Some {[ch1 := true]} /\
  cs3 !! ch1 = Some (mkChan [] 10 true) /\
  Broadcast [ch1] cs3 b3 "p1" "hello" = (cs3, Some "send on closed channel"%string).
Proof. vm_compute. split_and!; reflexivity. Qed.

(** ** Unsubscribe *)

Lemma Unsubscribe_open cs b pollID ch subs c :
  subscribers b !! pollID = Some subs -> cs !! ch = Some c -> closed c = false ->
  Unsubscribe cs b pollID ch =
    (<[ch := mkChan (buf c) (cap c) true]> cs,
     mkBroadcaster (<[pollID := delete ch subs]> (subscribers b)),
     None).
Proof.
  intros Hsubs Hc Hopen. unfold Unsubscribe, closeChan. by rewrite Hsubs, Hc, Hopen.
Qed.

Lemma Unsubscribe_closed cs b pollID ch subs c :
  subscribers b !! pollID = Some subs -> cs !! ch = Some c -> closed c = true ->
  Unsubscribe cs b pollID ch =
    (cs, mkBroadcaster (<[pollID := delete ch subs]> (subscribers b)),
     Some "close of closed channel"%string).
Proof.
  intros Hsubs Hc Hclosed. unfold Unsubscribe, closeChan.
  by rewrite Hsubs, Hc, Hclosed.
Qed.

Lemma Unsubscribe_wf cs b pollID ch subs c :
  wfNotifier cs b ->
  subscribers b !! pollID = Some subs -> is_Some (subs !! ch) -> cs !! ch = Some c ->
  wfNotifier (<[ch := mkChan (buf c) (cap c) true]> cs)
             (mkBroadcaster (<[pollID := delete ch subs]> (subscribers b))).
Proof.
  intros [Hlive Hone] Hsubs Hreg Hc.
  assert (forall key subs' x,
            <[pollID := delete ch subs]> (subscribers b) !! key = Some subs' ->
            is_Some (subs' !! x) ->
            x <> ch /\ exists subs0, subscribers b !! key = Some subs0 /\
                                     is_Some (subs0 !! x)) as Hback.
  { intros key subs' x [[<- <-] | [Hne Hk]]%lookup_insert_Some Hx.
    - destruct Hx as [v Hv]. apply lookup_delete_Some in Hv as [Hne Hv].
      split; [done |]. exists subs. by split; [| eexists].
    - split; [| by exists subs'].
      intros ->. apply Hne. by eapply (Hone pollID key subs subs' ch). }
  split.
  - intros key subs' x Hk Hx. simpl in Hk.
    destruct (Hback key subs' x Hk Hx) as (Hne & subs0 & Hk0 & Hx0).
    destruct (Hlive key subs0 x Hk0 Hx0) as (cx & Hcx & ? & ?).
    exists cx. by rewrite list_lookup_insert_ne.
  - intros k1 k2 subs1 subs2 x Hk1 Hk2 Hx1 Hx2. simpl in Hk1, Hk2.
    destruct (Hback k1 subs1 x Hk1 Hx1) as (_ & s1 & Hs1 & Hx1').
    destruct (Hback k2 subs2 x Hk2 Hx2) as (_ & s2 & Hs2 & Hx2').
    by eapply (Hone k1 k2 s1 s2 x).
Qed.

(** C4, as amended: [Unsubscribe] is a no-op for a key that never had a
    listener. For a key that has a listener set, the handle is deleted
    from the set (a no-op on the set when it is not in it) and its
    channel is closed whether or not it was in the set: for a registered
    handle this removes it and releases its buffer, leaving every other
    listener registered and open; but for a channel already closed,
    as on a second [Unsubscribe] of the same handle, [close] panics
    with "close of closed channel". *)
Theorem Unsubscribe_spec cs b pollID ch :
  (subscribers b !! pollID = None -> Unsubscribe cs b pollID ch = (cs, b, None)) /\
  (forall subs c,
     subscribers b !! pollID = Some subs -> cs !! ch = Some c -> closed c = false ->
     Unsubscribe cs b pollID ch =
       (<[ch := mkChan (buf c) (cap c) true]> cs,
        mkBroadcaster (<[pollID := delete ch subs]> (subscribers b)),
        None) /\
     delete ch subs !! ch = None /\
     (forall ch', ch' <> ch -> delete ch subs !! ch' = subs !! ch') /\
     (wfNotifier cs b -> is_Some (subs !! ch) ->
      wfNotifier (<[ch := mkChan (buf c) (cap c) true]> cs)
                 (mkBroadcaster (<[pollID := delete ch subs]> (subscribers b))))) /\
  (forall subs c,
     subscribers b !! pollID = Some subs -> cs !! ch = Some c -> closed c = true ->
     Unsubscribe cs b pollID ch =
       (cs, mkBroadcaster (<[pollID := delete ch subs]> (subscribers b)),
        Some "close of closed channel"%string)) /\
  (forall subs c,
     subscribers b !! pollID = Some subs -> cs !! ch = Some c -> closed c = false ->
     let '(cs1, b1, _) := Unsubscribe cs b pollID ch in
     Unsubscribe cs1 b1 pollID ch = (cs1, b1, Some "close of closed channel"%string)).
Proof.
  split_and!.
  - intros Hnone. unfold Unsubscribe. by rewrite Hnone.
  - intros subs c Hsubs Hc Hopen. split_and!.
    + by apply Unsubscribe_open.
    + apply lookup_delete_eq.
    + intros ch' Hne. by apply lookup_delete_ne.
    + intros Hwf Hreg. by eapply Unsubscribe_wf.
  - intros subs c. apply Unsubscribe_closed.
  - intros subs c Hsubs Hc Hopen.
    rewrite (Unsubscribe_open cs b pollID ch subs c Hsubs Hc Hopen).
    rewrite (Unsubscribe_closed _ _ pollID ch (delete ch subs)
               (mkChan (buf c) (cap c) true)).
    + simpl. by rewrite insert_insert_eq, delete_delete_eq.
    + simpl. apply lookup_insert_eq.
    + apply list_lookup_insert_eq. by eapply lookup_lt_Some.
    + done.
Qed.

(** [Unsubscribe_spec] on the example: listener 1 leaves. *)
Lemma Unsubscribe_spec_witness :
  Unsubscribe exChans exBroadcaster "p1" 1 =
    ([fullChan; mkChan ["x"%string] 10 true],
     mkBroadcaster (<["p1"%string := delete 1%nat exSubs]> {["p1"%string := exSubs]}),
     None) /\
  Unsubscribe exChans exBroadcaster "p2" 1 = (exChans, exBroadcaster, None).
Proof.
  destruct (Unsubscribe_spec exChans exBroadcaster "p1" 1) as (_ & Hopen & _).
  destruct (Unsubscribe_spec exChans exBroadcaster "p2" 1) as (Hnone & _).
  split.
  - apply (Hopen exSubs (mkChan ["x"%string] 10 false)); reflexivity.
  - apply Hnone. reflexivity.
Defined.

(** C4 fails as stated: the second [Unsubscribe] of a handle panics;
    and an [Unsubscribe] under a key the handle is not registered under
    is no no-op: it closes the channel, which stays registered under its
    own key. *)
Lemma Unsubscribe_counterexample :
  (let '(cs1, b1, ch) := Subscribe [] NewBroadcaster "p1" in
   let '(cs2, b2, panic2) := Unsubscribe cs1 b1 "p1" ch in
   let '(cs3, b3, panic3) := Unsubscribe cs2 b2 "p1" ch in
   panic2 = None /\ panic3 = Some "close of closed channel"%string) /\
  (let '(cs1, b1, ch1) := Subscribe [] NewBroadcaster "p1" in
   let '(cs2, b2, ch2) := Subscribe cs1 b1 "p2" in
   let '(cs3, b3, panic3) := Unsubscribe cs2 b2 "p2" ch1 in
   panic3 = None /\
   cs2 !! ch1 = Some (mkChan [] 10 false) /\
   cs3 !! ch1 = Some (mkChan [] 10 true) /\
   subscribers b3 !! "p1"%string = Some {[ch1 := true]}).
Proof.
  split.
  - vm_compute. done.
  - vm_compute. split_and!; reflexivity.
Qed.

(** * Further properties of the code *)

(** ** Delete *)

(** X1: [Delete] of an identifier that is not stored returns [false] and
    leaves the store as it is; [Delete] of a stored one returns [true],
    removes that entry and no other, after which [Get] finds nothing,
    [Vote] answers "poll not found" without touching the heap, and a
    second [Delete] returns [false]. *)
Theorem Delete_spec h s id :
  (polls s !! id = None -> Delete s id = (s, false)) /\
  (forall p, polls s !! id = Some p ->
     exists s',
       Delete s id = (s', true) /\
       polls s' !! id = None /\
       (forall id', id' <> id -> polls s' !! id' = polls s !! id') /\
       Get h s' id = Some (h, None) /\
       (forall now optionID, Vote now h s' id optionID = Some (h, inr PollNotFound)) /\
       Delete s' id = (s', false)).
Proof.
  split.
  - intros Hnone. unfold Delete. by rewrite Hnone.
  - intros p Hp. exists (mkStore (delete id (polls s))).
    assert (delete id (polls s) !! id = None) as Hgone by apply lookup_delete_eq.
    split_and!.
    + unfold Delete. by rewrite Hp.
    + done.
    + intros id' Hne. simpl. by apply lookup_delete_ne.
    + unfold Get. simpl. by rewrite Hgone.
    + intros now optionID. unfold Vote. simpl. by rewrite Hgone.
    + unfold Delete. simpl. by rewrite Hgone.
Qed.

(** [Delete_spec] on the example store. *)
Lemma Delete_spec_witness :
  Delete exStore "nope" = (exStore, false) /\
  exists s', Delete exStore "p1" = (s', true) /\
    Get exHeap s' "p1" = Some (exHeap, None) /\
    Vote 50 exHeap s' "p1" "a" = Some (exHeap, inr PollNotFound).
Proof.
  destruct (Delete_spec exHeap exStore "nope") as [Hnone _].
  destruct (Delete_spec exHeap exStore "p1") as [_ Hsome].
  split; [by apply Hnone |].
  destruct (Hsome 0%nat eq_refl) as (s' & HD & _ & _ & HG & HV & _).
  exists s'. split_and!; [exact HD | exact HG | apply HV].
Defined.

(** ** Identifiers *)

Lemma DecodeString_EncodeToString src : DecodeString (EncodeToString src) = Some src.
Proof.
  induction src as [|b src IH]; [done |].
  cbn [EncodeToString DecodeString]. rewrite IH.
  by destruct b.
Qed.

Lemma EncodeToString_length src : String.length (EncodeToString src) = (2 * length src)%nat.
Proof. induction src as [|b src IH]; simpl; [done | rewrite IH; lia]. Qed.

Lemma hexDigit_hex n : hexDigit n ∈ hextable.
Proof.
  unfold hexDigit. apply list_elem_of_In.
  destruct (nth_in_or_default (N.to_nat n) hextable "0"%char) as [Hin | ->];
    [done | by left].
Qed.

Lemma EncodeToString_hex src :
  Forall (fun c => c ∈ hextable) (list_ascii_of_string (EncodeToString src)).
Proof.
  induction src as [|b src IH]; simpl; [constructor |].
  constructor; [apply hexDigit_hex |]. constructor; [apply hexDigit_hex | done].
Qed.

(** X2: [generateID] returns eight characters, each a lowercase
    hexadecimal digit, and different random bytes give different
    identifiers. *)
Theorem generateID_spec rnd rnd' :
  String.length (generateID rnd) = 8%nat /\
  Forall (fun c => c ∈ hextable) (list_ascii_of_string (generateID rnd)) /\
  (generateID rnd = generateID rnd' -> rnd = rnd').
Proof.
  destruct rnd as [[[b0 b1] b2] b3], rnd' as [[[c0 c1] c2] c3].
  unfold generateID. split_and!.
  - by rewrite EncodeToString_length.
  - apply EncodeToString_hex.
  - intros Heq.
    assert (Some [b0; b1; b2; b3] = Some [c0; c1; c2; c3]) as Hbytes.
    { by rewrite <- !DecodeString_EncodeToString, Heq. }
    by simplify_eq.
Qed.

(** [generateID_spec] on two draws. *)
Lemma generateID_spec_witness :
  generateID (Byte.x01, Byte.xab, Byte.x00, Byte.xff) = "01ab00ff"%string /\
  (generateID (Byte.x01, Byte.xab, Byte.x00, Byte.xff)
     = generateID (Byte.x01, Byte.xab, Byte.x00, Byte.xff) ->
   (Byte.x01, Byte.xab, Byte.x00, Byte.xff) = (Byte.x01, Byte.xab, Byte.x00, Byte.xff)).
Proof.
  split; [reflexivity |].
  apply (generateID_spec (Byte.x01, Byte.xab, Byte.x00, Byte.xff)
           (Byte.x01, Byte.xab, Byte.x00, Byte.xff)).
Defined.

(** ** Expiry *)

Lemma step_ExpiresAt sortSlice op h s h' s' q o :
  step sortSlice op (h, s) = Some (h', s') -> pollObjs h !! q = Some o ->
  exists o', pollObjs h' !! q = Some o' /\ ExpiresAt o' = ExpiresAt o.
Proof.
  intros Hstep Hq.
  destruct (decide (q ∈ createdBy [op])) as [Hin | Hnot].
  - destruct op as [id qn opts e | rnd now poll | id | now pid oid | ord | id];
      try (by apply elem_of_nil in Hin).
    apply list_elem_of_singleton in Hin as ->. simpl in Hstep.
    rewrite (Create_Some _ _ _ _ _ o Hq) in Hstep. injection Hstep as <- <-.
    eexists. split; [apply list_lookup_insert_eq; by eapply lookup_lt_Some | done].
  - exists o. split; [by eapply step_object | done].
Qed.

Lemma run_ExpiresAt sortSlice ops h s h' s' q o :
  run sortSlice ops (h, s) = Some (h', s') -> pollObjs h !! q = Some o ->
  exists o', pollObjs h' !! q = Some o' /\ ExpiresAt o' = ExpiresAt o.
Proof.
  revert h s o. induction ops as [|op ops IH]; intros h s o.
  - intros [= <- <-] Hq. eauto.
  - intros ([h1 s1] & Hstep & Hrun)%run_cons_inv Hq.
    destruct (step_ExpiresAt _ _ _ _ _ _ _ _ Hstep Hq) as (o1 & Hq1 & He1).
    destruct (IH _ _ _ Hrun Hq1) as (o' & Hq' & He'). exists o'. split; [done | congruence].
Qed.

(** X3: a poll without expiry instant never expires, a poll is not yet
    expired at its expiry instant, and expiry is permanent: once
    [IsExpired] holds of a stored poll, then after any sequence of store
    operations and at any later time, as long as the poll is stored
    under its identifier, [Vote] answers "poll has expired" whatever the
    option, and changes nothing. *)
Theorem expired_stays_expired sortSlice ops h s h' s' id p o now now' optionID
  (Hp : polls s !! id = Some p)
  (Ho : pollObjs h !! p = Some o)
  (Hrun : run sortSlice ops (h, s) = Some (h', s'))
  (Hp' : polls s' !! id = Some p) :
  (ExpiresAt o = 0 -> IsExpired now o = false) /\
  IsExpired (ExpiresAt o) o = false /\
  (IsExpired now o = true -> now <= now' ->
   Vote now' h' s' id optionID = Some (h', inr PollExpired)).
Proof.
  split_and!.
  - intros Hz. unfold IsExpired, IsZero. by rewrite Hz.
  - unfold IsExpired, IsZero, After. destruct (ExpiresAt o =? 0); [done |].
    apply Z.ltb_irrefl.
  - intros [Hset Hpast]%IsExpired_true Hlater.
    destruct (run_ExpiresAt _ _ _ _ _ _ _ _ Hrun Ho) as (o' & Ho' & He').
    unfold Vote. rewrite Hp', Ho'. simpl.
    rewrite (proj2 (IsExpired_true now' o')); [done |]. rewrite He'. lia.
Qed.

(** [expired_stays_expired] on a poll that expired at instant 40 and was
    voted on, read and listed since. *)
Lemma expired_stays_expired_witness :
  let h := mkHeap [mkPoll "p1" "Tabs or spaces?" (mkSlice 0 2) 10 40] exOpts in
  exists h',
    run insertionSort [OpVote 45 "p1" "a"; OpGet "p1"; OpList [("p1"%string, 0%nat)]]
      (h, exStore) = Some (h', exStore) /\
    Vote 60 h' exStore "p1" "b" = Some (h', inr PollExpired).
Proof.
  intros h.
  destruct (run insertionSort
              [OpVote 45 "p1" "a"; OpGet "p1"; OpList [("p1"%string, 0%nat)]]
              (h, exStore)) as [[h' s']|] eqn:Hrun; [| by vm_compute in Hrun].
  assert (s' = exStore) as -> by (vm_compute in Hrun; by injection Hrun as _ <-).
  exists h'. split; [done |].
  apply (expired_stays_expired insertionSort _ h exStore h' exStore "p1" 0%nat
           (mkPoll "p1" "Tabs or spaces?" (mkSlice 0 2) 10 40) 45 60 "b"
           eq_refl eq_refl Hrun eq_refl); [reflexivity | lia].
Defined.

(** ** Totals *)

Lemma wrapInt_add_l a b : wrapInt (wrapInt a + b) = wrapInt (a + b).
Proof.
  unfold wrapInt. f_equal.
  replace ((a + 2 ^ 63) mod 2 ^ 64 - 2 ^ 63 + b + 2 ^ 63)
    with ((a + 2 ^ 63) mod 2 ^ 64 + b) by lia.
  rewrite Zplus_mod_idemp_l. f_equal. lia.
Qed.

Lemma fold_total_wrap opts acc :
  fold_left (fun total opt => wrapInt (total + Votes opt)) opts (wrapInt acc) =
  wrapInt (acc + sumVotes opts).
Proof.
  revert acc. induction opts as [|opt opts IH]; intros acc; simpl.
  - f_equal. lia.
  - rewrite wrapInt_add_l, IH. f_equal. lia.
Qed.

Lemma TotalVotes_wrap opts : TotalVotes opts = wrapInt (sumVotes opts).
Proof.
  unfold TotalVotes. change 0 with (wrapInt 0) at 1. by rewrite fold_total_wrap.
Qed.

Lemma sumVotes_Permutation opts opts' : opts ≡ₚ opts' -> sumVotes opts = sumVotes opts'.
Proof. induction 1; simpl; lia. Qed.

Lemma sumVotes_insert opts i old new :
  opts !! i = Some old ->
  sumVotes (<[i := new]> opts) = sumVotes opts - Votes old + Votes new.
Proof.
  revert i. induction opts as [|x opts IH]; intros [|i] Hi; simplify_eq/=; [lia |].
  rewrite (IH i Hi). lia.
Qed.

(** X4: [TotalVotes] of a poll is the sum of its counters reduced to an
    [int] (modulo 2^64), so it is 0 for a poll without options, is the
    exact sum whenever that fits an [int], and does not depend on the
    order of the options. *)
Theorem TotalVotes_spec opts opts' :
  TotalVotes [] = 0 /\
  TotalVotes opts = wrapInt (sumVotes opts) /\
  isInt (TotalVotes opts) /\
  (isInt (sumVotes opts) -> TotalVotes opts = sumVotes opts) /\
  (opts ≡ₚ opts' -> TotalVotes opts = TotalVotes opts').
Proof.
  split_and!.
  - reflexivity.
  - apply TotalVotes_wrap.
  - rewrite TotalVotes_wrap. apply wrapInt_isInt.
  - intros Hint. rewrite TotalVotes_wrap. by apply wrapInt_id.
  - intros Hperm. by rewrite !TotalVotes_wrap, (sumVotes_Permutation _ _ Hperm).
Qed.

(** [TotalVotes_spec] on the options of the example poll. *)
Lemma TotalVotes_spec_witness :
  TotalVotes exOpts = 8 /\ TotalVotes exOpts = TotalVotes (reverse exOpts).
Proof.
  destruct (TotalVotes_spec exOpts (reverse exOpts)) as (_ & _ & _ & Hexact & Hperm).
  split.
  - apply Hexact. vm_compute. split; discriminate.
  - apply Hperm. vm_compute. apply perm_swap.
Defined.

(** ** What a vote writes *)

Lemma wrapInt_add_r a b : wrapInt (a + wrapInt b) = wrapInt (a + b).
Proof. rewrite (Z.add_comm a), wrapInt_add_l. f_equal. lia. Qed.

Lemma Vote_inl_inv now h s pollID optionID h' c :
  slicesValid h -> Vote now h s pollID optionID = Some (h', inl c) ->
  exists poll o opts i opt,
    polls s !! pollID = Some poll /\ pollObjs h !! poll = Some o /\
    IsExpired now o = false /\
    loadSlice h (Options o) = Some opts /\
    findOption optionID opts = Some (i, opt) /\
    (i < len (Options o))%nat /\
    optCells h !! (ptr (Options o) + i)%nat = Some opt /\
    c = length (pollObjs h) /\
    h' = mkHeap
           (pollObjs h ++
              [mkPoll (ID o) (Question o)
                 (mkSlice (length (optCells h)) (len (Options o)))
                 (CreatedAt o) (ExpiresAt o)])
           (<[(ptr (Options o) + i)%nat := incrVotes opt]> (optCells h) ++
              <[i := incrVotes opt]> opts).
Proof.
  intros Hs HV.
  destruct (polls s !! pollID) as [poll|] eqn:Hpoll;
    [| unfold Vote in HV; rewrite Hpoll in HV; discriminate].
  destruct (pollObjs h !! poll) as [o|] eqn:Ho;
    [| unfold Vote in HV; rewrite Hpoll, Ho in HV; discriminate].
  destruct (IsExpired now o) eqn:Hexp;
    [unfold Vote in HV; rewrite Hpoll, Ho in HV; simpl in HV; rewrite Hexp in HV;
     discriminate |].
  destruct (loadSlice h (Options o)) as [opts|] eqn:Hl;
    [| unfold Vote in HV; rewrite Hpoll, Ho in HV; simpl in HV;
       rewrite Hexp, Hl in HV; discriminate].
  destruct (findOption optionID opts) as [[i opt]|] eqn:Hfind;
    [| unfold Vote in HV; rewrite Hpoll, Ho in HV; simpl in HV;
       rewrite Hexp, Hl in HV; simpl in HV; rewrite Hfind in HV; discriminate].
  destruct (Vote_found now h s pollID optionID poll o opts i opt) as [_ HV'];
    try done.
  rewrite HV' in HV. injection HV as <- <-.
  pose proof (proj1 (findOption_Some _ _ _ _) Hfind) as (Hi & _ & _).
  pose proof (loadSlice_Some _ _ _ Hl) as (_ & Hlen & Hcells).
  assert (i < len (Options o))%nat as Hlt by (apply lookup_lt_Some in Hi; lia).
  exists poll, o, opts, i, opt. split_and!; try done.
  by rewrite <- Hcells.
Qed.

Lemma loadSlice_fresh cells opts :
  forall objs,
  loadSlice (mkHeap objs (cells ++ opts)) (mkSlice (length cells) (length opts)) =
    Some opts.
Proof.
  intros objs. unfold loadSlice. simpl.
  rewrite decide_True by (rewrite length_app; lia).
  by rewrite drop_app_length, firstn_all.
Qed.

(** X5: a successful [Vote] raises the poll's [TotalVotes] by exactly
    one, as an [int]: the total of the returned snapshot is the total
    before plus one, reduced modulo 2^64, and is the total before plus
    one whenever that is an [int]. *)
Theorem Vote_total now h s pollID optionID h' c
  (Hs : slicesValid h)
  (Hvote : Vote now h s pollID optionID = Some (h', inl c)) :
  exists poll v v',
    polls s !! pollID = Some poll /\
    readPoll h poll = Some v /\ readPoll h' c = Some v' /\
    TotalVotes (vOptions v') = wrapInt (TotalVotes (vOptions v) + 1) /\
    (isInt (TotalVotes (vOptions v) + 1) ->
     TotalVotes (vOptions v') = TotalVotes (vOptions v) + 1).
Proof.
  destruct (Vote_inl_inv _ _ _ _ _ _ _ Hs Hvote)
    as (poll & o & opts & i & opt & Hpoll & Ho & _ & Hl & Hfind & Hi & _ & -> & ->).
  pose proof (proj1 (findOption_Some _ _ _ _) Hfind) as (Hopt & _ & _).
  pose proof (loadSlice_Some _ _ _ Hl) as (_ & Hlen & _).
  assert (TotalVotes (<[i := incrVotes opt]> opts) = wrapInt (TotalVotes opts + 1))
    as Htotal.
  { rewrite !TotalVotes_wrap, (sumVotes_insert _ _ opt) by done. simpl.
    rewrite wrapInt_add_r, wrapInt_add_l. f_equal. lia. }
  exists poll, (mkView (ID o) (Question o) opts (CreatedAt o) (ExpiresAt o)),
    (mkView (ID o) (Question o) (<[i := incrVotes opt]> opts) (CreatedAt o)
       (ExpiresAt o)).
  split_and!; try done.
  - unfold readPoll. rewrite Ho. simpl. by rewrite Hl.
  - unfold readPoll. simpl. rewrite lookup_app_r by lia. rewrite Nat.sub_diag. simpl.
    replace (length (optCells h))
      with (length (<[(ptr (Options o) + i)%nat := incrVotes opt]> (optCells h)))
      by apply length_insert.
    replace (len (Options o)) with (length (<[i := incrVotes opt]> opts))
      by (rewrite length_insert; done).
    by rewrite loadSlice_fresh.
  - simpl. intros Hint. rewrite Htotal. by apply wrapInt_id.
Qed.

(** [Vote_total] on the example poll: the total goes from 8 to 9. *)
Lemma Vote_total_witness :
  exists h' c v',
    Vote 0 exHeap exStore "p1" "b" = Some (h', inl c) /\
    readPoll h' c = Some v' /\ TotalVotes (vOptions v') = 9.
Proof.
  destruct (Vote 0 exHeap exStore "p1" "b") as [[h' [c|e]]|] eqn:HV;
    [| by vm_compute in HV | by vm_compute in HV].
  destruct (Vote_total 0 exHeap exStore "p1" "b" h' c (proj1 (proj1 exWf)) HV)
    as (poll & v & v' & Hpoll & Hv & Hv' & _ & Hexact).
  exists h', c, v'. split_and!; [done | done |].
  assert (poll = 0%nat) as -> by (vm_compute in Hpoll; congruence).
  assert (vOptions v = exOpts) as Hopts by (vm_compute in Hv; by injection Hv as <-).
  rewrite Hexact; rewrite Hopts; [reflexivity | vm_compute; split; discriminate].
Defined.

(** X6: a successful [Vote] writes one cell and nothing else: the
    counter of the chosen option of the stored poll. Every other cell
    and every poll object are as before, so every poll whose options do
    not lie over that cell reads as before. *)
Theorem Vote_frame now h s pollID optionID h' c
  (Hs : slicesValid h)
  (Hvote : Vote now h s pollID optionID = Some (h', inl c)) :
  exists poll o i opt,
    polls s !! pollID = Some poll /\ pollObjs h !! poll = Some o /\
    (i < len (Options o))%nat /\ OptID opt = optionID /\
    optCells h !! (ptr (Options o) + i)%nat = Some opt /\
    optCells h' !! (ptr (Options o) + i)%nat = Some (incrVotes opt) /\
    (forall a, a <> (ptr (Options o) + i)%nat -> (a < length (optCells h))%nat ->
       optCells h' !! a = optCells h !! a) /\
    (forall q oq, pollObjs h !! q = Some oq -> pollObjs h' !! q = Some oq) /\
    (forall q oq, pollObjs h !! q = Some oq ->
       ~ inSlice (Options oq) (ptr (Options o) + i)%nat ->
       readPoll h' q = readPoll h q).
Proof.
  destruct (Vote_inl_inv _ _ _ _ _ _ _ Hs Hvote)
    as (poll & o & opts & i & opt & Hpoll & Ho & _ & Hl & Hfind & Hi & Hcell & -> & ->).
  pose proof (proj1 (findOption_Some _ _ _ _) Hfind) as (_ & Hid & _).
  pose proof (lookup_lt_Some _ _ _ Hcell) as Ha.
  exists poll, o, i, opt. split_and!; try done; simpl.
  - rewrite lookup_app_l by (rewrite length_insert; lia).
    by apply list_lookup_insert_eq.
  - intros a' Hne Hlt. rewrite lookup_app_l by (rewrite length_insert; lia).
    by apply list_lookup_insert_ne.
  - intros q oq Hq. by apply lookup_app_l_Some.
  - intros q oq Hq Hout. apply readPoll_ext; [done | | |]; simpl.
    + apply lookup_app_l. by eapply lookup_lt_Some.
    + rewrite length_app, length_insert. lia.
    + intros o' a' Hq' Hin. assert (o' = oq) as -> by congruence.
      pose proof (Hs q oq Hq) as Hv. unfold validSlice in Hv. destruct Hin as [? ?].
      rewrite lookup_app_l by (rewrite length_insert; lia).
      apply list_lookup_insert_ne. intros <-. apply Hout. split; lia.
Qed.

(** [Vote_frame] on a store of two polls: a vote for the first leaves
    the second as it was. *)
Lemma Vote_frame_witness :
  let h := mkHeap [mkPoll "p1" "Tabs or spaces?" (mkSlice 0 2) 100 0;
                   mkPoll "p2" "Vim or Emacs?" (mkSlice 2 1) 200 0]
             [mkOption "a" "Tabs" 3; mkOption "b" "Spaces" 5; mkOption "v" "Vim" 1] in
  let s := mkStore (<["p2"%string := 1%nat]> {["p1"%string := 0%nat]}) in
  exists h' c,
    Vote 0 h s "p1" "b" = Some (h', inl c) /\ readPoll h' 1%nat = readPoll h 1%nat.
Proof.
  intros h s.
  assert (slicesValid h) as Hs.
  { intros [|[|q]] o Hq; simplify_eq/=; unfold validSlice; simpl; lia. }
  destruct (Vote 0 h s "p1" "b") as [[h' [c|e]]|] eqn:HV;
    [| by vm_compute in HV | by vm_compute in HV].
  destruct (Vote_frame 0 h s "p1" "b" h' c Hs HV)
    as (poll & o & i & opt & Hpoll & Ho & Hi & _ & _ & _ & _ & _ & Hread).
  exists h', c. split; [done |].
  assert (poll = 0%nat) as -> by (vm_compute in Hpoll; congruence).
  assert (o = mkPoll "p1" "Tabs or spaces?" (mkSlice 0 2) 100 0) as ->
    by (vm_compute in Ho; congruence).
  apply (Hread 1%nat (mkPoll "p2" "Vim or Emacs?" (mkSlice 2 1) 200 0) eq_refl).
  unfold inSlice. simpl in *. lia.
Defined.

(** ** Readers *)

(** X7: [Get] and [List] only allocate: whatever they return, every
    poll object and every cell that existed before the call exists
    unchanged after it, so every pointer held before reads the same
    poll. *)
Theorem readers_read_only sortSlice ord h s id h' q
  (Hs : slicesValid h)
  (Hq : (q < length (pollObjs h))%nat)
  (Hcall : (exists r, Get h s id = Some (h', r)) \/
           (exists cs, List sortSlice ord h s = Some (h', cs))) :
  extends h h' /\ pollObjs h' !! q = pollObjs h !! q /\
  readPoll h' q = readPoll h q.
Proof.
  assert (extends h h') as Hext.
  { destruct Hcall as [[r HG] | [cs HL]].
    - unfold Get in HG. destruct (polls s !! id) as [poll|].
      + destruct (copyPoll h poll) as [[h1 c]|] eqn:Hc; simplify_eq/=.
        by eapply copyPoll_extends.
      + injection HG as <- _. apply extends_refl.
    - unfold List in HL.
      destruct (copyAll h (ord.*2)) as [[h1 cs1]|] eqn:Hc; simplify_eq/=.
      by eapply copyAll_extends. }
  split_and!; [done | | by apply extends_readPoll].
  destruct (lookup_lt_is_Some_2 _ _ Hq) as [o Ho].
  rewrite Ho. by eapply extends_obj.
Qed.

(** [readers_read_only] on the example store. *)
Lemma readers_read_only_witness :
  exists h' cs,
    List insertionSort [("p1"%string, 0%nat)] exHeap exStore = Some (h', cs) /\
    readPoll h' 0%nat = readPoll exHeap 0%nat.
Proof.
  destruct (List insertionSort [("p1"%string, 0%nat)] exHeap exStore)
    as [[h' cs]|] eqn:HL; [| by vm_compute in HL].
  exists h', cs. split; [done |].
  apply (readers_read_only insertionSort [("p1"%string, 0%nat)] exHeap exStore
           "p1" h' 0%nat (proj1 (proj1 exWf))); [simpl; lia |].
  right. by exists cs.
Defined.

(** ** Keys and identifiers *)

Lemma step_wfStore sortSlice op h s h' s' :
  wfStore h s -> step sortSlice op (h, s) = Some (h', s') -> wfStore h' s'.
Proof.
  intros Hst Hstep. pose proof (step_grows _ _ _ _ _ _ Hstep) as Hg.
  pose proof (wfStore_grows _ _ _ Hg Hst) as Hst'.
  destruct op as [id q opts e | rnd now poll | id | now pid oid | ord | id];
    simpl in Hstep.
  - by injection Hstep as _ <-.
  - destruct (pollObjs h !! poll) as [o|] eqn:Ho;
      [| unfold Create in Hstep; by rewrite Ho in Hstep].
    rewrite (Create_Some _ _ _ _ _ o Ho) in Hstep. injection Hstep as <- <-.
    intros id p. simpl. intros [[<- <-] | [_ Hp]]%lookup_insert_Some.
    + split; [| apply createdID_nonempty].
      rewrite length_insert. by eapply lookup_lt_Some.
    + destruct (Hst id p Hp). split; [by rewrite length_insert | done].
  - destruct (Get h s id) as [[h1 r]|]; simplify_eq/=. done.
  - destruct (Vote now h s pid oid) as [[h1 r]|]; simplify_eq/=. done.
  - destruct (List sortSlice ord h s) as [[h1 r]|]; simplify_eq/=. done.
  - injection Hstep as <- <-. intros id' p Hp. apply Hst.
    unfold Delete in Hp. destruct (polls s !! id); [| done].
    simpl in Hp. by apply lookup_delete_Some in Hp as [_ Hp].
Qed.

Lemma step_keyed sortSlice op h s h' s' :
  wfStore h s -> keyed h s -> step sortSlice op (h, s) = Some (h', s') -> keyed h' s'.
Proof.
  intros Hst Hk Hstep.
  assert (s' = s -> createdBy [op] = [] -> keyed h' s') as Hsame.
  { intros -> Hnone id p Hp. destruct (Hk id p Hp) as (o & Ho & Hid).
    exists o. split; [| done]. eapply step_object; [done | done |].
    rewrite Hnone. apply not_elem_of_nil. }
  destruct op as [id q opts e | rnd now poll | id | now pid oid | ord | id].
  - apply Hsame; [| done]. simpl in Hstep. by injection Hstep as _ <-.
  - simpl in Hstep. destruct (pollObjs h !! poll) as [o|] eqn:Ho;
      [| unfold Create in Hstep; by rewrite Ho in Hstep].
    rewrite (Create_Some _ _ _ _ _ o Ho) in Hstep. injection Hstep as <- <-.
    intros id p. simpl. intros [[<- <-] | [Hne Hp]]%lookup_insert_Some.
    + eexists. split; [apply list_lookup_insert_eq; by eapply lookup_lt_Some | done].
    + destruct (Hk id p Hp) as (o0 & Ho0 & Hid0). exists o0. split; [| done].
      rewrite list_lookup_insert_ne; [done |]. intros <-.
      assert (o0 = o) as -> by congruence.
      destruct (Hst id poll Hp) as [_ Hnonempty].
      apply Hne. unfold createdID. rewrite Hid0.
      destruct (String.eqb_spec id ""); [done | done].
  - apply Hsame; [| done]. simpl in Hstep.
    destruct (Get h s id) as [[h1 r]|]; by simplify_eq/=.
  - apply Hsame; [| done]. simpl in Hstep.
    destruct (Vote now h s pid oid) as [[h1 r]|]; by simplify_eq/=.
  - apply Hsame; [| done]. simpl in Hstep.
    destruct (List sortSlice ord h s) as [[h1 r]|]; by simplify_eq/=.
  - simpl in Hstep. injection Hstep as <- <-. intros id' p Hp. apply Hk.
    unfold Delete in Hp. destruct (polls s !! id); [| done].
    simpl in Hp. by apply lookup_delete_Some in Hp as [_ Hp].
Qed.

Lemma run_keyed sortSlice ops h s h' s' :
  wfStore h s -> keyed h s -> run sortSlice ops (h, s) = Some (h', s') ->
  wfStore h' s' /\ keyed h' s'.
Proof.
  revert h s. induction ops as [|op ops IH]; intros h s Hst Hk.
  - by intros [= <- <-].
  - intros ([h1 s1] & Hstep & Hrun)%run_cons_inv.
    eapply IH; [by eapply step_wfStore | by eapply step_keyed | done].
Qed.

Lemma Vote_inl_readPoll now h s pollID optionID h' c :
  slicesValid h -> Vote now h s pollID optionID = Some (h', inl c) ->
  exists poll o opts i opt,
    polls s !! pollID = Some poll /\ pollObjs h !! poll = Some o /\
    loadSlice h (Options o) = Some opts /\
    findOption optionID opts = Some (i, opt) /\
    readPoll h' c =
      Some (mkView (ID o) (Question o) (<[i := incrVotes opt]> opts)
              (CreatedAt o) (ExpiresAt o)).
Proof.
  intros Hs Hvote.
  destruct (Vote_inl_inv _ _ _ _ _ _ _ Hs Hvote)
    as (poll & o & opts & i & opt & Hpoll & Ho & _ & Hl & Hfind & Hi & _ & -> & ->).
  pose proof (loadSlice_Some _ _ _ Hl) as (_ & Hlen & _).
  exists poll, o, opts, i, opt. split_and!; try done.
  unfold readPoll. simpl. rewrite lookup_app_r by lia. rewrite Nat.sub_diag. simpl.
  replace (length (optCells h))
    with (length (<[(ptr (Options o) + i)%nat := incrVotes opt]> (optCells h)))
    by apply length_insert.
  replace (len (Options o)) with (length (<[i := incrVotes opt]> opts))
    by (rewrite length_insert; done).
  by rewrite loadSlice_fresh.
Qed.

(** X8: in a store where every poll sits under its own [ID], as in the
    empty store, this stays so whatever sequence of operations callers
    issue, and then the poll that [Get(id)] or a successful
    [Vote(id, _)] returns has [ID] equal to [id], which is not the empty
    string. *)
Theorem snapshot_has_ID sortSlice ops h s h' s' id h'' c
  (Hs : slicesValid h)
  (Hst : wfStore h s)
  (Hk : keyed h s)
  (Hrun : run sortSlice ops (h, s) = Some (h', s'))
  (Hcall : Get h' s' id = Some (h'', Some c) \/
           exists now optionID, Vote now h' s' id optionID = Some (h'', inl c)) :
  keyed h' s' /\ id <> EmptyString /\
  exists v, readPoll h'' c = Some v /\ vID v = id.
Proof.
  destruct (run_keyed _ _ _ _ _ _ Hst Hk Hrun) as [Hst' Hk'].
  pose proof (run_slicesValid _ _ _ _ _ _ Hs Hrun) as Hs'.
  split; [done |].
  destruct Hcall as [HG | (now & optionID & HV)].
  - unfold Get in HG. destruct (polls s' !! id) as [p|] eqn:Hp; [| discriminate].
    destruct (copyPoll h' p) as [[h1 c1]|] eqn:Hc; simplify_eq/=.
    destruct (Hk' id p Hp) as (o & Ho & Hid). destruct (Hst' id p Hp) as [_ Hne].
    split; [done |].
    rewrite (copyPoll_readPoll h' p) by done.
    destruct (copyPoll_inv _ _ _ _ Hc) as (o' & opts & Ho' & Hl & _).
    assert (o' = o) as -> by congruence.
    eexists. split; [unfold readPoll; rewrite Ho; simpl; by rewrite Hl | done].
  - destruct (Vote_inl_readPoll _ _ _ _ _ _ _ Hs' HV)
      as (p & o & opts & i & opt & Hp & Ho & _ & _ & Hread).
    destruct (Hk' id p Hp) as (o' & Ho' & Hid). destruct (Hst' id p Hp) as [_ Hne].
    assert (o' = o) as -> by congruence.
    split; [done |]. eexists. split; [exact Hread | done].
Qed.

(** [snapshot_has_ID] on a store built from the empty one: a poll is
    allocated without identifier, created, voted on, and read back
    under the identifier [Create] generated. *)
Lemma snapshot_has_ID_witness :
  let rnd := (Byte.x01, Byte.x23, Byte.x45, Byte.x67) in
  let ops := [OpNew "" "Tabs or spaces?" exOpts 0; OpCreate rnd 100 0%nat;
              OpVote 101 "01234567" "a"] in
  exists h' s' h'' c v,
    run insertionSort ops (mkHeap [] [], NewStore) = Some (h', s') /\
    Get h' s' "01234567" = Some (h'', Some c) /\
    readPoll h'' c = Some v /\ vID v = "01234567"%string.
Proof.
  intros rnd ops.
  destruct (run insertionSort ops (mkHeap [] [], NewStore)) as [[h' s']|] eqn:Hrun;
    [| by vm_compute in Hrun].
  destruct (Get h' s' "01234567") as [[h'' [c|]]|] eqn:HG;
    [| vm_compute in Hrun; injection Hrun as <- <-; by vm_compute in HG
     | vm_compute in Hrun; injection Hrun as <- <-; by vm_compute in HG].
  assert (slicesValid (mkHeap [] [])) as Hs by (intros q o Hq; by simplify_eq/=).
  assert (wfStore (mkHeap [] []) NewStore) as Hst by (intros id p Hp; by simplify_eq/=).
  assert (keyed (mkHeap [] []) NewStore) as Hk by (intros id p Hp; by simplify_eq/=).
  destruct (snapshot_has_ID insertionSort ops _ _ h' s' "01234567" h'' c
              Hs Hst Hk Hrun (or_introl HG)) as (_ & _ & v & Hv & Hid).
  by exists h', s', h'', c, v.
Defined.

(** ** Create *)

(** X9: [Create] of a poll without identifier stores it under the
    identifier [generateID] returns, and the caller reads that
    identifier and the creation time through its own pointer; every
    other entry stays. The store grows by one poll, unless the
    generated identifier was already in use: then the poll stored under
    it is replaced and no error is reported. *)
Theorem Create_generates rnd now h s poll o opts
  (Ho : pollObjs h !! poll = Some o)
  (Hid : ID o = EmptyString)
  (Hopts : loadSlice h (Options o) = Some opts) :
  exists h1 s1,
    Create rnd now h s poll = Some (h1, s1) /\
    polls s1 !! generateID rnd = Some poll /\
    (forall id, id <> generateID rnd -> polls s1 !! id = polls s !! id) /\
    readPoll h1 poll =
      Some (mkView (generateID rnd) (Question o) opts now (ExpiresAt o)) /\
    (polls s !! generateID rnd = None -> size (polls s1) = S (size (polls s))) /\
    (is_Some (polls s !! generateID rnd) -> size (polls s1) = size (polls s)).
Proof.
  assert (createdID rnd o = generateID rnd) as Hgen
    by (unfold createdID; by rewrite Hid).
  eexists _, _. split; [by apply Create_Some |]. rewrite Hgen. simpl.
  split_and!.
  - apply lookup_insert_eq.
  - intros id Hne. by apply lookup_insert_ne.
  - unfold readPoll. simpl. rewrite list_lookup_insert_eq by by eapply lookup_lt_Some.
    simpl. unfold loadSlice in *. simpl. destruct (decide _); by simplify_eq/=.
  - intros Hnone. by rewrite map_size_insert_None.
  - intros Hsome. by rewrite map_size_insert_Some.
Qed.

(** [Create_generates] on a store that already holds a poll under the
    identifier the random bytes give. *)
Lemma Create_generates_witness :
  let rnd := (Byte.x01, Byte.x23, Byte.x45, Byte.x67) in
  let h := mkHeap [mkPoll "01234567" "Tabs or spaces?" (mkSlice 0 2) 100 0;
                   mkPoll "" "Vim or Emacs?" (mkSlice 2 0) 0 0] exOpts in
  let s := mkStore {["01234567"%string := 0%nat]} in
  exists h1 s1,
    Create rnd 200 h s 1%nat = Some (h1, s1) /\
    polls s1 !! "01234567"%string = Some 1%nat /\ size (polls s1) = 1%nat.
Proof.
  intros rnd h s.
  destruct (Create_generates rnd 200 h s 1%nat
              (mkPoll "" "Vim or Emacs?" (mkSlice 2 0) 0 0) [] eq_refl eq_refl eq_refl)
    as (h1 & s1 & HC & Hnew & _ & _ & _ & Hsize).
  exists h1, s1. split_and!; [done | done |].
  rewrite Hsize; [done |]. by exists 0%nat.
Defined.

Lemma mutate_slicesValid h p m h' :
  slicesValid h -> mutate h p m = Some h' -> slicesValid h'.
Proof.
  intros Hs Hm. unfold mutate in Hm.
  destruct (pollObjs h !! p) as [o|] eqn:Ho; [| done]. simpl in Hm.
  pose proof (Hs p o Ho) as Hv. unfold validSlice in Hv.
  assert (forall o', Options o' = Options o ->
            slicesValid (mkHeap (<[p := o']> (pollObjs h)) (optCells h))) as Hset.
  { intros o' Ho' q oq. simpl.
    intros [(<- & <- & _) | [_ Hq]]%list_lookup_insert_Some; unfold validSlice; simpl.
    - by rewrite Ho'.
    - exact (Hs q oq Hq). }
  destruct m as [v | v | v | v | i v | lo hi]; simpl in Hm;
    try (injection Hm as <-; by apply Hset).
  - destruct (decide _); [| done]. injection Hm as <-.
    by apply slicesValid_insert_cell.
  - destruct (decide _) as [Hb|]; [| done]. injection Hm as <-.
    intros q oq. simpl.
    intros [(<- & <- & _) | [_ Hq]]%list_lookup_insert_Some; unfold validSlice; simpl.
    + lia.
    + exact (Hs q oq Hq).
Qed.

Lemma mutateAll_slicesValid h p ms h' :
  slicesValid h -> mutateAll h p ms = Some h' -> slicesValid h'.
Proof.
  revert h. induction ms as [|m ms IH]; intros h Hs; simpl.
  - by intros [= <-].
  - destruct (mutate h p m) as [h1|] eqn:Hm; simpl; [| done].
    intros Hall. eapply IH; [by eapply mutate_slicesValid | done].
Qed.

Lemma mutateAll_live h p ms h' :
  mutateAll h p ms = Some h' -> (p < length (pollObjs h))%nat ->
  (p < length (pollObjs h'))%nat.
Proof.
  revert h. induction ms as [|m ms IH]; intros h; simpl.
  - by intros [= <-].
  - destruct (mutate h p m) as [h1|] eqn:Hm; simpl; [| done].
    intros Hall Hp. apply (IH h1 Hall).
    unfold mutate in Hm. destruct (pollObjs h !! p) as [o|]; [| done]. simpl in Hm.
    destruct m; simpl in Hm; repeat case_decide; simplify_eq/=;
      rewrite ?length_insert; done.
Qed.

(** X10: [Create] stores the caller's pointer, not a copy: whatever the
    caller writes to its poll afterwards, the question, the options or
    the expiry, is what [Get] returns from then on. *)
Theorem Create_aliases rnd now h s poll h1 s1 ms h2
  (Hs : slicesValid h)
  (HC : Create rnd now h s poll = Some (h1, s1))
  (Hm : mutateAll h1 poll ms = Some h2) :
  exists id h3 c v,
    polls s1 !! id = Some poll /\
    Get h2 s1 id = Some (h3, Some c) /\
    readPoll h2 poll = Some v /\ readPoll h3 c = Some v.
Proof.
  destruct (pollObjs h !! poll) as [o|] eqn:Ho;
    [| unfold Create in HC; by rewrite Ho in HC].
  rewrite (Create_Some _ _ _ _ _ o Ho) in HC. injection HC as <- <-.
  set (h1 := mkHeap _ _) in *.
  assert (slicesValid h1) as Hs1.
  { intros q oq. simpl.
    intros [(<- & <- & _) | [_ Hq]]%list_lookup_insert_Some; unfold validSlice; simpl.
    - exact (Hs poll o Ho).
    - exact (Hs q oq Hq). }
  pose proof (mutateAll_slicesValid _ _ _ _ Hs1 Hm) as Hs2.
  assert (poll < length (pollObjs h2))%nat as Hlive.
  { apply (mutateAll_live _ _ _ _ Hm). simpl. rewrite length_insert.
    by eapply lookup_lt_Some. }
  destruct (lookup_lt_is_Some_2 _ _ Hlive) as [o2 Ho2].
  destruct (copyPoll_Some _ _ _ Hs2 Ho2) as (opts & Hl & Hcopy).
  exists (createdID rnd o). eexists _, _, _. split_and!.
  - simpl. apply lookup_insert_eq.
  - unfold Get. simpl. rewrite lookup_insert_eq. by rewrite Hcopy.
  - unfold readPoll. rewrite Ho2. simpl. by rewrite Hl.
  - rewrite (copyPoll_readPoll h2 poll) by done.
    unfold readPoll. rewrite Ho2. simpl. by rewrite Hl.
Qed.

(** [Create_aliases]: the caller rewords the question of a poll it has
    created, and [Get] returns the new wording. *)
Lemma Create_aliases_witness :
  let rnd := (Byte.x01, Byte.x23, Byte.x45, Byte.x67) in
  exists h1 s1 h2 h3 c v,
    Create rnd 200 exHeap NewStore 0%nat = Some (h1, s1) /\
    mutateAll h1 0%nat [SetQuestion "Vim or Emacs?"] = Some h2 /\
    Get h2 s1 "p1" = Some (h3, Some c) /\
    readPoll h3 c = Some v /\ vQuestion v = "Vim or Emacs?"%string.
Proof.
  intros rnd.
  destruct (Create rnd 200 exHeap NewStore 0%nat) as [[h1 s1]|] eqn:HC;
    [| by vm_compute in HC].
  destruct (mutateAll h1 0%nat [SetQuestion "Vim or Emacs?"]) as [h2|] eqn:Hm;
    [| vm_compute in HC; injection HC as <- <-; by vm_compute in Hm].
  destruct (Create_aliases rnd 200 exHeap NewStore 0%nat h1 s1
              [SetQuestion "Vim or Emacs?"] h2 (proj1 (proj1 exWf)) HC Hm)
    as (id & h3 & c & v & Hid & HG & Hv & Hv').
  assert (Create rnd 200 exHeap NewStore 0%nat =
            Some (mkHeap [mkPoll "p1" "Tabs or spaces?" (mkSlice 0 2) 200 0] exOpts,
                  mkStore (<["p1"%string := 0%nat]> ∅))) as HC' by reflexivity.
  rewrite HC' in HC. injection HC as <- <-.
  assert (id = "p1"%string) as ->.
  { simpl in Hid. by apply lookup_insert_Some in Hid as [[<- _] | [_ ?]]. }
  eexists _, _, h2, h3, c, v. split_and!; [exact HC' | exact Hm | exact HG | exact Hv' |].
  vm_compute in Hm. injection Hm as <-.
  vm_compute in Hv. by injection Hv as <-.
Defined.

(** ** Listeners *)

(** X11: [Subscribe] returns a channel that did not exist before and so
    is registered nowhere else; it is open, empty, of capacity 10, and a
    receive on it would block. The listener set of the poll gains that
    channel and nothing else, the other polls' sets and all other
    channels are as before. *)
Theorem Subscribe_fresh cs b pollID
  (Hwf : wfNotifier cs b) :
  exists cs' b' ch subs',
    Subscribe cs b pollID = (cs', b', ch) /\
    cs !! ch = None /\
    (forall key subs, subscribers b !! key = Some subs -> subs !! ch = None) /\
    cs' !! ch = Some (mkChan [] 10 false) /\
    Recv cs' ch = None /\
    (forall ch' c, cs !! ch' = Some c -> cs' !! ch' = Some c) /\
    subscribers b' !! pollID = Some subs' /\
    subs' !! ch = Some true /\
    (forall ch', ch' <> ch ->
       subs' !! ch' = default ∅ (subscribers b !! pollID) !! ch') /\
    (forall key, key <> pollID -> subscribers b' !! key = subscribers b !! key) /\
    wfNotifier cs' b'.
Proof.
  eexists _, _, _, _. split; [reflexivity |]. simpl. split_and!.
  - by apply lookup_ge_None_2.
  - intros key subs Hkey. destruct (subs !! length cs) as [x|] eqn:Hx; [| done].
    destruct Hwf as [Hlive _].
    destruct (Hlive key subs (length cs) Hkey) as (c & Hc & _); [by eexists |].
    apply lookup_lt_Some in Hc. lia.
  - rewrite lookup_app_r by lia. by rewrite Nat.sub_diag.
  - unfold Recv. rewrite lookup_app_r by lia. by rewrite Nat.sub_diag.
  - intros ch' c Hc. by apply lookup_app_l_Some.
  - apply lookup_insert_eq.
  - apply lookup_insert_eq.
  - intros ch' Hne. by apply lookup_insert_ne.
  - intros key Hne. by apply lookup_insert_ne.
  - exact (Subscribe_wf cs b pollID Hwf).
Qed.

(** [Subscribe_fresh] on the notifier with two listeners. *)
Lemma Subscribe_fresh_witness :
  exists cs' b', Subscribe exChans exBroadcaster "p1" = (cs', b', 2%nat) /\
    Recv cs' 2%nat = None.
Proof.
  destruct (Subscribe_fresh exChans exBroadcaster "p1" exNotifier_wf)
    as (cs' & b' & ch & subs' & HS & _ & _ & _ & HR & _).
  assert (ch = 2%nat) as -> by (unfold Subscribe in HS; by injection HS as _ _ <-).
  by exists cs', b'.
Defined.

(** X12: a listener that subscribes and then unsubscribes leaves the
    listener set of its poll as it found it, and its channel closed, so
    that a receive on it returns at once with the empty string. The
    entry of the poll is not removed: a poll that had no entry now has
    an empty one. *)
Theorem Subscribe_Unsubscribe cs b pollID
  (Hwf : wfNotifier cs b) :
  exists cs1 b1 ch cs2 b2,
    Subscribe cs b pollID = (cs1, b1, ch) /\
    Unsubscribe cs1 b1 pollID ch = (cs2, b2, None) /\
    subscribers b2 !! pollID = Some (default ∅ (subscribers b !! pollID)) /\
    (forall key, key <> pollID -> subscribers b2 !! key = subscribers b !! key) /\
    cs2 = cs ++ [mkChan [] 10 true] /\
    Recv cs2 ch = Some (cs2, EmptyString) /\
    wfNotifier cs2 b2.
Proof.
  pose proof (Subscribe_wf cs b pollID Hwf) as Hwf1. simpl in Hwf1.
  assert ((cs ++ [mkChan [] 10 false]) !! length cs = Some (mkChan [] 10 false)) as Hch
    by (rewrite lookup_app_r by lia; by rewrite Nat.sub_diag).
  assert (default ∅ (subscribers b !! pollID) !! length cs = None) as Hnone.
  { destruct (subscribers b !! pollID) as [subs|] eqn:Hsubs; simpl; [| done].
    destruct (subs !! length cs) as [x|] eqn:Hx; [| done].
    destruct Hwf as [Hlive _].
    destruct (Hlive pollID subs (length cs) Hsubs) as (c & Hc & _); [by eexists |].
    apply lookup_lt_Some in Hc. lia. }
  assert (<[length cs := mkChan [] 10 true]> (cs ++ [mkChan [] 10 false]) =
          cs ++ [mkChan [] 10 true]) as Hcs2.
  { rewrite insert_app_r_alt by lia. by rewrite Nat.sub_diag. }
  eexists _, _, _, _, _. split; [reflexivity |].
  split.
  { erewrite Unsubscribe_open; [| apply lookup_insert_eq | exact Hch | done].
    simpl. reflexivity. }
  split; [simpl; rewrite lookup_insert_eq; f_equal; by apply delete_insert_id |].
  split; [intros key Hne; simpl; by rewrite !lookup_insert_ne |].
  split; [exact Hcs2 |].
  split.
  { rewrite Hcs2. unfold Recv. rewrite lookup_app_r by lia. by rewrite Nat.sub_diag. }
  pose proof (Unsubscribe_wf _ _ pollID (length cs)
                (<[length cs := true]> (default ∅ (subscribers b !! pollID)))
                (mkChan [] 10 false) Hwf1) as Hwf2.
  simpl in Hwf2. apply Hwf2; [apply lookup_insert_eq | | exact Hch].
  rewrite lookup_insert_eq. by eexists.
Qed.

(** [Subscribe_Unsubscribe] on a new broadcaster: the poll's entry is
    left behind, empty. *)
Lemma Subscribe_Unsubscribe_witness :
  exists cs1 b1 ch cs2 b2,
    Subscribe [] NewBroadcaster "p1" = (cs1, b1, ch) /\
    Unsubscribe cs1 b1 "p1" ch = (cs2, b2, None) /\
    subscribers b2 !! "p1"%string = Some ∅.
Proof.
  destruct (Subscribe_Unsubscribe [] NewBroadcaster "p1" wfNotifier_New)
    as (cs1 & b1 & ch & cs2 & b2 & HS & HU & Hsubs & _).
  by exists cs1, b1, ch, cs2, b2.
Defined.

Lemma Broadcast_wf ord cs b pollID data subs cs' :
  wfNotifier cs b ->
  subscribers b !! pollID = Some subs -> ord ≡ₚ (map_to_list subs).*1 ->
  Broadcast ord cs b pollID data = (cs', None) -> wfNotifier cs' b.
Proof.
  intros Hwf Hsubs Hord HB.
  destruct (Broadcast_registered ord cs b pollID data subs Hwf Hsubs Hord)
    as (cs1 & HB1 & _ & Hcells).
  rewrite HB1 in HB. injection HB as <-.
  destruct Hwf as [Hlive Hone]. split; [| done].
  intros key subs0 ch Hkey Hch.
  destruct (Hlive key subs0 ch Hkey Hch) as (c & Hc & Hopen & Hcap).
  rewrite (Hcells ch c Hc). eexists. split; [done |].
  by destruct (decide _).
Qed.

Lemma receive_all (pending : list string) :
  forall cs ch c, cs !! ch = Some c -> buf c = pending ->
    receive (length pending) cs ch =
      Some (<[ch := mkChan [] (cap c) (closed c)]> cs, pending).
Proof.
  induction pending as [|msg rest IH]; intros cs ch c Hc Hbuf; simpl.
  - f_equal. f_equal. symmetry. apply list_insert_id. rewrite Hc. f_equal.
    destruct c; simpl in *; by subst.
  - unfold Recv. rewrite Hc. simpl. rewrite Hbuf. simpl.
    rewrite (IH _ ch (mkChan rest (cap c) (closed c)));
      [| apply list_lookup_insert_eq; by eapply lookup_lt_Some | done].
    simpl. by rewrite list_insert_insert_eq.
Qed.

(** X13: messages broadcast for a poll reach each of its listeners in
    the order they were broadcast. A listener that takes nothing in the
    meantime holds, after any number of broadcasts, what it held before
    followed by the first messages that fit its buffer; the later ones
    are dropped for it, and no broadcast blocks or panics. Receiving
    then yields exactly these messages, oldest first. Channels of other
    polls are not touched. *)
Theorem Broadcast_fifo msgs cs b pollID subs
  (Hwf : wfNotifier cs b)
  (Hsubs : subscribers b !! pollID = Some subs)
  (Hord : Forall (fun m => m.1 ≡ₚ (map_to_list subs).*1) msgs) :
  exists cs',
    broadcasts cs b pollID msgs = (cs', None) /\
    length cs' = length cs /\
    wfNotifier cs' b /\
    (forall ch c, cs !! ch = Some c -> is_Some (subs !! ch) ->
       let held := buf c ++ take (cap c - length (buf c)) (msgs.*2) in
       cs' !! ch = Some (mkChan held (cap c) false) /\
       receive (length held) cs' ch =
         Some (<[ch := mkChan [] (cap c) false]> cs', held)) /\
    (forall ch c, cs !! ch = Some c -> subs !! ch = None -> cs' !! ch = Some c).
Proof.
  assert (exists cs',
    broadcasts cs b pollID msgs = (cs', None) /\
    length cs' = length cs /\
    wfNotifier cs' b /\
    (forall ch c, cs !! ch = Some c -> is_Some (subs !! ch) ->
       cs' !! ch =
         Some (mkChan (buf c ++ take (cap c - length (buf c)) (msgs.*2)) (cap c) false)) /\
    (forall ch c, cs !! ch = Some c -> subs !! ch = None -> cs' !! ch = Some c))
    as (cs' & HB & Hlen & Hwf' & Hreg & Hother).
  { revert cs Hwf. induction msgs as [|[ord data] rest IH]; intros cs Hwf.
    - exists cs. split_and!; try done.
      intros ch c Hc Hin. rewrite Hc. f_equal. simpl. rewrite take_nil, app_nil_r.
      destruct Hwf as [Hlive _].
      destruct (Hlive pollID subs ch Hsubs Hin) as (c0 & Hc0 & Hopen & _).
      assert (c0 = c) as -> by congruence. destruct c; simpl in *; by subst.
    - apply Forall_cons in Hord as [Hord1 Hrest]. simpl in Hord1.
      destruct (Broadcast_registered ord cs b pollID data subs Hwf Hsubs Hord1)
        as (cs1 & HB1 & Hlen1 & Hcells1).
      pose proof (Broadcast_wf _ _ _ _ _ _ _ Hwf Hsubs Hord1 HB1) as Hwf1.
      destruct (IH Hrest cs1 Hwf1) as (cs' & HB & Hlen & Hwf' & Hreg & Hother).
      exists cs'. split_and!.
      + simpl. by rewrite HB1.
      + lia.
      + done.
      + intros ch c Hc Hin. pose proof (Hcells1 ch c Hc) as Hc1.
        rewrite (Hreg ch _ Hc1 Hin). f_equal.
        destruct (decide (is_Some (subs !! ch) /\ (length (buf c) < cap c)%nat))
          as [[_ Hroom] | Hfull]; simpl.
        * rewrite length_app. simpl.
          replace (cap c - length (buf c))%nat
            with (S (cap c - (length (buf c) + 1)))%nat by lia.
          simpl. by rewrite <- app_assoc.
        * assert (cap c - length (buf c) = 0)%nat as -> by (apply Nat.sub_0_le;
            destruct (decide (length (buf c) < cap c)%nat); [by destruct Hfull | lia]).
          done.
      + intros ch c Hc Hout. pose proof (Hcells1 ch c Hc) as Hc1.
        rewrite decide_False in Hc1
          by (intros [[x Hx] _]; rewrite Hout in Hx; discriminate).
        by apply Hother. }
  exists cs'. split_and!; try done.
  intros ch c Hc Hin held. pose proof (Hreg ch c Hc Hin) as Hc'. fold held in Hc'.
  split; [done |].
  by rewrite (receive_all held cs' ch _ Hc').
Qed.

(** [Broadcast_fifo] on the notifier with two listeners, after twelve
    broadcasts: the listener that held one message has it and the first
    nine, the one whose buffer was full has nothing new. *)
Lemma Broadcast_fifo_witness :
  let msgs := (fun d => ((map_to_list exSubs).*1, d)) <$>
                ["1"; "2"; "3"; "4"; "5"; "6"; "7"; "8"; "9"; "10"; "11"; "12"]%string in
  exists cs' cs'',
    broadcasts exChans exBroadcaster "p1" msgs = (cs', None) /\
    receive 10 cs' 1%nat =
      Some (cs'', ["x"; "1"; "2"; "3"; "4"; "5"; "6"; "7"; "8"; "9"]%string) /\
    cs' !! 0%nat = Some fullChan.
Proof.
  intros msgs.
  assert (Forall (fun m => m.1 ≡ₚ (map_to_list exSubs).*1) msgs) as Hord.
  { apply Forall_fmap, Forall_forall. intros d _. simpl. reflexivity. }
  destruct (Broadcast_fifo msgs exChans exBroadcaster "p1" exSubs exNotifier_wf
              eq_refl Hord) as (cs' & HB & _ & _ & Hreg & _).
  destruct (Hreg 1%nat (mkChan ["x"%string] 10 false) eq_refl) as [_ Hrecv];
    [by eexists |].
  destruct (Hreg 0%nat fullChan eq_refl) as [Hfull _]; [by eexists |].
  exists cs', (<[1%nat := mkChan [] 10 false]> cs'). split_and!; [done | exact Hrecv |].
  exact Hfull.
Defined.

Lemma Recv_wf cs b ch cs' msg :
  wfNotifier cs b -> Recv cs ch = Some (cs', msg) -> wfNotifier cs' b.
Proof.
  intros [Hlive Hone] HR. split; [| done].
  intros key subs ch' Hkey Hch'.
  destruct (Hlive key subs ch' Hkey Hch') as (c' & Hc' & Hopen & Hcap).
  unfold Recv in HR. destruct (cs !! ch) as [c|] eqn:Hc; [| done]. simpl in HR.
  destruct (buf c) as [|m rest].
  - destruct (closed c); [| done]. injection HR as <- _. eauto.
  - injection HR as <- _. destruct (decide (ch' = ch)) as [-> | Hne].
    + assert (c' = c) as -> by congruence.
      rewrite list_lookup_insert_eq by by eapply lookup_lt_Some. eauto.
    + rewrite list_lookup_insert_ne by done. eauto.
Qed.

Lemma notify_invariant op cs b :
  wfNotifier cs b -> allowed op (cs, b) ->
  exists cs' b',
    notify op (cs, b) = (cs', b', None) /\ wfNotifier cs' b' /\
    (length cs <= length cs')%nat /\
    (bounded cs -> bounded cs').
Proof.
  intros Hwf Hok. unfold bounded.
  destruct op as [pollID | pollID ch | ord pollID data | ch]; simpl in *.
  - eexists _, _. split; [reflexivity |].
    split; [exact (Subscribe_wf cs b pollID Hwf) |].
    split; [rewrite length_app; lia |].
    intros Hb. apply Forall_app. split; [done |].
    constructor; [simpl; lia | constructor].
  - destruct Hok as (subs & Hsubs & Hch).
    destruct Hwf as [Hlive Hone].
    destruct (Hlive pollID subs ch Hsubs Hch) as (c & Hc & Hopen & Hcap).
    eexists _, _. split; [by eapply Unsubscribe_open |].
    split; [by eapply Unsubscribe_wf |].
    split; [by rewrite length_insert |].
    intros Hb. apply Forall_insert; [done |]. simpl.
    rewrite Forall_lookup in Hb. exact (Hb ch c Hc).
  - destruct (subscribers b !! pollID) as [subs|] eqn:Hsubs.
    + destruct (Broadcast_registered ord cs b pollID data subs Hwf Hsubs (Hok subs eq_refl))
        as (cs' & HB & Hlen & Hcells).
      exists cs', b. rewrite HB. split; [done |].
      split; [exact (Broadcast_wf _ _ _ _ _ _ _ Hwf Hsubs (Hok subs eq_refl) HB) |].
      split; [lia |].
      intros Hb. apply Forall_lookup. intros ch c' Hc'.
      destruct (lookup_lt_is_Some_2 cs ch) as [c Hc];
        [rewrite <- Hlen; by eapply lookup_lt_Some |].
      rewrite (Hcells ch c Hc) in Hc'. injection Hc' as <-.
      rewrite Forall_lookup in Hb. specialize (Hb ch c Hc).
      destruct (decide _) as [[_ Hroom] |]; [| done].
      simpl. rewrite length_app. simpl. lia.
    + exists cs, b. unfold Broadcast. rewrite Hsubs. by split_and!.
  - destruct (Recv cs ch) as [[cs' msg]|] eqn:HR.
    + exists cs', b. split; [done |]. split; [by eapply Recv_wf |].
      unfold Recv in HR. destruct (cs !! ch) as [c|] eqn:Hc; [| done]. simpl in HR.
      destruct (buf c) as [|m rest] eqn:Hbuf.
      * destruct (closed c); [| done]. by injection HR as <- _.
      * injection HR as <- _. split; [by rewrite length_insert |].
        intros Hb. apply Forall_insert; [done |]. simpl.
        rewrite Forall_lookup in Hb. specialize (Hb ch c Hc).
        rewrite Hbuf in Hb. simpl in Hb. lia.
    + exists cs, b. by split_and!.
Qed.

(** X14: the broadcaster never panics under the discipline of the
    handlers. Starting from a state where every registered channel is
    open, as the new broadcaster is, any sequence of [Subscribe],
    [Broadcast], receives and [Unsubscribe] of channels from the poll
    they are registered for runs to its end without a panic: no channel
    is closed twice and none is sent to after its close. Registered
    channels stay open, and no channel ever holds more messages than
    its capacity. *)
Theorem notifier_never_panics ops cs b
  (Hwf : wfNotifier cs b)
  (Hops : disciplined ops (cs, b)) :
  exists cs' b',
    notifyAll ops (cs, b) = (cs', b', None) /\
    wfNotifier cs' b' /\
    (length cs <= length cs')%nat /\
    (bounded cs -> bounded cs').
Proof.
  revert cs b Hwf Hops. induction ops as [|op ops IH]; intros cs b Hwf Hops.
  - exists cs, b. by split_and!.
  - destruct Hops as [Hok Hrest].
    destruct (notify_invariant op cs b Hwf Hok) as (cs1 & b1 & Hstep & Hwf1 & Hlen1 & Hb1).
    rewrite Hstep in Hrest. simpl in Hrest.
    destruct (IH cs1 b1 Hwf1 Hrest) as (cs' & b' & Hall & Hwf' & Hlen' & Hb').
    exists cs', b'. split; [cbn [notifyAll]; by rewrite Hstep |].
    split; [done |]. split; [lia | auto].
Qed.

(** [notifier_never_panics]: two listeners of one poll, a broadcast, one
    of them leaving, another broadcast, and the other one receiving. *)
Lemma notifier_never_panics_witness :
  exists cs' b',
    notifyAll [DoSubscribe "p1"; DoSubscribe "p1"; DoBroadcast [0%nat; 1%nat] "p1" "a";
               DoUnsubscribe "p1" 0%nat; DoBroadcast [1%nat] "p1" "b"; DoReceive 1%nat]
      ([], NewBroadcaster) = (cs', b', None) /\
    cs' !! 1%nat = Some (mkChan ["b"%string] 10 false).
Proof.
  destruct (notifier_never_panics
              [DoSubscribe "p1"; DoSubscribe "p1"; DoBroadcast [0%nat; 1%nat] "p1" "a";
               DoUnsubscribe "p1" 0%nat; DoBroadcast [1%nat] "p1" "b"; DoReceive 1%nat]
              [] NewBroadcaster wfNotifier_New) as (cs' & b' & Hall & _).
  - simpl. split_and!; try done.
    + intros subs Hsubs. rewrite lookup_insert_eq in Hsubs. injection Hsubs as <-.
      simpl. rewrite lookup_insert_eq. simpl.
      apply NoDup_Permutation.
      * exact (NoDup_seq 0 2).
      * apply NoDup_fst_map_to_list.
      * intros ch. rewrite list_elem_of_fmap. split.
        -- intros Hch. assert (is_Some ((<[1%nat := true]> (<[0%nat := true]> ∅) : gmap nat bool) !! ch)) as [x Hx].
           { rewrite !lookup_insert_is_Some.
             apply list_elem_of_In in Hch. simpl in Hch.
             destruct Hch as [<- | [<- | []]]; auto. }
           exists (ch, x). split; [done |]. by apply elem_of_map_to_list.
        -- intros ([ch' x] & -> & Hx%elem_of_map_to_list). simpl.
           apply lookup_insert_Some in Hx as [[<- _] | [_ Hx]];
             [apply list_elem_of_In; simpl; auto |].
           apply lookup_insert_Some in Hx as [[<- _] | [_ Hx]];
             [apply list_elem_of_In; simpl; auto | done].
    + eexists. split; [vm_compute; reflexivity |]. vm_compute. by eexists.
    + intros subs Hsubs. vm_compute in Hsubs. injection Hsubs as <-.
      vm_compute. apply Permutation_refl.
  - exists cs', b'. split; [done |].
    vm_compute in Hall. by injection Hall as <- _.
Defined.

(** ** VoteHandler *)

Lemma Vote_inr_heap now h s pollID optionID h' e :
  Vote now h s pollID optionID = Some (h', inr e) -> h' = h.
Proof.
  unfold Vote. intros HV.
  destruct (polls s !! pollID) as [poll|]; [| by simplify_eq].
  destruct (pollObjs h !! poll) as [o|]; simpl in HV; [| done].
  destruct (IsExpired now o); [by simplify_eq |].
  destruct (loadSlice h (Options o)) as [opts|]; simpl in HV; [| done].
  destruct (findOption optionID opts) as [[i opt]|]; [| by simplify_eq].
  destruct (copyPoll _ poll) as [[h2 c]|]; simplify_eq/=.
Qed.

Lemma Vote_stored_reads now h s pollID optionID h' c :
  slicesValid h -> Vote now h s pollID optionID = Some (h', inl c) ->
  exists poll v,
    polls s !! pollID = Some poll /\
    readPoll h' c = Some v /\ readPoll h' poll = Some v.
Proof.
  intros Hs HV.
  destruct (Vote_inl_readPoll _ _ _ _ _ _ _ Hs HV)
    as (poll & o & opts & i & opt & Hpoll & Ho & Hl & Hfind & Hread).
  destruct (Vote_inl_inv _ _ _ _ _ _ _ Hs HV)
    as (poll' & o' & opts' & i' & opt' & Hpoll' & Ho' & _ & Hl' & Hfind' & Hi & _ & _ & Hh').
  assert (poll' = poll) as -> by congruence. assert (o' = o) as -> by congruence.
  assert (opts' = opts) as -> by congruence.
  assert (i' = i /\ opt' = opt) as [-> ->] by (split; congruence).
  exists poll, (mkView (ID o) (Question o) (<[i := incrVotes opt]> opts) (CreatedAt o)
                  (ExpiresAt o)).
  split_and!; [done | done |].
  set (h1 := mkHeap (pollObjs h)
               (<[(ptr (Options o) + i)%nat := incrVotes opt]> (optCells h))).
  assert (loadSlice h1 (Options o) = Some (<[i := incrVotes opt]> opts)) as Hl1
    by by apply loadSlice_insert.
  pose proof (Hs poll o Ho) as Hv. unfold validSlice in Hv.
  subst h'. unfold readPoll. simpl. rewrite (lookup_app_l_Some _ _ _ _ Ho). simpl.
  rewrite (loadSlice_ext h1); [by rewrite Hl1 | | |].
  - unfold validSlice. simpl. by rewrite length_insert.
  - simpl. rewrite length_app. lia.
  - intros a [_ Ha]. simpl. apply lookup_app_l. rewrite length_insert. lia.
Qed.

(** X15: [VoteHandler] answers 405 to anything but a POST and 400 to a
    POST without option or whose vote the store refuses, with the
    store's error as message; in these cases nothing is stored and
    nothing is broadcast. When the store accepts the vote, the handler
    does not panic; it broadcasts, once, the JSON of the poll as it is
    stored after this vote, which every listener of the poll with room
    in its buffer receives, and replies with that poll as JSON when the
    request accepts [application/json], else with a redirection to the
    poll's page. *)
Theorem VoteHandler_spec marshal now ord app r
  (Hs : slicesValid (appHeap app))
  (Hwf : wfNotifier (appChans app) (appBroadcaster app))
  (Hord : forall subs,
     subscribers (appBroadcaster app) !! TrimPrefix (URLPath r) "/vote/" = Some subs ->
     ord ≡ₚ (map_to_list subs).*1) :
  let pollID := TrimPrefix (URLPath r) "/vote/" in
  let optionID := FormValue r "option" in
  (Method r <> "POST"%string ->
     VoteHandler marshal now ord app r =
       Some (app, Replied (HttpError "Method not allowed" 405))) /\
  (Method r = "POST"%string -> optionID = EmptyString ->
     VoteHandler marshal now ord app r =
       Some (app, Replied (HttpError "Option is required" 400))) /\
  (Method r = "POST"%string -> optionID <> EmptyString ->
   forall h' e,
     Vote now (appHeap app) (appStore app) pollID optionID = Some (h', inr e) ->
     VoteHandler marshal now ord app r = Some (app, Replied (HttpError e 400))) /\
  (Method r = "POST"%string -> optionID <> EmptyString ->
   forall h' c,
     Vote now (appHeap app) (appStore app) pollID optionID = Some (h', inl c) ->
     exists poll v cs',
       polls (appStore app) !! pollID = Some poll /\
       readPoll h' poll = Some v /\
       Broadcast ord (appChans app) (appBroadcaster app) pollID (marshal v) =
         (cs', None) /\
       (forall subs ch ch0,
          subscribers (appBroadcaster app) !! pollID = Some subs ->
          is_Some (subs !! ch) -> appChans app !! ch = Some ch0 ->
          (length (buf ch0) < cap ch0)%nat ->
          cs' !! ch = Some (enqueued ch0 (marshal v))) /\
       VoteHandler marshal now ord app r =
         Some (mkApp h' (appStore app) cs' (appBroadcaster app),
               Replied (if String.eqb (HeaderGet r "Accept") "application/json"
                        then EncodeJSON v
                        else HttpRedirect (String.append "/poll/" pollID) 303))).
Proof.
  intros pollID optionID. split_and!.
  - intros Hm. unfold VoteHandler.
    by destruct (String.eqb_spec (Method r) "POST").
  - intros Hm Hopt. unfold VoteHandler. rewrite Hm. simpl.
    fold optionID. by rewrite Hopt.
  - intros Hm Hopt h' e HV. unfold VoteHandler. rewrite Hm. simpl.
    fold optionID pollID. destruct (String.eqb_spec optionID ""); [done |].
    rewrite HV. simpl. rewrite (Vote_inr_heap _ _ _ _ _ _ _ HV).
    by destruct app.
  - intros Hm Hopt h' c HV.
    destruct (Vote_stored_reads _ _ _ _ _ _ _ Hs HV) as (poll & v & Hpoll & Hc & Hstored).
    assert (exists cs',
      Broadcast ord (appChans app) (appBroadcaster app) pollID (marshal v) = (cs', None) /\
      forall subs ch ch0,
        subscribers (appBroadcaster app) !! pollID = Some subs ->
        is_Some (subs !! ch) -> appChans app !! ch = Some ch0 ->
        (length (buf ch0) < cap ch0)%nat ->
        cs' !! ch = Some (enqueued ch0 (marshal v))) as (cs' & HB & Hsent).
    { destruct (subscribers (appBroadcaster app) !! pollID) as [subs|] eqn:Hsubs.
      - destruct (Broadcast_registered ord _ _ pollID (marshal v) subs Hwf Hsubs
                    (Hord subs Hsubs)) as (cs' & HB & _ & Hcells).
        exists cs'. split; [done |]. intros subs0 ch ch0 [= <-] Hin Hch Hroom.
        rewrite (Hcells ch ch0 Hch). by rewrite decide_True.
      - exists (appChans app). unfold Broadcast. rewrite Hsubs. split; [done |].
        by intros subs0 ch ch0 [=]. }
    exists poll, v, cs'. split_and!; try done.
    unfold VoteHandler. rewrite Hm. simpl. fold optionID pollID.
    destruct (String.eqb_spec optionID ""); [done |].
    rewrite HV. simpl. rewrite Hc. simpl. rewrite HB.
    by destruct (String.eqb (HeaderGet r "Accept") "application/json").
Qed.

(** [VoteHandler_spec]: a POST to [/vote/p1] for option [b], accepting
    JSON, with two listeners on the poll. *)
Lemma VoteHandler_spec_witness :
  let r := mkRequest "POST" "/vote/p1" false
             (fun key => if String.eqb key "option" then "b"%string else EmptyString)
             (fun key => if String.eqb key "Accept" then "application/json"%string
                         else EmptyString) in
  let app := mkApp exHeap exStore exChans exBroadcaster in
  exists app' v,
    VoteHandler vQuestion 0 (map_to_list exSubs).*1 app r =
      Some (app', Replied (EncodeJSON v)) /\
    TotalVotes (vOptions v) = 9 /\
    appChans app' !! 1%nat = Some (mkChan ["x"; "Tabs or spaces?"]%string 10 false).
Proof.
  intros r app.
  assert (forall subs,
            subscribers (appBroadcaster app) !! TrimPrefix (URLPath r) "/vote/" =
              Some subs ->
            (map_to_list exSubs).*1 ≡ₚ (map_to_list subs).*1) as Hord.
  { intros subs Hsubs. change (TrimPrefix (URLPath r) "/vote/") with "p1"%string in Hsubs.
    simpl in Hsubs. by apply lookup_singleton_Some in Hsubs as [_ <-]. }
  pose proof (VoteHandler_spec vQuestion 0 (map_to_list exSubs).*1 app r
                (proj1 (proj1 exWf)) exNotifier_wf Hord) as Hspec.
  cbv zeta in Hspec. destruct Hspec as (_ & _ & _ & Hok).
  change (TrimPrefix (URLPath r) "/vote/") with "p1"%string in Hok.
  change (FormValue r "option") with "b"%string in Hok.
  change (String.eqb (HeaderGet r "Accept") "application/json") with true in Hok.
  destruct (Vote 0 exHeap exStore "p1" "b") as [[h' [c|e]]|] eqn:HV;
    [| by vm_compute in HV | by vm_compute in HV].
  destruct (Hok eq_refl ltac:(discriminate) h' c HV)
    as (poll & v & cs' & Hpoll & Hv & HB & Hsent & HH).
  assert (poll = 0%nat) as -> by (vm_compute in Hpoll; congruence).
  assert (v = mkView "p1" "Tabs or spaces?"
                [mkOption "a" "Tabs" 3; mkOption "b" "Spaces" 6] 100 0) as ->.
  { vm_compute in HV. injection HV as <- _. vm_compute in Hv. congruence. }
  eexists _, _. split; [exact HH |]. split; [reflexivity |].
  exact (Hsent exSubs 1%nat (mkChan ["x"%string] 10 false) eq_refl
           (ex_intro _ true eq_refl) eq_refl ltac:(simpl; lia)).
Defined.

(** ** CreateHandler *)

Lemma collectOptions_Text TrimSpace rnds texts :
  forall k,
    Text <$> collectOptions TrimSpace rnds k texts =
      filter (fun t => t <> EmptyString) (TrimSpace <$> texts).
Proof.
  induction texts as [|text rest IH]; intros k; [done |]. cbn [collectOptions].
  rewrite fmap_cons, filter_cons.
  destruct (String.eqb_spec (TrimSpace text) "") as [Heq | Hne].
  - rewrite decide_False by (intros Hn; by apply Hn). apply IH.
  - rewrite decide_True by done. rewrite fmap_cons, IH. reflexivity.
Qed.

Lemma collectOptions_fresh TrimSpace rnds texts :
  forall k j opt,
    collectOptions TrimSpace rnds k texts !! j = Some opt ->
    OptID opt = generateID (rnds (k + j)%nat) /\ Votes opt = 0 /\
    Text opt <> EmptyString.
Proof.
  induction texts as [|text rest IH]; intros k j opt; [done |]. cbn [collectOptions].
  destruct (String.eqb_spec (TrimSpace text) "") as [Heq | Hne]; [apply IH |].
  destruct j as [|j]; simpl.
  - intros [= <-]. simpl. by rewrite Nat.add_0_r.
  - intros Hj. destruct (IH (S k) j opt Hj) as (Hid & Hv & Ht).
    split_and!; [| done | done]. rewrite Hid. f_equal. f_equal. lia.
Qed.

Lemma CreateHandler_accepted TrimSpace ParseDuration rnds now1 now2 app r :
  let question := TrimSpace (FormValue r "question") in
  let options := collectOptions TrimSpace rnds 0 (Split (FormValue r "options") "010") in
  let id := generateID (rnds (length options)) in
  let h := appHeap app in
  Method r = "POST"%string -> ParseFormFails r = false ->
  question <> EmptyString -> FormValue r "options" <> EmptyString ->
  (2 <= length options)%nat ->
  CreateHandler TrimSpace ParseDuration rnds now1 now2 app r =
    Some (mkApp
            (mkHeap
               (pollObjs h ++
                  [mkPoll id question (mkSlice (length (optCells h)) (length options))
                     now2 (expiryOf ParseDuration now1 (FormValue r "expiry"))])
               (optCells h ++ options))
            (mkStore (<[id := length (pollObjs h)]> (polls (appStore app))))
            (appChans app) (appBroadcaster app),
          Replied (HttpRedirect (String.append "/poll/" id) 303)).
Proof.
  intros question options id h Hm Hform Hq Hraw Hlen.
  unfold CreateHandler. rewrite Hm, Hform. simpl. fold question.
  destruct (String.eqb_spec question ""); [done |].
  destruct (String.eqb_spec (FormValue r "options") ""); [done |]. simpl.
  fold options. destruct (Nat.ltb_spec (length options) 2); [lia |].
  unfold newPoll. fold h.
  erewrite Create_Some;
    [| simpl; rewrite lookup_app_r by lia; rewrite Nat.sub_diag; reflexivity].
  simpl. rewrite insert_app_r_alt by lia. rewrite Nat.sub_diag. simpl.
  rewrite lookup_app_r by lia. rewrite Nat.sub_diag. simpl.
  reflexivity.
Qed.

(** X16: [CreateHandler] stores a poll only for a POST whose form
    parses, with a question that is not blank and at least two lines of
    options that are not blank; any other request gets the form page or
    an error and leaves the application as it was. An accepted request
    stores one new poll under a generated identifier, to which the
    reply redirects: its question is the trimmed question, its options
    are the trimmed non-blank lines in their order, each with a
    generated identifier and no votes. Every other entry of the store
    stays, and the store grows by one poll, unless the generated
    identifier is already in use: then the poll stored under it is
    replaced by the new one, without any error, and the store does not
    grow. The poll objects that existed read as before, and the
    listeners are not touched. *)
Theorem CreateHandler_spec TrimSpace ParseDuration rnds now1 now2 app r
  (Hs : slicesValid (appHeap app)) :
  let question := TrimSpace (FormValue r "question") in
  let options := collectOptions TrimSpace rnds 0 (Split (FormValue r "options") "010") in
  let id := generateID (rnds (length options)) in
  let poll := length (pollObjs (appHeap app)) in
  let accepted :=
    Method r = "POST"%string /\ ParseFormFails r = false /\
    question <> EmptyString /\ FormValue r "options" <> EmptyString /\
    (2 <= length options)%nat in
  (~ accepted ->
   exists reply,
     CreateHandler TrimSpace ParseDuration rnds now1 now2 app r =
       Some (app, Replied reply) /\
     forall url code, reply <> HttpRedirect url code) /\
  (accepted ->
   exists h',
     CreateHandler TrimSpace ParseDuration rnds now1 now2 app r =
       Some (mkApp h' (mkStore (<[id := poll]> (polls (appStore app))))
               (appChans app) (appBroadcaster app),
             Replied (HttpRedirect (String.append "/poll/" id) 303)) /\
     readPoll h' poll =
       Some (mkView id question options now2
               (expiryOf ParseDuration now1 (FormValue r "expiry"))) /\
     (forall q, (q < poll)%nat -> readPoll h' q = readPoll (appHeap app) q) /\
     Text <$> options =
       filter (fun t => t <> EmptyString)
         (TrimSpace <$> Split (FormValue r "options") "010") /\
     (forall j opt, options !! j = Some opt ->
        OptID opt = generateID (rnds j) /\ Votes opt = 0 /\ Text opt <> EmptyString) /\
     (forall id', id' <> id ->
        <[id := poll]> (polls (appStore app)) !! id' = polls (appStore app) !! id') /\
     (polls (appStore app) !! id = None ->
        size (<[id := poll]> (polls (appStore app))) = S (size (polls (appStore app)))) /\
     (forall old, polls (appStore app) !! id = Some old ->
        wfStore (appHeap app) (appStore app) ->
        old <> poll /\
        <[id := poll]> (polls (appStore app)) !! id = Some poll /\
        size (<[id := poll]> (polls (appStore app))) = size (polls (appStore app)))).
Proof.
  intros question options id poll accepted. split.
  - intros Hnot. unfold CreateHandler.
    destruct (String.eqb_spec (Method r) "GET") as [Hget | Hget];
      [eexists; split; [reflexivity | done] |].
    destruct (String.eqb_spec (Method r) "POST") as [Hpost | Hpost]; simpl;
      [| eexists; split; [reflexivity | done]].
    destruct (ParseFormFails r) eqn:Hform; [eexists; split; [reflexivity | done] |].
    fold question.
    destruct (String.eqb_spec question "") as [Hq | Hq]; simpl;
      [eexists; split; [reflexivity | done] |].
    destruct (String.eqb_spec (FormValue r "options") "") as [Hraw | Hraw]; simpl;
      [eexists; split; [reflexivity | done] |].
    fold options.
    destruct (Nat.ltb_spec (length options) 2) as [Hlen | Hlen];
      [eexists; split; [reflexivity | done] |].
    destruct Hnot. by split_and!.
  - intros (Hm & Hform & Hq & Hraw & Hlen).
    eexists. split; [by apply CreateHandler_accepted |]. split_and!.
    + unfold readPoll. simpl. fold poll. rewrite lookup_app_r by lia.
      rewrite Nat.sub_diag. simpl. by rewrite loadSlice_fresh.
    + intros q Hlt. apply extends_readPoll; [done | | done].
      split; simpl; eauto.
    + apply collectOptions_Text.
    + intros j opt Hj. exact (collectOptions_fresh _ _ _ 0%nat j opt Hj).
    + intros id' Hne. by apply lookup_insert_ne.
    + intros Hnone. by apply map_size_insert_None.
    + intros old Hold Hst. split_and!.
      * destruct (Hst id old Hold) as [Hlive _]. unfold poll. lia.
      * apply lookup_insert_eq.
      * by apply map_size_insert_Some.
Qed.

(** [CreateHandler_spec] on the example form: in a new application,
    and in one where the identifier that will be generated is already
    that of a stored poll. *)
Lemma CreateHandler_spec_witness :
  (exists h' s',
     CreateHandler TrimSpaceASCII exParseDuration exRnds 1 2
         (NewApp (mkHeap [] []) []) (exForm "") =
       Some (mkApp h' s' [] NewBroadcaster,
             Replied (HttpRedirect "/poll/0000000c" 303)) /\
     readPoll h' 0%nat =
       Some (mkView "0000000c" "Tabs or spaces?"
               [mkOption "0000000a" "Tabs" 0; mkOption "0000000b" "Spaces" 0] 2 0)) /\
  (let app := mkApp (mkHeap [mkPoll "0000000c" "Old poll" (mkSlice 0 2) 0 0] exOpts)
                (mkStore {["0000000c"%string := 0%nat]}) [] NewBroadcaster in
   exists h' s',
     CreateHandler TrimSpaceASCII exParseDuration exRnds 1 2 app (exForm "") =
       Some (mkApp h' s' [] NewBroadcaster,
             Replied (HttpRedirect "/poll/0000000c" 303)) /\
     polls s' !! "0000000c"%string = Some 1%nat /\
     size (polls s') = size (polls (appStore app))).
Proof.
  split.
  - assert (slicesValid (appHeap (NewApp (mkHeap [] []) []))) as Hs
      by (intros q o Hq; by simplify_eq/=).
    pose proof (CreateHandler_spec TrimSpaceASCII exParseDuration exRnds 1 2
                  (NewApp (mkHeap [] []) []) (exForm "") Hs) as Hspec.
    cbv zeta in Hspec. destruct Hspec as [_ Hacc].
    destruct Hacc as (h' & HC & Hread & _).
    + split_and!; [reflexivity | reflexivity | discriminate | discriminate |].
      vm_compute. lia.
    + eexists h', _. split; [exact HC | exact Hread].
  - intros app.
    assert (wf (appHeap app) (appStore app)) as [[Hs _] Hst].
    { apply wf_one_poll; [simpl; lia | int_counters | done]. }
    pose proof (CreateHandler_spec TrimSpaceASCII exParseDuration exRnds 1 2
                  app (exForm "") Hs) as Hspec.
    cbv zeta in Hspec. destruct Hspec as [_ Hacc].
    destruct Hacc as (h' & HC & _ & _ & _ & _ & _ & _ & Hcollide).
    + split_and!; [reflexivity | reflexivity | discriminate | discriminate |].
      vm_compute. lia.
    + destruct (Hcollide 0%nat eq_refl Hst) as (_ & Hnew & Hsize).
      eexists h', _. split; [exact HC |]. split; [exact Hnew | exact Hsize].
Defined.

Lemma CreateHandler_cases TrimSpace ParseDuration rnds now1 now2 app r :
  (Method r = "POST"%string /\ ParseFormFails r = false /\
   TrimSpace (FormValue r "question") <> EmptyString /\
   FormValue r "options" <> EmptyString /\
   (2 <= length (collectOptions TrimSpace rnds 0
                   (Split (FormValue r "options") "010")))%nat) \/
  (exists reply,
     CreateHandler TrimSpace ParseDuration rnds now1 now2 app r =
       Some (app, Replied reply) /\
     forall url code, reply <> HttpRedirect url code).
Proof.
  unfold CreateHandler.
  destruct (String.eqb_spec (Method r) "GET") as [Hget | Hget];
    [right; eexists; split; [reflexivity | done] |].
  destruct (String.eqb_spec (Method r) "POST") as [Hpost | Hpost]; simpl;
    [| right; eexists; split; [reflexivity | done]].
  destruct (ParseFormFails r) eqn:Hform;
    [right; eexists; split; [reflexivity | done] |].
  destruct (String.eqb_spec (TrimSpace (FormValue r "question")) "") as [Hq | Hq];
    simpl; [right; eexists; split; [reflexivity | done] |].
  destruct (String.eqb_spec (FormValue r "options") "") as [Hraw | Hraw]; simpl;
    [right; eexists; split; [reflexivity | done] |].
  destruct (Nat.ltb_spec
              (length (collectOptions TrimSpace rnds 0
                         (Split (FormValue r "options") "010"))) 2) as [Hlen | Hlen];
    [right; eexists; split; [reflexivity | done] |].
  left. by split_and!.
Qed.

(** X17: [CreateHandler] does not check the sign of the expiry. A
    request whose expiry parses to a duration that is zero or negative
    is accepted, and the poll it creates can never be voted on: every
    [Vote] on it at a later time answers "poll has expired". *)
Theorem CreateHandler_born_expired TrimSpace ParseDuration rnds now1 now2 app r
    app' url code hours now optionID
  (Hrun : CreateHandler TrimSpace ParseDuration rnds now1 now2 app r =
            Some (app', Replied (HttpRedirect url code)))
  (Hexpiry : FormValue r "expiry" <> EmptyString)
  (Hparse : ParseDuration (String.append (FormValue r "expiry") "h") = Some hours)
  (Hneg : hours <= 0)
  (Hset : now1 + hours <> 0)
  (Hlater : now1 < now) :
  exists id poll v,
    url = String.append "/poll/" id /\
    polls (appStore app') !! id = Some poll /\
    readPoll (appHeap app') poll = Some v /\
    vExpiresAt v = now1 + hours /\
    Vote now (appHeap app') (appStore app') id optionID =
      Some (appHeap app', inr PollExpired).
Proof.
  destruct (CreateHandler_cases TrimSpace ParseDuration rnds now1 now2 app r)
    as [(Hm & Hform & Hq & Hraw & Hlen) | (reply & Hrej & Hnot)];
    [| rewrite Hrej in Hrun; injection Hrun as _ ->; by destruct (Hnot url code)].
  rewrite (CreateHandler_accepted _ _ _ _ _ _ _ Hm Hform Hq Hraw Hlen) in Hrun.
  injection Hrun as <- <- <-.
  assert (expiryOf ParseDuration now1 (FormValue r "expiry") = now1 + hours) as Hexp.
  { unfold expiryOf. destruct (String.eqb_spec (FormValue r "expiry") ""); [done |].
    by rewrite Hparse. }
  rewrite Hexp.
  eexists _, _, _. split; [reflexivity |]. simpl. split; [apply lookup_insert_eq |].
  split.
  { unfold readPoll. simpl. rewrite lookup_app_r by lia. rewrite Nat.sub_diag. simpl.
    by rewrite loadSlice_fresh. }
  split; [reflexivity |].
  unfold Vote. simpl. rewrite lookup_insert_eq.
  rewrite lookup_app_r by lia. rewrite Nat.sub_diag. simpl.
  rewrite (proj2 (IsExpired_true now _)); [done |]. simpl. lia.
Qed.

(** [CreateHandler_born_expired] on the example form with expiry [-1]. *)
Lemma CreateHandler_born_expired_witness :
  exists app',
    CreateHandler TrimSpaceASCII exParseDuration exRnds 100 101
        (NewApp (mkHeap [] []) []) (exForm "-1") =
      Some (app', Replied (HttpRedirect "/poll/0000000c" 303)) /\
    Vote 102 (appHeap app') (appStore app') "0000000c" "0000000a" =
      Some (appHeap app', inr PollExpired).
Proof.
  destruct (CreateHandler TrimSpaceASCII exParseDuration exRnds 100 101
              (NewApp (mkHeap [] []) []) (exForm "-1")) as [[app' out]|] eqn:Hrun;
    [| by vm_compute in Hrun].
  assert (out = Replied (HttpRedirect "/poll/0000000c" 303)) as ->
    by (vm_compute in Hrun; by injection Hrun as _ <-).
  exists app'. split; [done |].
  destruct (CreateHandler_born_expired TrimSpaceASCII exParseDuration exRnds 100 101
              (NewApp (mkHeap [] []) []) (exForm "-1") app' "/poll/0000000c" 303
              (-1) 102 "0000000a" Hrun)
    as (id & poll & v & Hurl & _ & _ & _ & HV);
    [discriminate | reflexivity | lia | lia | lia |].
  cbv [String.append] in Hurl. by injection Hurl as <-.
Defined.

(** ** The mutex of the store *)

Lemma sum_list_lookup_le {A} (f : A -> nat) (l : list A) t c :
  l !! t = Some c -> (f c <= sum_list (f <$> l))%nat.
Proof.
  revert t. induction l as [|x l IH]; intros [|t] Ht; simplify_eq/=; csimpl; [lia |].
  specialize (IH t Ht). lia.
Qed.

Lemma sum_list_one {A} (f : A -> nat) (l : list A) :
  (0 < sum_list (f <$> l))%nat -> exists t c, l !! t = Some c /\ (0 < f c)%nat.
Proof.
  induction l as [|x l IH]; csimpl; [lia |]. intros Hpos.
  destruct (decide (0 < f x)%nat) as [Hx | Hx].
  - by exists 0%nat, x.
  - destruct IH as (t & c & Hc & Hfc); [lia |]. by exists (S t), c.
Qed.

Lemma sum_list_zero {A} (f : A -> nat) (l : list A) :
  Forall (fun c => f c = 0%nat) l -> sum_list (f <$> l) = 0%nat.
Proof. induction 1 as [|c l Hc _ IH]; csimpl; [done | lia]. Qed.

Lemma inBounds_mono h h' c :
  (length (pollObjs h) <= length (pollObjs h'))%nat ->
  (length (optCells h) <= length (optCells h'))%nat ->
  inBounds h c -> inBounds h' c.
Proof. unfold inBounds. intros Hp Hc. destruct (pc c); try done; lia. Qed.

Lemma stepCall_lockInv t σ σ' :
  lockInv σ -> stepCall t σ = Some σ' ->
  lockInv σ' /\ store σ' = store σ /\
  (heap σ' <> heap σ ->
   mu σ = true /\ exists c, calls σ !! t = Some c /\ inside c = 1%nat).
Proof.
  intros (Hs & Hst & Hb & Hh) Hstep. unfold stepCall in Hstep.
  destruct (calls σ !! t) as [c|] eqn:Hc; [| done]. simpl in Hstep.
  pose proof (sum_list_lookup_le inside _ _ _ Hc) as Hle. fold (holders σ) in Hle.
  assert (inBounds (heap σ) c) as Hbc by (rewrite Forall_lookup in Hb; eauto).
  assert (forall h m p,
    slicesValid h -> wfStore h (store σ) ->
    (length (pollObjs (heap σ)) <= length (pollObjs h))%nat ->
    (length (optCells (heap σ)) <= length (optCells h))%nat ->
    inBounds h (setPC c p) ->
    (inside (setPC c p) + holders σ = (if m : bool then 1 else 0) + inside c)%nat ->
    lockInv (mkShared h (store σ) m (<[t := setPC c p]> (calls σ)))) as Hnext.
  { intros h m p Hs' Hst' Hlp Hlc Hb' Hh'. split_and!; try done; cbn [heap calls mu].
    - apply Forall_insert; [| done].
      eapply Forall_impl; [exact Hb |]. intros c0. by apply inBounds_mono.
    - unfold holders. cbn [calls].
      pose proof (sum_list_insert inside (calls σ) t c (setPC c p) Hc) as Hsum.
      fold (holders σ) in Hsum. lia. }
  assert (inside c = 1%nat -> mu σ = true) as Hheld
    by (intros Hin; destruct (mu σ); [done | lia]).
  assert (inside c = 1%nat ->
    forall p, inBounds (heap σ) (setPC c p) -> inside (setPC c p) = 1%nat ->
    lockInv (mkShared (heap σ) (store σ) (mu σ) (<[t := setPC c p]> (calls σ))))
    as Hsame.
  { intros Hin p Hp Hin'. apply Hnext; try done.
    pose proof (Hheld Hin) as Hmu. rewrite Hin, Hin', Hmu. rewrite Hmu in Hh. lia. }
  unfold inBounds in Hbc. unfold inside in Hle, Hheld, Hsame.
  assert ((inside c = match pc c with AtLock | Returned _ => 0 | _ => 1 end)%nat)
    as Hic by reflexivity.
  destruct (pc c) as [| |p cell|p cell read|p|r|r] eqn:Hpc.
  - destruct (mu σ) eqn:Hmu; [done |]. injection Hstep as <-.
    split_and!; [| done | done].
    apply Hnext; try done. rewrite Hic. unfold inside. simpl. lia.
  - specialize (Hsame eq_refl).
    destruct (polls (store σ) !! callPollID c) as [poll|] eqn:Hpoll.
    + destruct (pollObjs (heap σ) !! poll) as [o|] eqn:Ho; [| done]. simpl in Hstep.
      destruct (IsExpired (callNow c) o).
      * injection Hstep as <-. split_and!; [by apply Hsame | done | done].
      * destruct (loadSlice (heap σ) (Options o)) as [opts|] eqn:Hl; [| done].
        simpl in Hstep.
        destruct (findOption (callOptionID c) opts) as [[i opt]|] eqn:Hfind.
        -- injection Hstep as <-. split_and!; [| done | done].
           apply Hsame; [| done]. unfold inBounds. simpl.
           pose proof (proj1 (findOption_Some _ _ _ _) Hfind) as (Hi & _).
           pose proof (loadSlice_Some _ _ _ Hl) as (Hv & Hlen & _).
           apply lookup_lt_Some in Hi, Ho. unfold validSlice in Hv. lia.
        -- injection Hstep as <-. split_and!; [by apply Hsame | done | done].
    + injection Hstep as <-. split_and!; [by apply Hsame | done | done].
  - specialize (Hsame eq_refl).
    destruct (optCells (heap σ) !! cell) as [opt|]; [| done]. simpl in Hstep.
    injection Hstep as <-. split_and!; [by apply Hsame | done | done].
  - specialize (Hheld eq_refl).
    destruct (optCells (heap σ) !! cell) as [cur|]; [| done]. simpl in Hstep.
    injection Hstep as <-. split_and!; [| done |].
    + apply Hnext; simpl; rewrite ?length_insert; try done.
      * by apply slicesValid_insert_cell.
      * by destruct Hbc.
      * rewrite Hheld in Hh. rewrite Hic, Hheld. unfold inside. simpl. lia.
    + intros _. split; [done |]. by exists c.
  - specialize (Hheld eq_refl).
    destruct (copyPoll (heap σ) p) as [[h' snap]|] eqn:Hcopy; [| done].
    simpl in Hstep. injection Hstep as <-.
    pose proof (copyPoll_extends _ _ _ _ Hcopy) as Hext.
    destruct (extends_length _ _ Hext) as [Hlp Hlc].
    split_and!; [| done |].
    + apply Hnext; try done.
      * by eapply copyPoll_slicesValid.
      * by eapply wfStore_extends.
      * rewrite Hheld in Hh. rewrite Hic, Hheld. unfold inside. simpl. lia.
    + intros _. split; [done |]. by exists c.
  - specialize (Hheld eq_refl).
    injection Hstep as <-. split_and!; [| done | done].
    apply Hnext; try done. rewrite Hheld in Hh. rewrite Hic. unfold inside. simpl. lia.
  - done.
Qed.

Lemma interleave_lockInv σ σ' :
  lockInv σ -> interleave σ σ' -> lockInv σ' /\ store σ' = store σ.
Proof.
  intros Hinv Hrun. induction Hrun as [σ | σ t σ1 σ2 Hstep Hrun IH]; [done |].
  destruct (stepCall_lockInv _ _ _ Hinv Hstep) as (Hinv1 & Hst1 & _).
  destruct (IH Hinv1) as [Hinv2 Hst2]. split; [done | congruence].
Qed.

Lemma lock_progress σ :
  lockInv σ -> ~ allReturned σ -> exists t σ', stepCall t σ = Some σ'.
Proof.
  intros (Hs & Hst & Hb & Hh) Hnot.
  rewrite allReturned_Forall in Hnot.
  apply not_Forall_Exists in Hnot; [| apply _].
  apply Exists_exists in Hnot as (c & [t Hc]%list_elem_of_lookup_1 & Hc_not).
  simpl in Hc_not. destruct (mu σ) eqn:Hmu.
  - clear t c Hc Hc_not.
    destruct (sum_list_one inside (calls σ)) as (t & c & Hc & Hin);
      [fold (holders σ); lia |].
    assert (inBounds (heap σ) c) as Hbc by (rewrite Forall_lookup in Hb; eauto).
    exists t. unfold stepCall. rewrite Hc. simpl.
    unfold inside in Hin. unfold inBounds in Hbc.
    destruct (pc c) as [| |p cell|p cell read|p|r|r] eqn:Hpc; try lia.
    + destruct (polls (store σ) !! callPollID c) as [poll|] eqn:Hpoll; [| eauto].
      destruct (Hst _ _ Hpoll) as [Hlive _].
      destruct (lookup_lt_is_Some_2 _ _ Hlive) as [o Ho]. rewrite Ho. simpl.
      destruct (IsExpired (callNow c) o); [eauto |].
      rewrite (loadSlice_valid _ _ (Hs poll o Ho)). simpl.
      destruct (findOption _ _) as [[i opt]|]; eauto.
    + destruct Hbc as [_ Hcell].
      destruct (lookup_lt_is_Some_2 _ _ Hcell) as [opt ->]. simpl. eauto.
    + destruct Hbc as [_ Hcell].
      destruct (lookup_lt_is_Some_2 _ _ Hcell) as [opt ->]. simpl. eauto.
    + destruct (lookup_lt_is_Some_2 _ _ Hbc) as [o Ho].
      destruct (copyPoll_Some _ _ _ Hs Ho) as (? & _ & ->). simpl. eauto.
    + eauto.
  - assert (inside c = 0%nat) as Hin.
    { pose proof (sum_list_lookup_le inside _ _ _ Hc) as Hle.
      fold (holders σ) in Hle. lia. }
    exists t. unfold stepCall. rewrite Hc. simpl.
    unfold inside in Hin. unfold hasReturned in Hc_not.
    destruct (pc c); try done. rewrite Hmu. eauto.
Qed.

Lemma lock_complete σ :
  lockInv σ -> exists σ', interleave σ σ' /\ allReturned σ'.
Proof.
  remember (remaining σ) as n eqn:Hn. revert σ Hn.
  induction (lt_wf n) as [n _ IH]. intros σ -> Hinv.
  destruct (decide (Forall (fun c => hasReturned c = true) (calls σ))) as [Hall | Hnot].
  - exists σ. split; [apply interleave_refl | by apply allReturned_Forall].
  - destruct (lock_progress σ Hinv) as (t & σ1 & Hstep);
      [by rewrite allReturned_Forall |].
    destruct (IH (remaining σ1) (stepCall_remaining _ _ _ Hstep) σ1 eq_refl)
      as (σ' & Hrun & Hall); [by eapply stepCall_lockInv |].
    exists σ'. split; [by eapply interleave_step | done].
Qed.

(** X18: the mutex of the store does its work for any mix of concurrent
    calls of [Vote], whatever polls and options they name and whether
    they succeed or fail. Started with the mutex free, at every moment
    the mutex is held exactly when one call is between its [Lock] and
    its deferred [Unlock], so never two; only that call writes to
    memory; while a call has not returned some call can move, so there
    is no deadlock; all calls can be brought to return, and when all
    have returned the mutex is free again, on the error paths too. *)
Theorem Vote_mutex σ0 σ
  (Hs : slicesValid (heap σ0))
  (Hst : wfStore (heap σ0) (store σ0))
  (Hmu : mu σ0 = false)
  (Hstart : forall c, c ∈ calls σ0 -> pc c = AtLock)
  (Hrun : interleave σ0 σ) :
  holders σ = (if mu σ then 1 else 0)%nat /\
  (forall t t' c c',
     calls σ !! t = Some c -> calls σ !! t' = Some c' ->
     inside c = 1%nat -> inside c' = 1%nat -> t = t') /\
  (forall t σ', stepCall t σ = Some σ' -> heap σ' <> heap σ ->
     mu σ = true /\ exists c, calls σ !! t = Some c /\ inside c = 1%nat) /\
  (~ allReturned σ -> exists t σ', stepCall t σ = Some σ') /\
  (exists σ', interleave σ σ' /\ allReturned σ') /\
  (allReturned σ -> mu σ = false) /\
  store σ = store σ0.
Proof.
  assert (lockInv σ0) as Hinv0.
  { split_and!; try done.
    - apply Forall_forall. intros c Hc. unfold inBounds. by rewrite (Hstart c Hc).
    - rewrite Hmu. unfold holders.
      assert (Forall (fun c => inside c = 0%nat) (calls σ0)) as Hzero.
      { apply Forall_forall. intros c Hc. unfold inside. by rewrite (Hstart c Hc). }
      by apply sum_list_zero. }
  destruct (interleave_lockInv _ _ Hinv0 Hrun) as [Hinv Hstore].
  pose proof Hinv as (_ & _ & _ & Hh).
  split_and!; try done.
  - intros t t' c c' Hc Hc' Hin Hin'.
    destruct (decide (t = t')) as [| Hne]; [done |]. exfalso.
    assert (holders σ <= 1)%nat as Hle by (destruct (mu σ); lia).
    pose proof (sum_list_insert inside (calls σ) t c (setPC c AtLock) Hc) as Hsum.
    fold (holders σ) in Hsum.
    assert (<[t := setPC c AtLock]> (calls σ) !! t' = Some c') as Hc''
      by by rewrite list_lookup_insert_ne.
    pose proof (sum_list_lookup_le inside _ _ _ Hc'') as Hle'.
    change (inside (setPC c AtLock)) with 0%nat in Hsum. lia.
  - intros t σ' Hstep. by apply (stepCall_lockInv _ _ _ Hinv Hstep).
  - by apply lock_progress.
  - by apply lock_complete.
  - intros Hall. destruct (mu σ); [| done]. exfalso.
    destruct (sum_list_one inside (calls σ)) as (t & c & Hc & Hin);
      [fold (holders σ); lia |].
    pose proof (Hall c (list_elem_of_lookup_2 _ _ _ Hc)) as Hret.
    unfold hasReturned in Hret. unfold inside in Hin. destruct (pc c); try done; lia.
Qed.

(** [Vote_mutex]: three concurrent calls on the example store, one for
    an option of the poll, one for a poll that does not exist and one
    for an option that does not exist. *)
Lemma Vote_mutex_witness :
  let σ0 := mkShared exHeap exStore false
              [mkVoteCall 0 "p1" "b" AtLock; mkVoteCall 0 "zz" "a" AtLock;
               mkVoteCall 0 "p1" "zz" AtLock] in
  exists σ,
    runSchedule [1; 1; 1; 0; 0; 0; 0; 0; 0; 2; 2; 2]%nat σ0 = Some σ /\
    allReturned σ /\ mu σ = false.
Proof.
  intros σ0.
  destruct (runSchedule [1; 1; 1; 0; 0; 0; 0; 0; 0; 2; 2; 2]%nat σ0) as [σ|] eqn:Hrun;
    [| by vm_compute in Hrun].
  assert (allReturned σ) as Hall.
  { vm_compute in Hrun. injection Hrun as <-. intros c Hc.
    apply list_elem_of_In in Hc. simpl in Hc.
    destruct Hc as [<- | [<- | [<- | []]]]; reflexivity. }
  assert (forall c, c ∈ calls σ0 -> pc c = AtLock) as Hstart.
  { intros c Hc. apply list_elem_of_In in Hc. simpl in Hc.
    destruct Hc as [<- | [<- | [<- | []]]]; reflexivity. }
  destruct (Vote_mutex σ0 σ (proj1 (proj1 exWf)) (proj2 exWf) eq_refl Hstart
              (runSchedule_interleave _ _ _ Hrun)) as (_ & _ & _ & _ & _ & Hfree & _).
  exists σ. split_and!; [done | done | by apply Hfree].
Defined.

(** ** EventsHandler *)

Lemma Get_wf h s id h' r : wf h s -> Get h s id = Some (h', r) -> wf h' s.
Proof.
  intros [Hh Hst] HG. unfold Get in HG. destruct (polls s !! id) as [poll|].
  - destruct (copyPoll h poll) as [[h1 c]|] eqn:Hc; simplify_eq/=.
    split; [by eapply copyPoll_wfHeap |].
    eapply wfStore_extends; [by eapply copyPoll_extends | done].
  - by injection HG as <- _.
Qed.

Lemma Unsubscribe_fresh cs b pollID :
  wfNotifier cs b ->
  Unsubscribe (cs ++ [mkChan [] 10 false])
    (mkBroadcaster
       (<[pollID := <[length cs := true]> (default ∅ (subscribers b !! pollID))]>
          (subscribers b)))
    pollID (length cs) =
  (cs ++ [mkChan [] 10 true],
   mkBroadcaster (<[pollID := default ∅ (subscribers b !! pollID)]> (subscribers b)),
   None).
Proof.
  intros [Hlive _].
  assert (default ∅ (subscribers b !! pollID) !! length cs = None) as Hnone.
  { destruct (subscribers b !! pollID) as [subs|] eqn:Hsubs; simpl; [| done].
    destruct (subs !! length cs) as [x|] eqn:Hx; [| done].
    destruct (Hlive pollID subs (length cs) Hsubs) as (c & Hc & _); [by eexists |].
    apply lookup_lt_Some in Hc. lia. }
  erewrite Unsubscribe_open;
    [| apply lookup_insert_eq
     | rewrite lookup_app_r by lia; rewrite Nat.sub_diag; reflexivity
     | done].
  simpl. rewrite insert_app_r_alt by lia. rewrite Nat.sub_diag. simpl.
  by rewrite insert_insert_eq, delete_insert_id.
Qed.

(** X19: the course of [EventsHandler]. For a poll that is not stored
    it answers 404 and subscribes nothing. For a stored poll it
    subscribes a new channel; without a flusher it answers 500 and its
    deferred [Unsubscribe] takes the channel out again; with one, it
    sends the poll as it is stored as first frame, then waits, as
    nothing has been broadcast to its channel; and when the request
    ends, its deferred [Unsubscribe] does not panic and leaves the
    listeners of the poll as they were before the request, with the
    channel closed. *)
Theorem EventsHandler_lifecycle marshal app r conn
  (Hwf : wf (appHeap app) (appStore app))
  (Hn : wfNotifier (appChans app) (appBroadcaster app))
  (Hstart : connPC conn = EvStart) :
  let pollID := TrimPrefix (URLPath r) "/events/" in
  let subs0 := default ∅ (subscribers (appBroadcaster app) !! pollID) in
  let ch := length (appChans app) in
  let before := mkBroadcaster (<[pollID := subs0]> (subscribers (appBroadcaster app))) in
  let during :=
    mkBroadcaster (<[pollID := <[ch := true]> subs0]> (subscribers (appBroadcaster app))) in
  (polls (appStore app) !! pollID = None ->
   forall canFlush,
     EventsHandler marshal canFlush Proceed app r conn =
       Some (app,
             mkConn EvReturned (connFrames conn) (Some (HttpError "Poll not found" 404)),
             None)) /\
  (forall poll v,
     polls (appStore app) !! pollID = Some poll ->
     readPoll (appHeap app) poll = Some v ->
     (exists h1,
        EventsHandler marshal false Proceed app r conn =
          Some (mkApp h1 (appStore app) (appChans app ++ [mkChan [] 10 true]) before,
                mkConn EvReturned (connFrames conn)
                  (Some (HttpError "Streaming not supported" 500)),
                None)) /\
     (exists h1 h2,
        let app1 :=
          mkApp h1 (appStore app) (appChans app ++ [mkChan [] 10 false]) during in
        let conn1 := mkConn (EvSubscribed pollID ch) (connFrames conn) (connReply conn) in
        let app2 :=
          mkApp h2 (appStore app) (appChans app ++ [mkChan [] 10 false]) during in
        let conn2 :=
          mkConn (EvStreaming pollID ch) (connFrames conn ++ [frame (marshal v)])
            (connReply conn) in
        EventsHandler marshal true Proceed app r conn = Some (app1, conn1, None) /\
        EventsHandler marshal true Proceed app1 r conn1 = Some (app2, conn2, None) /\
        EventsHandler marshal true Message app2 r conn2 = None /\
        EventsHandler marshal true Done app2 r conn2 =
          Some (mkApp h2 (appStore app) (appChans app ++ [mkChan [] 10 true]) before,
                mkConn EvReturned (connFrames conn ++ [frame (marshal v)])
                  (connReply conn),
                None))).
Proof.
  intros pollID subs0 ch before during.
  destruct app as [h s cs b]. destruct conn as [pc0 frames reply].
  simpl in *. subst pc0. split.
  - intros Hnone canFlush. unfold EventsHandler, Get. simpl. fold pollID.
    by rewrite Hnone.
  - intros poll v Hpoll Hv.
    destruct (Get_stored h s pollID poll Hwf Hpoll) as (h1 & c1 & HG1 & _ & _ & Hread1).
    pose proof (Get_wf _ _ _ _ _ Hwf HG1) as Hwf1.
    destruct (Get_stored h1 s pollID poll Hwf1 Hpoll) as (h2 & c2 & HG2 & _ & _ & Hread2).
    assert (readPoll h1 poll = Some v) as Hv1.
    { rewrite <- Hv. apply extends_readPoll; [apply Hwf | |].
      - unfold Get in HG1. rewrite Hpoll in HG1.
        destruct (copyPoll h poll) as [[h' c']|] eqn:Hc; simplify_eq/=.
        by eapply copyPoll_extends.
      - by apply (proj2 Hwf pollID poll). }
    split.
    + exists h1. unfold EventsHandler. cbn -[Unsubscribe Subscribe Get].
      fold pollID. rewrite HG1. unfold Subscribe. cbn -[Unsubscribe].
      by rewrite (Unsubscribe_fresh cs b pollID Hn).
    + exists h1, h2. cbv zeta. split_and!.
      * unfold EventsHandler. simpl. fold pollID. by rewrite HG1.
      * unfold EventsHandler. simpl. rewrite HG2. simpl.
        by rewrite Hread2, Hv1.
      * unfold EventsHandler, Recv. simpl. fold ch.
        rewrite lookup_app_r by (unfold ch; lia).
        by replace (ch - length cs)%nat with 0%nat by (unfold ch; lia).
      * unfold EventsHandler. cbn -[Unsubscribe]. subst during before ch subs0.
        by rewrite (Unsubscribe_fresh cs b pollID Hn).
Qed.

(** [EventsHandler_lifecycle]: a client connects to the events of the
    example poll and leaves. *)
Lemma EventsHandler_lifecycle_witness :
  let r := mkRequest "GET" "/events/p1" false (fun _ => EmptyString)
             (fun _ => EmptyString) in
  let app := mkApp exHeap exStore [] NewBroadcaster in
  exists app1 conn1 app2 conn2 app3 conn3,
    EventsHandler vQuestion true Proceed app r (mkConn EvStart [] None) =
      Some (app1, conn1, None) /\
    EventsHandler vQuestion true Proceed app1 r conn1 = Some (app2, conn2, None) /\
    connFrames conn2 = [frame "Tabs or spaces?"] /\
    EventsHandler vQuestion true Done app2 r conn2 = Some (app3, conn3, None) /\
    subscribers (appBroadcaster app3) !! "p1"%string = Some ∅.
Proof.
  intros r app.
  pose proof (EventsHandler_lifecycle vQuestion app r (mkConn EvStart [] None)
                exWf wfNotifier_New eq_refl) as Hspec.
  cbv zeta in Hspec. destruct Hspec as [_ Hfound].
  change (TrimPrefix (URLPath r) "/events/") with "p1"%string in Hfound.
  destruct (Hfound 0%nat
              (mkView "p1" "Tabs or spaces?" exOpts 100 0) eq_refl eq_refl)
    as [_ (h1 & h2 & H1 & H2 & _ & H3)].
  eexists _, _, _, _, _, _.
  split; [exact H1 |]. split; [exact H2 |]. split; [reflexivity |].
  split; [exact H3 |]. simpl. apply lookup_insert_eq.
Defined.

Lemma VoteHandler_accepted marshal now ord app r h' c :
  slicesValid (appHeap app) ->
  wfNotifier (appChans app) (appBroadcaster app) ->
  (forall subs,
     subscribers (appBroadcaster app) !! TrimPrefix (URLPath r) "/vote/" = Some subs ->
     ord ≡ₚ (map_to_list subs).*1) ->
  Method r = "POST"%string -> FormValue r "option" <> EmptyString ->
  Vote now (appHeap app) (appStore app) (TrimPrefix (URLPath r) "/vote/")
    (FormValue r "option") = Some (h', inl c) ->
  exists poll v cs',
    polls (appStore app) !! TrimPrefix (URLPath r) "/vote/" = Some poll /\
    readPoll h' poll = Some v /\
    Broadcast ord (appChans app) (appBroadcaster app)
      (TrimPrefix (URLPath r) "/vote/") (marshal v) = (cs', None) /\
    VoteHandler marshal now ord app r =
      Some (mkApp h' (appStore app) cs' (appBroadcaster app),
            Replied (if String.eqb (HeaderGet r "Accept") "application/json"
                     then EncodeJSON v
                     else HttpRedirect
                            (String.append "/poll/" (TrimPrefix (URLPath r) "/vote/"))
                            303)).
Proof.
  intros Hs Hwf Hord Hm Hopt HV.
  destruct (Vote_stored_reads _ _ _ _ _ _ _ Hs HV) as (poll & v & Hpoll & Hc & Hstored).
  assert (exists cs',
    Broadcast ord (appChans app) (appBroadcaster app)
      (TrimPrefix (URLPath r) "/vote/") (marshal v) = (cs', None)) as (cs' & HB).
  { destruct (subscribers (appBroadcaster app) !! TrimPrefix (URLPath r) "/vote/")
      as [subs|] eqn:Hsubs.
    - destruct (Broadcast_registered ord _ _ _ (marshal v) subs Hwf Hsubs
                  (Hord subs eq_refl)) as (cs' & HB & _). by exists cs'.
    - exists (appChans app). unfold Broadcast. by rewrite Hsubs. }
  exists poll, v, cs'. split_and!; try done.
  unfold VoteHandler. rewrite Hm. simpl.
  destruct (String.eqb_spec (FormValue r "option") ""); [done |].
  rewrite HV. simpl. rewrite Hc. simpl. rewrite HB.
  by destruct (String.eqb (HeaderGet r "Accept") "application/json").
Qed.

(** X20: a vote reaches the clients that are connected. When
    [VoteHandler] gets a vote that the store accepts while an
    [EventsHandler] is in its loop for that poll, with nothing waiting
    on its channel, the next thing this [EventsHandler] writes is the
    frame with the JSON of the poll as stored after the vote. *)
Theorem vote_reaches_listener marshal now ord canFlush app rv r conn pollID ch subs c0 h' c
  (Hs : slicesValid (appHeap app))
  (Hwf : wfNotifier (appChans app) (appBroadcaster app))
  (Hloop : connPC conn = EvStreaming pollID ch)
  (Hsubs : subscribers (appBroadcaster app) !! pollID = Some subs)
  (Hreg : is_Some (subs !! ch))
  (Hord : ord ≡ₚ (map_to_list subs).*1)
  (Hch : appChans app !! ch = Some c0)
  (Hempty : buf c0 = [])
  (Hpost : Method rv = "POST"%string)
  (Hpath : TrimPrefix (URLPath rv) "/vote/" = pollID)
  (Hopt : FormValue rv "option" <> EmptyString)
  (Hvote : Vote now (appHeap app) (appStore app) pollID (FormValue rv "option") =
             Some (h', inl c)) :
  exists app1 reply poll v app2,
    VoteHandler marshal now ord app rv = Some (app1, Replied reply) /\
    polls (appStore app1) !! pollID = Some poll /\
    readPoll (appHeap app1) poll = Some v /\
    EventsHandler marshal canFlush Message app1 r conn =
      Some (app2,
            mkConn (EvStreaming pollID ch) (connFrames conn ++ [frame (marshal v)])
              (connReply conn),
            None) /\
    appChans app2 !! ch = Some (mkChan [] 10 false).
Proof.
  subst pollID.
  destruct (VoteHandler_accepted marshal now ord app rv h' c Hs Hwf) as
    (poll & v & cs' & Hpoll & Hv & HB & HH); try done.
  { intros subs' Hsubs'. by assert (subs' = subs) as -> by congruence. }
  destruct (Broadcast_registered ord _ _ _ (marshal v) subs Hwf Hsubs Hord)
    as (cs1 & HB1 & _ & Hcells).
  assert (cs1 = cs') as -> by congruence.
  destruct Hwf as [Hlive _].
  destruct (Hlive _ subs ch Hsubs Hreg) as (c0' & Hc0' & Hopen & Hcap).
  assert (c0' = c0) as -> by congruence.
  pose proof (Hcells ch c0 Hch) as Hsent.
  rewrite decide_True in Hsent by (split; [done | rewrite Hempty, Hcap; simpl; lia]).
  eexists _, _, poll, v, _. split; [exact HH |]. simpl.
  split; [done |]. split; [done |].
  unfold EventsHandler. rewrite Hloop. simpl. unfold Recv. rewrite Hsent. simpl.
  rewrite Hempty. simpl. split; [reflexivity |]. simpl.
  rewrite list_lookup_insert_eq by by eapply lookup_lt_Some. by rewrite Hcap.
Qed.

(** [vote_reaches_listener]: the listener on channel 1 of the example
    notifier has taken its pending message; then a vote for option [b]
    of the poll is posted. *)
Lemma vote_reaches_listener_witness :
  let rv := mkRequest "POST" "/vote/p1" false
              (fun key => if String.eqb key "option" then "b"%string else EmptyString)
              (fun _ => EmptyString) in
  let r := mkRequest "GET" "/events/p1" false (fun _ => EmptyString)
             (fun _ => EmptyString) in
  let app := mkApp exHeap exStore [fullChan; mkChan [] 10 false] exBroadcaster in
  let conn := mkConn (EvStreaming "p1" 1%nat) [frame "Tabs or spaces?"] None in
  exists app1 reply app2 conn2,
    VoteHandler vQuestion 0 (map_to_list exSubs).*1 app rv = Some (app1, Replied reply) /\
    EventsHandler vQuestion true Message app1 r conn = Some (app2, conn2, None) /\
    connFrames conn2 = [frame "Tabs or spaces?"; frame "Tabs or spaces?"].
Proof.
  intros rv r app conn.
  assert (wfNotifier (appChans app) (appBroadcaster app)) as Hwf.
  { apply wfNotifier_one_key. intros ch [x Hx]. unfold exSubs in Hx.
    apply lookup_insert_Some in Hx as [[<- _] | [_ Hx]]; [by eexists |].
    apply lookup_singleton_Some in Hx as [<- _]. by eexists. }
  destruct (Vote 0 exHeap exStore "p1" "b") as [[h' [c|e]]|] eqn:HV;
    [| by vm_compute in HV | by vm_compute in HV].
  destruct (vote_reaches_listener vQuestion 0 (map_to_list exSubs).*1 true app rv r conn
              "p1" 1%nat exSubs (mkChan [] 10 false) h' c (proj1 (proj1 exWf)) Hwf
              eq_refl eq_refl (ex_intro _ true eq_refl) (reflexivity _) eq_refl eq_refl
              eq_refl eq_refl ltac:(discriminate) HV)
    as (app1 & reply & poll & v & app2 & HH & Hpoll & Hv & HE & _).
  assert (poll = 0%nat) as ->.
  { assert (appStore app1 = exStore) as Hst.
    { unfold VoteHandler in HH. simpl in HH.
      change (TrimPrefix "/vote/p1" "/vote/") with "p1"%string in HH.
      rewrite HV in HH. simpl in HH.
      destruct (readPoll h' c); simpl in HH; [| done].
      destruct (Broadcast _ _ _ _ _) as [cs' [msg|]]; by injection HH as <- _. }
    rewrite Hst in Hpoll. vm_compute in Hpoll. congruence. }
  assert (vQuestion v = "Tabs or spaces?"%string) as Hq.
  { assert (appHeap app1 = h') as Hh.
    { unfold VoteHandler in HH. simpl in HH.
      change (TrimPrefix "/vote/p1" "/vote/") with "p1"%string in HH.
      rewrite HV in HH. simpl in HH.
      destruct (readPoll h' c); simpl in HH; [| done].
      destruct (Broadcast _ _ _ _ _) as [cs' [msg|]]; by injection HH as <- _. }
    rewrite Hh in Hv. vm_compute in HV. injection HV as <- _.
    vm_compute in Hv. by injection Hv as <-. }
  eexists app1, reply, app2, _. split; [exact HH |]. split; [exact HE |].
  simpl. by rewrite Hq.
Defined.

(** X21: [Delete] does not reach the listeners. When a poll is deleted
    after an [EventsHandler] has subscribed to it and before it sends
    its first frame, that frame carries the JSON of a nil pointer,
    [null]; the handler then enters its loop, still registered as
    listener of the poll that is gone. *)
Theorem EventsHandler_deleted marshal app r conn poll
  (Hwf : wf (appHeap app) (appStore app))
  (Hstart : connPC conn = EvStart)
  (Hpoll : polls (appStore app) !! TrimPrefix (URLPath r) "/events/" = Some poll) :
  let pollID := TrimPrefix (URLPath r) "/events/" in
  let ch := length (appChans app) in
  exists app1 conn1 s2 subs,
    EventsHandler marshal true Proceed app r conn = Some (app1, conn1, None) /\
    Delete (appStore app1) pollID = (s2, true) /\
    let app2 := mkApp (appHeap app1) s2 (appChans app1) (appBroadcaster app1) in
    EventsHandler marshal true Proceed app2 r conn1 =
      Some (app2,
            mkConn (EvStreaming pollID ch) (connFrames conn ++ [frame "null"])
              (connReply conn),
            None) /\
    subscribers (appBroadcaster app2) !! pollID = Some subs /\
    subs !! ch = Some true.
Proof.
  intros pollID ch. subst pollID ch.
  destruct app as [h s cs b]. destruct conn as [pc0 frames reply].
  simpl in *. subst pc0.
  destruct (Get_stored h s _ poll Hwf Hpoll) as (h1 & c1 & HG1 & _).
  eexists _, _, _, _. split.
  { unfold EventsHandler. simpl. rewrite HG1. reflexivity. }
  simpl. split; [unfold Delete; simpl; by rewrite Hpoll |].
  split_and!.
  - unfold EventsHandler, Get. simpl. by rewrite lookup_delete_eq.
  - apply lookup_insert_eq.
  - apply lookup_insert_eq.
Qed.

(** [EventsHandler_deleted] on the example poll. *)
Lemma EventsHandler_deleted_witness :
  let r := mkRequest "GET" "/events/p1" false (fun _ => EmptyString)
             (fun _ => EmptyString) in
  let app := mkApp exHeap exStore [] NewBroadcaster in
  exists app1 conn1 s2 app2 conn2,
    EventsHandler vQuestion true Proceed app r (mkConn EvStart [] None) =
      Some (app1, conn1, None) /\
    Delete (appStore app1) "p1" = (s2, true) /\
    EventsHandler vQuestion true Proceed
        (mkApp (appHeap app1) s2 (appChans app1) (appBroadcaster app1)) r conn1 =
      Some (app2, conn2, None) /\
    connFrames conn2 = [frame "null"].
Proof.
  intros r app.
  pose proof (EventsHandler_deleted vQuestion app r (mkConn EvStart [] None) 0%nat
                exWf eq_refl eq_refl) as Hspec.
  cbv zeta in Hspec.
  change (TrimPrefix (URLPath r) "/events/") with "p1"%string in Hspec.
  destruct Hspec as (app1 & conn1 & s2 & subs & H1 & HD & H2 & _).
  eexists app1, conn1, s2, _, _.
  split; [exact H1 |]. split; [exact HD |]. split; [exact H2 |]. reflexivity.
Defined.

(** * Replacing and re-creating polls *)

(** ** Create under an identifier in use *)

(** C10, as amended: [Create] of a record whose identifier [X] is
    already in the store returns (its error is always [nil]) and files
    that record under [X] in place of the poll stored before, leaving
    every other entry; [Get(X)] then returns a snapshot with the
    record's question and the options the record holds, with their
    counters, stamped [now]. When the record is another object than the
    poll stored before, that poll is left as it was, and, unless it is
    also stored under another identifier, it is out of the store for
    good: after any later operations other than a [Create] of it, no
    identifier leads to it, so its counters are lost to the users of
    the store. When the record is the stored poll itself, nothing is
    lost: it keeps its options and gets a new creation instant. *)
Theorem Create_replaces sortSlice rnd now h s X old poll o opts
  (Hwf : wf h s)
  (Hold : polls s !! X = Some old)
  (Ho : pollObjs h !! poll = Some o)
  (HX : ID o = X)
  (Hopts : loadSlice h (Options o) = Some opts) :
  exists h1 s1 h2 c,
    Create rnd now h s poll = Some (h1, s1) /\
    polls s1 !! X = Some poll /\
    (forall id, id <> X -> polls s1 !! id = polls s !! id) /\
    Get h1 s1 X = Some (h2, Some c) /\
    readPoll h2 c = Some (mkView X (Question o) opts now (ExpiresAt o)) /\
    wf h1 s1 /\
    (poll <> old ->
     readPoll h1 old = readPoll h old /\
     ((forall id, polls s !! id = Some old -> id = X) ->
      forall ops h' s',
        old ∉ createdBy ops -> run sortSlice ops (h1, s1) = Some (h', s') ->
        forall id, polls s' !! id <> Some old)) /\
    (poll = old ->
     readPoll h old = Some (mkView X (Question o) opts (CreatedAt o) (ExpiresAt o)) /\
     readPoll h1 old = Some (mkView X (Question o) opts now (ExpiresAt o))).
Proof.
  pose proof (Create_Some rnd now h s poll o Ho) as HC.
  assert (createdID rnd o = X) as Hid.
  { unfold createdID. destruct (String.eqb_spec (ID o) ""); [| done].
    destruct Hwf as [_ Hst]. destruct (Hst X old Hold) as [_ Hne]. congruence. }
  rewrite Hid in HC.
  pose proof (Create_wf _ _ _ _ _ _ _ Hwf HC) as Hwf1.
  set (h1 := mkHeap _ _) in *. set (s1 := mkStore _) in *.
  assert (polls s1 !! X = Some poll) as HX1 by apply lookup_insert_eq.
  destruct (Get_stored h1 s1 X poll Hwf1 HX1) as (h2 & c & HG & _ & _ & Hread).
  assert (readPoll h1 poll = Some (mkView X (Question o) opts now (ExpiresAt o)))
    as Hnew.
  { unfold readPoll. simpl.
    rewrite list_lookup_insert_eq by (by eapply lookup_lt_Some). simpl.
    assert (loadSlice h1 (Options o) = loadSlice h (Options o)) as -> by done.
    by rewrite Hopts. }
  exists h1, s1, h2, c. split_and!; try done.
  - intros id Hne. simpl. by apply lookup_insert_ne.
  - by rewrite Hread.
  - intros Hne. split.
    + unfold readPoll. simpl. by rewrite list_lookup_insert_ne.
    + intros Honly ops h' s' Hnot Hrun id Hid'.
      destruct (run_stored _ _ _ _ _ _ _ _ Hrun Hid') as [[id0 Hid0] | Hin];
        [| done].
      simpl in Hid0. apply lookup_insert_Some in Hid0 as [[_ Heq] | [Hne0 Hid0]];
        [done |].
      by apply Hne0, eq_sym, Honly.
  - intros <-. split; [| done].
    unfold readPoll. rewrite Ho. simpl. rewrite Hopts. simpl. by rewrite HX.
Qed.

(** [Create_replaces] where a second record, also named [p1], takes the
    place of the example poll: [Get] returns the new record, and after
    a vote and a listing no identifier leads to the old poll. *)
Lemma Create_replaces_witness :
  let h := mkHeap [exPoll; mkPoll "p1" "Vim or Emacs?" (mkSlice 2 1) 0 0]
                  (exOpts ++ [mkOption "v" "Vim" 0]) in
  exists h1 s1 h2 c,
    Create (Byte.x00, Byte.x00, Byte.x00, Byte.x00) 200 h exStore 1%nat = Some (h1, s1) /\
    Get h1 s1 "p1" = Some (h2, Some c) /\
    readPoll h2 c = Some (mkView "p1" "Vim or Emacs?" [mkOption "v" "Vim" 0] 200 0) /\
    readPoll h1 0%nat = readPoll h 0%nat /\
    exists h' s',
      run insertionSort [OpVote 201 "p1" "v"; OpList [("p1"%string, 1%nat)]] (h1, s1) =
        Some (h', s') /\
      forall id, polls s' !! id <> Some 0%nat.
Proof.
  intros h.
  destruct (Create_replaces insertionSort (Byte.x00, Byte.x00, Byte.x00, Byte.x00) 200
              h exStore "p1" 0%nat 1%nat (mkPoll "p1" "Vim or Emacs?" (mkSlice 2 1) 0 0)
              [mkOption "v" "Vim" 0])
    as (h1 & s1 & h2 & c & HC & _ & _ & HG & Hread & _ & Hother & _).
  - solve_wf.
  - reflexivity.
  - reflexivity.
  - reflexivity.
  - reflexivity.
  - destruct (Hother ltac:(discriminate)) as [Hold Hgone].
    exists h1, s1, h2, c. split_and!; try done.
    destruct (run insertionSort [OpVote 201 "p1" "v"; OpList [("p1"%string, 1%nat)]]
                (h1, s1)) as [[h' s']|] eqn:Hrun;
      [| vm_compute in HC; injection HC as <- <-; by vm_compute in Hrun].
    exists h', s'. split; [done |].
    assert (forall id, polls exStore !! id = Some 0%nat -> id = "p1"%string) as Honly.
    { intros id Hid. simpl in Hid. by apply lookup_singleton_Some in Hid as [<- _]. }
    apply (Hgone Honly [OpVote 201 "p1" "v"; OpList [("p1"%string, 1%nat)]] h' s');
      [| done].
    apply not_elem_of_nil.
Defined.

(** C10 fails as stated when the record handed to [Create] is the
    stored poll itself, or a new record over the stored poll's option
    array: [Get] then returns the counters 3 and 5 the poll had, so
    they are not lost. *)
Lemma Create_replaces_counterexample :
  let rnd := (Byte.x00, Byte.x00, Byte.x00, Byte.x00) in
  (polls exStore !! "p1"%string = Some 0%nat /\
   readPoll exHeap 0%nat = Some (mkView "p1" "Tabs or spaces?" exOpts 100 0) /\
   exists h1 s1 h2 c,
     Create rnd 200 exHeap exStore 0%nat = Some (h1, s1) /\
     Get h1 s1 "p1" = Some (h2, Some c) /\
     readPoll h2 c = Some (mkView "p1" "Tabs or spaces?" exOpts 200 0)) /\
  (let h := mkHeap [exPoll; mkPoll "p1" "Vim or Emacs?" (mkSlice 0 2) 0 0] exOpts in
   wf h exStore /\
   readPoll h 0%nat = Some (mkView "p1" "Tabs or spaces?" exOpts 100 0) /\
   exists h1 s1 h2 c,
     Create rnd 200 h exStore 1%nat = Some (h1, s1) /\
     Get h1 s1 "p1" = Some (h2, Some c) /\
     readPoll h2 c = Some (mkView "p1" "Vim or Emacs?" exOpts 200 0)) /\
  Votes <$> exOpts = [3; 5].
Proof.
  intros rnd. split; [| split].
  - split; [reflexivity |]. split; [reflexivity |].
    eexists _, _, _, _. split_and!; [vm_compute; reflexivity | vm_compute; reflexivity |].
    reflexivity.
  - intros h. split; [solve_wf |]. split; [reflexivity |].
    eexists _, _, _, _. split_and!; [vm_compute; reflexivity | vm_compute; reflexivity |].
    reflexivity.
  - reflexivity.
Qed.

(** ** How polls evolve *)

Lemma voteCell_inr now h s pollID optionID h' e :
  Vote now h s pollID optionID = Some (h', inr e) ->
  voteCell now h s pollID optionID = None.
Proof.
  unfold Vote, voteCell. intros HV.
  destruct (polls s !! pollID) as [poll|]; [| done]. simpl.
  destruct (pollObjs h !! poll) as [o|]; simpl in *; [| done].
  destruct (IsExpired now o); [done |].
  destruct (loadSlice h (Options o)) as [opts|]; simpl in *; [| done].
  destruct (findOption optionID opts) as [[i opt]|]; [| done].
  destruct (copyPoll _ poll) as [[h2 c]|]; simplify_eq/=.
Qed.

Lemma Vote_cells now h s pollID optionID h' r a c :
  slicesValid h -> Vote now h s pollID optionID = Some (h', r) ->
  optCells h !! a = Some c ->
  optCells h' !! a =
    Some (if bool_decide (voteCell now h s pollID optionID = Some a)
          then incrVotes c else c).
Proof.
  intros Hs HV Ha. destruct r as [snap | e].
  - destruct (Vote_inl_inv _ _ _ _ _ _ _ Hs HV)
      as (poll & o & opts & i & opt & Hpoll & Ho & Hexp & Hl & Hfind & Hi & Hcell & _ & ->).
    assert (voteCell now h s pollID optionID = Some (ptr (Options o) + i)%nat) as ->.
    { unfold voteCell. rewrite Hpoll. simpl. rewrite Ho. simpl. rewrite Hexp, Hl. simpl.
      by rewrite Hfind. }
    simpl. rewrite lookup_app_l by (rewrite length_insert; by eapply lookup_lt_Some).
    destruct (decide (a = ptr (Options o) + i)%nat) as [-> | Hne].
    + rewrite bool_decide_eq_true_2 by done.
      rewrite list_lookup_insert_eq by by eapply lookup_lt_Some. congruence.
    + rewrite bool_decide_eq_false_2 by congruence.
      by rewrite list_lookup_insert_ne.
  - rewrite (voteCell_inr _ _ _ _ _ _ _ HV). rewrite bool_decide_eq_false_2 by done.
    by rewrite (Vote_inr_heap _ _ _ _ _ _ _ HV).
Qed.

Lemma step_cells sortSlice op h s h' s' a c :
  slicesValid h -> step sortSlice op (h, s) = Some (h', s') ->
  optCells h !! a = Some c ->
  optCells h' !! a = Some (if hit op (h, s) a then incrVotes c else c).
Proof.
  intros Hs Hstep Ha.
  destruct op as [id q opts e | rnd now poll | id | now pid oid | ord | id];
    simpl in Hstep; cbn [hit fst snd].
  - injection Hstep as <- <-. simpl. by apply lookup_app_l_Some.
  - unfold Create in Hstep. destruct (pollObjs h !! poll) as [o|]; [| done].
    simpl in Hstep. by injection Hstep as <- <-.
  - destruct (Get h s id) as [[h1 r]|] eqn:HG; [| done].
    simpl in Hstep. injection Hstep as <- <-.
    unfold Get in HG. destruct (polls s !! id) as [poll|];
      [| by injection HG as <- <-].
    destruct (copyPoll h poll) as [[h2 snap]|] eqn:Hc; [| done].
    simpl in HG. injection HG as <- <-.
    rewrite <- Ha. eapply extends_cell; [by eapply copyPoll_extends |].
    by eapply lookup_lt_Some.
  - destruct (Vote now h s pid oid) as [[h1 r]|] eqn:HV; [| done].
    simpl in Hstep. injection Hstep as <- <-.
    by eapply Vote_cells.
  - destruct (List sortSlice ord h s) as [[h1 r]|] eqn:HL; [| done].
    simpl in Hstep. injection Hstep as <- <-.
    unfold List in HL. destruct (copyAll h ord.*2) as [[h2 cs]|] eqn:Hall; [| done].
    simpl in HL. injection HL as <- <-.
    rewrite <- Ha. eapply extends_cell; [by eapply copyAll_extends |].
    by eapply lookup_lt_Some.
  - by injection Hstep as <- <-.
Qed.

Lemma run_cells sortSlice ops h s h' s' a c :
  slicesValid h -> run sortSlice ops (h, s) = Some (h', s') ->
  optCells h !! a = Some c ->
  optCells h' !! a = Some (Nat.iter (hits sortSlice a ops (h, s)) incrVotes c).
Proof.
  revert h s c. induction ops as [|op ops IH]; intros h s c Hs.
  - by intros [= <- <-].
  - intros ([h1 s1] & Hstep & Hrun)%run_cons_inv Ha.
    pose proof (step_cells _ _ _ _ _ _ _ _ Hs Hstep Ha) as Ha1.
    pose proof (step_slicesValid _ _ _ _ _ _ Hs Hstep) as Hs1.
    rewrite (IH _ _ _ Hs1 Hrun Ha1). f_equal. cbn [hits]. rewrite Hstep.
    destruct (hit op (h, s) a); [| done].
    change (1 + hits sortSlice a ops (h1, s1))%nat
      with (S (hits sortSlice a ops (h1, s1))).
    by rewrite Nat.iter_succ_r.
Qed.

Lemma iter_incrVotes k c :
  isInt (Votes c) ->
  Nat.iter k incrVotes c =
    mkOption (OptID c) (Text c) (wrapInt (Votes c + Z.of_nat k)).
Proof.
  intros Hint. induction k as [|k IH].
  - simpl. rewrite Z.add_0_r, wrapInt_id by done. by destruct c.
  - rewrite Nat.iter_succ, IH. unfold incrVotes. simpl. f_equal.
    rewrite wrapInt_add_l. f_equal. lia.
Qed.

Lemma hits_le sortSlice a ops : forall st, (hits sortSlice a ops st <= votesOf ops)%nat.
Proof.
  induction ops as [|op ops IH]; intros st; [done |]. cbn [hits].
  assert ((match step sortSlice op st with
           | Some st' => hits sortSlice a ops st'
           | None => 0
           end <= votesOf ops)%nat) as Hrest
    by (destruct (step sortSlice op st); [apply IH | lia]).
  destruct op; simpl in *; try lia. destruct (bool_decide _); lia.
Qed.

Lemma lastCreate_None q ops : lastCreate q ops = None <-> q ∉ createdBy ops.
Proof.
  induction ops as [|op ops IH]; [by split; [intros _; apply not_elem_of_nil |] |].
  rewrite createdBy_cons, not_elem_of_app, <- IH. cbn [lastCreate].
  destruct (lastCreate q ops) as [t|]; [by split; [| intros [_ ?]] |].
  destruct op as [id qn opts e | rnd now poll | id | now pid oid | ord | id];
    try (split; [intros _; split; [apply not_elem_of_nil | done] | done]).
  simpl. destruct (decide (poll = q)) as [-> | Hne].
  - split; [done |]. intros [Hnot _]. destruct Hnot. by apply list_elem_of_singleton.
  - split; [| done]. intros _. split; [| done].
    intros Hin%list_elem_of_singleton. congruence.
Qed.

(** What an operation does to a poll object: nothing, unless it is
    [Create] of that very object, which fills in an empty identifier
    and stamps the creation instant. *)
Lemma step_fields sortSlice op h s h' s' q o :
  step sortSlice op (h, s) = Some (h', s') -> pollObjs h !! q = Some o ->
  exists o',
    pollObjs h' !! q = Some o' /\
    Question o' = Question o /\ Options o' = Options o /\
    ExpiresAt o' = ExpiresAt o /\
    (ID o <> EmptyString -> ID o' = ID o) /\
    CreatedAt o' = default (CreatedAt o) (lastCreate q [op]) /\
    (forall rnd now, op = OpCreate rnd now q -> polls s' !! ID o' = Some q).
Proof.
  intros Hstep Hq.
  destruct (decide (q ∈ createdBy [op])) as [Hin | Hnot].
  - destruct op as [id qn opts e | rnd now poll | id | now pid oid | ord | id];
      try (by apply elem_of_nil in Hin).
    apply list_elem_of_singleton in Hin as ->. simpl in Hstep.
    rewrite (Create_Some _ _ _ _ _ o Hq) in Hstep. injection Hstep as <- <-.
    eexists. split; [apply list_lookup_insert_eq; by eapply lookup_lt_Some |].
    simpl. split_and!; try done.
    + intros Hne. unfold createdID. by destruct (String.eqb_spec (ID o) "").
    + by rewrite decide_True.
    + intros rnd' now' _. apply lookup_insert_eq.
  - exists o. split; [by eapply step_object |]. split_and!; try done.
    + apply lastCreate_None in Hnot. by rewrite Hnot.
    + intros rnd now ->. destruct Hnot. by apply list_elem_of_singleton.
Qed.

Lemma run_fields sortSlice ops h s h' s' q o :
  run sortSlice ops (h, s) = Some (h', s') -> pollObjs h !! q = Some o ->
  exists o',
    pollObjs h' !! q = Some o' /\
    Question o' = Question o /\ Options o' = Options o /\
    ExpiresAt o' = ExpiresAt o /\
    (ID o <> EmptyString -> ID o' = ID o) /\
    CreatedAt o' = default (CreatedAt o) (lastCreate q ops) /\
    (forall rnd now ops0, ops = ops0 ++ [OpCreate rnd now q] ->
       polls s' !! ID o' = Some q).
Proof.
  revert h s o. induction ops as [|op ops IH]; intros h s o.
  - intros [= <- <-] Hq. exists o. split_and!; try done.
    intros rnd now ops0 Heq. by destruct ops0.
  - intros ([h1 s1] & Hstep & Hrun)%run_cons_inv Hq.
    destruct (step_fields _ _ _ _ _ _ _ _ Hstep Hq)
      as (o1 & Hq1 & Hqn1 & Hopt1 & Hexp1 & Hid1 & Hcr1 & Hst1).
    destruct (IH _ _ _ Hrun Hq1) as (o' & Hq' & Hqn' & Hopt' & Hexp' & Hid' & Hcr' & Hst').
    exists o'. split_and!; try congruence.
    + intros Hne. rewrite Hid'; [by apply Hid1 |]. by rewrite Hid1.
    + rewrite Hcr', Hcr1. cbn [lastCreate].
      by destruct (lastCreate q ops).
    + intros rnd now ops0 Heq. destruct ops0 as [|op0 ops0]; simpl in Heq.
      * injection Heq as -> ->. injection Hrun as <- <-.
        assert (o' = o1) as -> by congruence. by eapply Hst1.
      * injection Heq as -> ->. by eapply Hst'.
Qed.

(** C7, as amended: across every sequence of operations, every poll
    keeps its question, its expiry instant and its options' number,
    order, identifiers and texts, and keeps its identifier unless that
    was empty. Each counter ends as what it was plus the number of
    votes of the sequence that landed on its option, reduced to an
    [int]: it changes by votes only, and never decreases as long as
    these votes do not take it past the largest [int]. A poll that is
    not handed to [Create] again also keeps its identifier and its
    creation instant; one that is gets the instant of the last such
    [Create], and is in the store under its identifier right after
    it. This holds for every pointer, so for every stored poll. *)
Theorem polls_evolve sortSlice ops h s h' s' q v
  (Hwf : wf h s)
  (Hrun : run sortSlice ops (h, s) = Some (h', s'))
  (Hq : readPoll h q = Some v) :
  exists v',
    readPoll h' q = Some v' /\
    vQuestion v' = vQuestion v /\ vExpiresAt v' = vExpiresAt v /\
    (vID v <> EmptyString -> vID v' = vID v) /\
    (q ∉ createdBy ops -> vID v' = vID v /\ vCreatedAt v' = vCreatedAt v) /\
    (forall now, lastCreate q ops = Some now -> vCreatedAt v' = now) /\
    (forall rnd now ops0, ops = ops0 ++ [OpCreate rnd now q] ->
       polls s' !! vID v' = Some q) /\
    length (vOptions v') = length (vOptions v) /\
    (forall i c, vOptions v !! i = Some c ->
       let k := hits sortSlice (optionCell h q i) ops (h, s) in
       vOptions v' !! i =
         Some (mkOption (OptID c) (Text c) (wrapInt (Votes c + Z.of_nat k))) /\
       (k <= votesOf ops)%nat /\
       (Votes c + Z.of_nat k <= maxInt ->
        wrapInt (Votes c + Z.of_nat k) = Votes c + Z.of_nat k)).
Proof.
  destruct Hwf as [[Hs Hint] _].
  unfold readPoll in Hq.
  destruct (pollObjs h !! q) as [o|] eqn:Ho; simpl in Hq; [| done].
  destruct (loadSlice h (Options o)) as [opts|] eqn:Hl; simpl in Hq; [| done].
  injection Hq as <-. simpl.
  destruct (run_fields _ _ _ _ _ _ _ _ Hrun Ho)
    as (o' & Ho' & Hqn & Hopt & Hexp & Hid & Hcr & Hst).
  pose proof (run_grows _ _ _ _ _ _ Hrun) as (_ & Hlen & _).
  pose proof (loadSlice_Some _ _ _ Hl) as (Hv & Hlen_opts & Hcells).
  assert (validSlice h' (Options o)) as Hv' by (unfold validSlice in *; lia).
  pose proof (loadSlice_valid h' _ Hv') as Hl'.
  pose proof (loadSlice_Some _ _ _ Hl') as (_ & Hlen_opts' & Hcells').
  eexists. unfold readPoll. rewrite Ho'. simpl. rewrite Hopt, Hl'. simpl.
  split_and!; try done.
  - intros Hnot. apply lastCreate_None in Hnot. rewrite Hnot in Hcr. simpl in Hcr.
    split; [| done].
    assert (pollObjs h' !! q = Some o) as Ho''
      by (eapply run_object; [done | done | by apply lastCreate_None]).
    simpl. congruence.
  - intros now Hlast. simpl. by rewrite Hcr, Hlast.
  - simpl. lia.
  - intros i c Hc. simpl.
    assert (i < len (Options o))%nat as Hi by (apply lookup_lt_Some in Hc; lia).
    rewrite Hcells in Hc by done.
    assert (optionCell h q i = (ptr (Options o) + i)%nat) as Hcell
      by (unfold optionCell; by rewrite Ho).
    assert (isInt (Votes c)) as Hc_int by by eapply Hint.
    rewrite Hcell. split_and!.
    + rewrite Hcells' by done.
      rewrite (run_cells _ _ _ _ _ _ _ _ Hs Hrun Hc).
      by rewrite iter_incrVotes.
    + apply hits_le.
    + intros Hroom. apply wrapInt_id. unfold isInt, minInt, maxInt in *. lia.
Qed.

(** [polls_evolve] on the example: after two votes for option [a], one
    for [b], a [Get], a second poll created under a generated
    identifier, a listing and a [Delete], the first poll differs only
    in its counters, which went from 3 and 5 to 5 and 6. *)
Lemma polls_evolve_witness :
  let ops :=
    [OpVote 50 "p1" "a"; OpGet "p1"; OpVote 51 "p1" "b"; OpVote 52 "p1" "zz";
     OpNew "" "Vim or Emacs?" [mkOption "v" "Vim" 0] 0;
     OpCreate (Byte.x01, Byte.xab, Byte.x00, Byte.xff) 200 4;
     OpVote 201 "p1" "a";
     OpList [("01ab00ff"%string, 4%nat); ("p1"%string, 0%nat)];
     OpDelete "01ab00ff"] in
  exists h' s',
    run insertionSort ops (exHeap, exStore) = Some (h', s') /\
    readPoll h' 0%nat =
      Some (mkView "p1" "Tabs or spaces?"
              [mkOption "a" "Tabs" 5; mkOption "b" "Spaces" 6] 100 0).
Proof.
  intros ops.
  destruct (run insertionSort ops (exHeap, exStore)) as [[h' s']|] eqn:Hrun;
    [| by vm_compute in Hrun].
  exists h', s'. split; [reflexivity |].
  destruct (polls_evolve insertionSort ops exHeap exStore h' s' 0%nat
              (mkView "p1" "Tabs or spaces?" exOpts 100 0) exWf Hrun eq_refl)
    as (v' & Hv' & Hqn & Hexp & _ & Hsame & _ & _ & Hlen & Hopts).
  destruct Hsame as [Hid Hcr].
  { intros Hin. vm_compute in Hin.
    apply list_elem_of_In in Hin. destruct Hin as [Hin | []]. discriminate. }
  destruct (Hopts 0%nat (mkOption "a" "Tabs" 3) eq_refl) as (Ha & _ & _).
  destruct (Hopts 1%nat (mkOption "b" "Spaces" 5) eq_refl) as (Hb & _ & _).
  rewrite Hv'. f_equal. destruct v' as [id qn opts cr ex]. simpl in *. subst.
  f_equal. destruct opts as [|a [|b [|]]]; simpl in Hlen; try discriminate.
  simpl in Ha, Hb. injection Ha as ->. injection Hb as ->.
  vm_compute. reflexivity.
Defined.
